(** * jellyfin_organizer.py: the planner of the media organizer, embedded in Rocq

    The development follows [src/jellyfin_organizer.py]:
    - text helpers ([str.upper], [str.lower], [in], [int], number formatting);
    - the fragment of Python's [re] module that the script uses, as a
      backtracking matcher over a small regular-expression syntax;
    - [ShowProcessor] with its two mutable lists threaded explicitly;
    - the script emitter [generate_script].

    File and folder names are Python [str] values.  They are modelled as
    [string] and read as sequences of ASCII code points: on such names
    [upper], [lower], [\d], [\s] and [re.IGNORECASE] behave as defined here. *)

From Stdlib Require Import Strings.String Strings.Ascii NArith Numbers.DecimalString
  Numbers.DecimalN Numbers.DecimalFacts.
From stdpp Require Import base option list strings gmap sorting.

Set Warnings "-register-all".
Local Open Scope string_scope.
Local Open Scope list_scope.
Local Open Scope N_scope.

(** ** Characters and strings *)

Module Text.

Definition code (a : ascii) : N := N_of_ascii a.

Definition is_digit (a : ascii) : bool := (48 <=? code a) && (code a <=? 57).
Definition is_upper (a : ascii) : bool := (65 <=? code a) && (code a <=? 90).
Definition is_lower (a : ascii) : bool := (97 <=? code a) && (code a <=? 122).

(** [str.isspace] on code points below 128, which is what [\s] tests. *)
Definition is_space (a : ascii) : bool :=
  ((9 <=? code a) && (code a <=? 13)) || ((28 <=? code a) && (code a <=? 32)).

Definition lower_char (a : ascii) : ascii :=
  if is_upper a then ascii_of_N (code a + 32) else a.
Definition upper_char (a : ascii) : ascii :=
  if is_lower a then ascii_of_N (code a - 32) else a.

Fixpoint map_chars (f : ascii -> ascii) (s : string) : string :=
  match s with
  | EmptyString => EmptyString
  | String a s' => String (f a) (map_chars f s')
  end.

(** [str.lower] and [str.upper] on ASCII text.  Python also maps letters
    beyond ASCII (the sharp s becomes [SS] in upper case, the long s becomes
    [S]), which these two do not: they stand for the methods on names that
    satisfy [is_ascii] below, and a statement that compares a name with its
    upper-case or lower-case form carries that hypothesis. *)
Definition lower : string -> string := map_chars lower_char.
Definition upper : string -> string := map_chars upper_char.

(** Names made of ASCII characters only. *)
Fixpoint is_ascii (s : string) : bool :=
  match s with
  | EmptyString => true
  | String a s' => (code a <? 128) && is_ascii s'
  end.

(** [needle in hay] *)
Fixpoint contains (needle hay : string) : bool :=
  String.prefix needle hay ||
  match hay with
  | EmptyString => false
  | String _ hay' => contains needle hay'
  end.

(** [x in xs] for a set or list of strings *)
Definition mem (x : string) (xs : list string) : bool :=
  existsb (String.eqb x) xs.

Fixpoint rfind_dot (s : string) (i : nat) : option nat :=
  match s with
  | EmptyString => None
  | String a s' =>
      match rfind_dot s' (S i) with
      | Some j => Some j
      | None => if Ascii.eqb a "." then Some i else None
      end
  end.

(** [int(digits)] for a run of decimal digits *)
Definition digit_val (a : ascii) : N := code a - 48.
Fixpoint int_acc (acc : N) (s : string) : N :=
  match s with
  | EmptyString => acc
  | String a s' => int_acc (10 * acc + digit_val a) s'
  end.
Definition int (s : string) : N := int_acc 0 s.

(** [f"{n}"] *)
Definition str (n : N) : string := NilEmpty.string_of_uint (N.to_uint n).

(** [f"{n:02d}"] *)
Definition str02 (n : N) : string :=
  let s := str n in
  if (String.length s <? 2)%nat then "0" +:+ s else s.

(** Strings made of decimal digits only; strings that do not begin with one. *)
Fixpoint all_digits (s : string) : bool :=
  match s with
  | EmptyString => true
  | String a s' => is_digit a && all_digits s'
  end.

(** Strings without a dot. *)
Fixpoint no_dot (s : string) : bool :=
  match s with
  | EmptyString => true
  | String a s' => negb (Ascii.eqb a ".") && no_dot s'
  end.

Definition no_digit_head (s : string) : bool :=
  match s with
  | EmptyString => true
  | String a _ => negb (is_digit a)
  end.

(** The double quote character, U+0022. *)
Definition dq : string := String (ascii_of_nat 34) EmptyString.

End Text.

(** ** Regular expressions

    The patterns of the script use literals, character classes, sequence,
    alternation, an optional class, [+] on a class and capturing groups.
    [mt] is a backtracking matcher in continuation-passing style that tries
    the alternatives in Python's order: left alternative first, greedy [?]
    and [+] first. *)

Module Re.

Import Text.

Inductive regex : Type :=
| Chr (a : ascii)
| Cls (p : ascii -> bool)
| Seq (r1 r2 : regex)
| Alt (r1 r2 : regex)
| Opt (r : regex)
| Plus (p : ascii -> bool)
| Grp (i : nat) (r : regex).

(** Captured groups, most recent first, and the text left after the match. *)
Definition caps := list (nat * string).
Definition result := option (caps * string).
Definition cont := string -> caps -> result.

Definition accept : cont := fun s c => Some (c, s).

Definition chr_ok (ic : bool) (a b : ascii) : bool :=
  if ic then Ascii.eqb (lower_char a) (lower_char b) else Ascii.eqb a b.

(** Greedy [p*]: take as many as possible, give back one at a time. *)
Fixpoint star (p : ascii -> bool) (k : cont) (s : string) (c : caps) : result :=
  match s with
  | String a s' =>
      if p a then
        match star p k s' c with
        | Some r => Some r
        | None => k s c
        end
      else k s c
  | EmptyString => k s c
  end.

Definition consumed (s s' : string) : string :=
  String.substring 0 (String.length s - String.length s') s.

Fixpoint mt (ic : bool) (r : regex) (k : cont) (s : string) (c : caps) : result :=
  match r with
  | Chr a =>
      match s with
      | String b s' => if chr_ok ic a b then k s' c else None
      | EmptyString => None
      end
  | Cls p =>
      match s with
      | String b s' => if p b then k s' c else None
      | EmptyString => None
      end
  | Seq r1 r2 => mt ic r1 (mt ic r2 k) s c
  | Alt r1 r2 =>
      match mt ic r1 k s c with
      | Some x => Some x
      | None => mt ic r2 k s c
      end
  | Opt r1 =>
      match mt ic r1 k s c with
      | Some x => Some x
      | None => k s c
      end
  | Plus p =>
      match s with
      | String b s' => if p b then star p k s' c else None
      | EmptyString => None
      end
  | Grp i r1 => mt ic r1 (fun s' c' => k s' ((i, consumed s s') :: c')) s c
  end.

(** [m.group(i)] *)
Fixpoint group (i : nat) (c : caps) : string :=
  match c with
  | [] => ""
  | (j, t) :: c' => if Nat.eqb i j then t else group i c'
  end.

(** [re.search]: the leftmost position at which the pattern matches. *)
Fixpoint search (ic : bool) (r : regex) (s : string) : option caps :=
  match mt ic r accept s [] with
  | Some (c, _) => Some c
  | None =>
      match s with
      | String _ s' => search ic r s'
      | EmptyString => None
      end
  end.

(** [re.sub(r, "", s)]: delete the non-overlapping matches, leftmost first.
    [skip] counts the characters of the current match still to be dropped. *)
Fixpoint sub_empty (ic : bool) (r : regex) (s : string) (skip : nat) : string :=
  match s with
  | EmptyString => EmptyString
  | String a s' =>
      match skip with
      | S n => sub_empty ic r s' n
      | O =>
          match mt ic r accept s [] with
          | Some (_, rest) =>
              match (String.length s - String.length rest)%nat with
              | O => String a (sub_empty ic r s' 0)
              | S n => sub_empty ic r s' n
              end
          | None => String a (sub_empty ic r s' 0)
          end
      end
  end.

(** A literal string as a pattern. *)
Fixpoint lit (s : string) : regex :=
  match s with
  | EmptyString => Opt (Cls (fun _ => false))
  | String a EmptyString => Chr a
  | String a s' => Seq (Chr a) (lit s')
  end.

Definition one_of (s : string) (a : ascii) : bool :=
  contains (String a EmptyString) s.

(** [[_.\-\s]] *)
Definition sep (a : ascii) : bool := one_of "_.-" a || is_space a.

(** [s] without its prefix [tok], compared as [re.IGNORECASE] does. *)
Fixpoint strip_ci (tok s : string) : option string :=
  match tok with
  | EmptyString => Some s
  | String a tok' =>
      match s with
      | String b s' => if chr_ok true a b then strip_ci tok' s' else None
      | EmptyString => None
      end
  end.

(** [t] begins with a digit, or with a separator and a digit: what
    [[_.\-\s]?(\d+)] needs. *)
Definition num_ok (t : string) : bool :=
  match t with
  | String a t' =>
      is_digit a ||
      (sep a && match t' with String b _ => is_digit b | EmptyString => false end)
  | EmptyString => false
  end.

(** A rest of a token that cannot be completed by an [s] and a character
    that is a digit or a separator. *)
Definition safe_tok (tok : string) : bool :=
  match tok with
  | EmptyString => true
  | String b EmptyString => negb (chr_ok true b "s")
  | String b (String b2 _) => negb (chr_ok true b "s") || is_lower (lower_char b2)
  end.

Fixpoint safe_all (tok : string) : bool :=
  safe_tok tok &&
  match tok with
  | EmptyString => true
  | String _ tok' => safe_all tok'
  end.

(** A token followed by a number. *)
Definition tok_num (tok s : string) : bool :=
  match strip_ci tok s with Some t => num_ok t | None => false end.

End Re.

(** ** The file system as the script sees it

    A [Path] is a parent directory and a final component.  The script only
    visits a show folder, its season folders and their disc folders; what
    [iterdir], [is_dir] and [is_file] answer for a path is carried with it as
    a [tree]. *)

Inductive tree : Type :=
| File
| Dir (children : list (string * tree)).

Record Path : Type := mkPath { parent : list string; name : string }.

Record entry : Type := mkEntry { path :> Path; node : tree }.

Definition parts (p : Path) : list string := parent p ++ [name p].

(** [p / child] *)
Definition joinpath (p : Path) (child : string) : Path :=
  {| parent := parts p; name := child |}.

Definition is_dir (e : entry) : bool :=
  match node e with Dir _ => true | File => false end.
Definition is_file (e : entry) : bool :=
  match node e with File => true | Dir _ => false end.

Definition iterdir (e : entry) : list entry :=
  match node e with
  | Dir children => map (fun c => mkEntry (joinpath e (fst c)) (snd c)) children
  | File => []
  end.

(** [PurePath.suffix]: the name from its last dot on, when that dot is
    neither the first nor the last character. *)
Definition suffix (p : Path) : string :=
  match Text.rfind_dot (name p) 0 with
  | Some i =>
      if ((0 <? i) && (i <? String.length (name p) - 1))%nat
      then String.substring i (String.length (name p) - i) (name p)
      else ""
  | None => ""
  end.

(** [str(path)], components joined by the separator of the platform; the
    first component is the anchor without its separator (empty for the POSIX
    root). *)
Definition path_str (sep : string) (p : Path) : string :=
  String.concat sep (parts p).

(** [sorted]: a stable sort, here by insertion. *)
Section Sorted.
Context {A K : Type} (key : A -> K) (leb : K -> K -> bool).

Fixpoint insert_sorted (x : A) (l : list A) : list A :=
  match l with
  | [] => [x]
  | y :: l' =>
      if leb (key x) (key y) then x :: y :: l' else y :: insert_sorted x l'
  end.

Definition sorted (l : list A) : list A := foldr insert_sorted [] l.

(** The order the result is sorted by. *)
Definition key_le (x y : A) : Prop := leb (key x) (key y) = true.

End Sorted.

(** Sibling paths are ordered by their final component, code point by code
    point (the POSIX flavour of [pathlib]). *)
Definition sorted_paths {A : Type} (key : A -> Path) : list A -> list A :=
  sorted (fun x => name (key x)) String.leb.

(** ** Configuration *)

Definition VIDEO_EXTENSIONS : list string :=
  [".mkv"; ".mp4"; ".avi"; ".m4v"; ".iso"; ".wmv"].
Definition FOLDER_IGNORE_KEYWORDS : list string :=
  ["RAZOR"; "THE PLAN"; "CONQUEST"; "EXTRAS"; "SPECIALS"; "FEATURETTES"; "SAMPLE"].
Definition FILE_IGNORE_KEYWORDS : list string := ["[IGNORE]"; "SAMPLE"; "TRAILER"].

(** ** ShowProcessor *)

Record operation : Type := mkOp {
  original : Path;
  new_name : string;
  season_num : N;
  is_root_move : bool
}.

Record ShowProcessor : Type := mkProc {
  operations : list operation;
  tree_output : list string
}.

Definition init : ShowProcessor := {| operations := []; tree_output := [] |}.

(** Truth value of an optional number, of an optional string. *)
Definition truthy (o : option N) : bool :=
  match o with Some n => negb (n =? 0) | None => false end.
Definition truthy_str (o : option string) : bool :=
  match o with Some s => negb (String.eqb s "") | None => false end.

(** Truth value of a list. *)
Definition nonempty {A : Type} (l : list A) : bool :=
  match l with [] => false | _ :: _ => true end.

Import Re.

(** [(?:season|staffel|s)[_.\-\s]?(\d+)] *)
Definition season_re : regex :=
  Seq (Alt (lit "season") (Alt (lit "staffel") (lit "s")))
      (Seq (Opt (Cls sep)) (Grp 1 (Plus Text.is_digit))).

(** [(?:disc|disk|dvd|d)[_.\-\s]?(\d+)] *)
Definition disc_re : regex :=
  Seq (Alt (lit "disc") (Alt (lit "disk") (Alt (lit "dvd") (lit "d"))))
      (Seq (Opt (Cls sep)) (Grp 1 (Plus Text.is_digit))).

(** [s(\d+)d(\d+)] *)
Definition sd_re : regex :=
  Seq (Chr "s") (Seq (Grp 1 (Plus Text.is_digit))
      (Seq (Chr "d") (Grp 2 (Plus Text.is_digit)))).

(** [[sS]\d+[eE](\d+)] *)
Definition episode_re : regex :=
  Seq (Cls (one_of "sS")) (Seq (Plus Text.is_digit)
      (Seq (Cls (one_of "eE")) (Grp 1 (Plus Text.is_digit)))).

Definition get_clean_season_num (folder_name : string) : option N :=
  match search true season_re folder_name with
  | Some m => Some (Text.int (group 1 m))
  | None => None
  end.

Definition get_clean_disc_num (folder_name : string) (season_num : N) : option N :=
  let temp_name := sub_empty true (lit ("s" +:+ Text.str season_num)) folder_name 0 in
  match search true disc_re temp_name with
  | Some m => Some (Text.int (group 1 m))
  | None =>
      match search true sd_re folder_name with
      | Some m =>
          if Text.int (group 1 m) =? season_num
          then Some (Text.int (group 2 m))
          else Some (Text.int (group 1 m))
      | None => None
      end
  end.

Definition get_episode_from_file (filename : string) : option N :=
  match search false episode_re filename with
  | Some m => Some (Text.int (group 1 m))
  | None => None
  end.

Definition should_ignore_file (filename : string) : bool :=
  existsb (fun k => Text.contains (Text.upper k) (Text.upper filename))
          FILE_IGNORE_KEYWORDS.

Definition folder_ignored (folder_name : string) : bool :=
  existsb (fun k => Text.contains k (Text.upper folder_name))
          FOLDER_IGNORE_KEYWORDS.

Definition is_video (x : entry) : bool :=
  is_file x && Text.mem (Text.lower (suffix x)) VIDEO_EXTENSIONS.

(** [log_tree]; the two branch glyphs are kept as their UTF-8 bytes. *)
Fixpoint indent_of (level : nat) : string :=
  match level with O => "" | S n => "    " +:+ indent_of n end.

Definition log_tree (log_list : list string) (level : nat) (text : string)
    (operation : option string) : list string :=
  let indent := indent_of level in
  let msg :=
    if truthy_str operation
    then indent +:+ "├── " +:+ text +:+ "  ->  " +:+ default "" operation
    else indent +:+ "└── " +:+ text in
  log_list ++ [msg].

(** The numbering step of [plan_file_rename]: the new counter and the
    episode number given to the file. *)
Definition assign_episode (explicit_ep : option N) (current_counter : N) : N * N :=
  if truthy explicit_ep
  then (N.max current_counter (default 0 explicit_ep), default 0 explicit_ep)
  else (current_counter + 1, current_counter + 1).

Definition target_name (season_num final_ep_num : N) (file_path : Path) : string :=
  "S" +:+ Text.str02 season_num +:+ "E" +:+ Text.str02 final_ep_num +:+ suffix file_path.

(** The mutable state a planning call works on: the log buffer of the show
    and the processor. *)
Definition state : Type := list string * ShowProcessor.

Definition plan_file_rename (file_path : Path) (season_num current_counter : N)
    (indent : nat) (is_root_move : bool) (st : state) : N * state :=
  let '(logs, self) := st in
  let explicit_ep := get_episode_from_file (name file_path) in
  let '(current_counter, final_ep_num) := assign_episode explicit_ep current_counter in
  let new_name := target_name season_num final_ep_num file_path in
  let needs_rename := negb (String.eqb (name file_path) new_name) in
  let op := if needs_rename || is_root_move then Some new_name else None in
  if truthy_str op then
    (current_counter,
     (log_tree logs indent (name file_path) op,
      {| operations := operations self ++ [mkOp file_path new_name season_num is_root_move];
         tree_output := tree_output self |}))
  else (current_counter, (logs, self)).

(** One pass of [for f in files: if ignored: continue; counter = plan(...)]. *)
Definition plan_files (files : list entry) (s_num : N) (indent : nat)
    (is_root_move : bool) (acc : N * state) : N * state :=
  foldl (fun acc (f : entry) =>
           if should_ignore_file (name f) then acc
           else plan_file_rename f s_num (fst acc) indent is_root_move (snd acc))
        acc files.

(** The scan of a season folder: sub-folders with a disc number go to
    [discs_map], video files to [direct_files]. *)
Definition scan_item (s_num : N) (acc : gmap N entry * list entry) (item : entry)
    : gmap N entry * list entry :=
  let '(discs_map, direct_files) := acc in
  if is_dir item then
    let d_num := get_clean_disc_num (name item) s_num in
    if truthy d_num then (<[default 0 d_num := item]> discs_map, direct_files)
    else acc
  else if is_video item then (discs_map, direct_files ++ [item])
  else acc.

(** [for k in sorted(m.keys()): v = m[k]] visits the bindings by ascending key. *)
Definition sorted_items {V : Type} (m : gmap N V) : list (N * V) :=
  sorted fst N.leb (map_to_list m).

(** The video files of a disc folder, sorted by name. *)
Definition disc_files (disc_folder : entry) : list entry :=
  sorted_paths path (filter (fun x => is_video x) (iterdir disc_folder)).

Definition plan_disc (s_num : N) (acc : N * state) (d : N * entry) : N * state :=
  let '(d_num, disc_folder) := d in
  let '(episode_counter, (logs, self)) := acc in
  let target_disc_name := "S" +:+ Text.str s_num +:+ "D" +:+ Text.str d_num in
  let rename_op :=
    if negb (String.eqb (name disc_folder) target_disc_name)
    then Some target_disc_name else None in
  let logs := log_tree logs 2 (name disc_folder) rename_op in
  plan_files (disc_files disc_folder) s_num 3 false (episode_counter, (logs, self)).

(** The first half of [process_season_content]: [discs_map] and
    [direct_files]. *)
Definition season_scan (current_path : entry) (root_files_list : list entry)
    (s_num : N) (is_root : bool) : gmap N entry * list entry :=
  if is_root then (∅, sorted_paths path root_files_list)
  else foldl (scan_item s_num) (∅, []) (sorted_paths path (iterdir current_path)).

Definition process_season_content (current_path : entry) (root_files_list : list entry)
    (s_num : N) (target_season_name : string) (is_root : bool) (st : state) : state :=
  let episode_counter := 0 in
  let '(discs_map, direct_files) := season_scan current_path root_files_list s_num is_root in
  let acc := plan_files direct_files s_num 2 is_root (episode_counter, st) in
  snd (foldl (plan_disc s_num) acc (sorted_items discs_map)).

Inductive season_slot : Type :=
| Folder (folder : entry)
| CREATE_ROOT_S1.

Definition map_folder (seasons_map : gmap N season_slot) (folder : entry)
    : gmap N season_slot :=
  if folder_ignored (name folder) then seasons_map
  else match get_clean_season_num (name folder) with
       | Some s_num => <[s_num := Folder folder]> seasons_map
       | None => seasons_map
       end.

Definition show_header (show_path : Path) : string :=
  String (ascii_of_nat 10) ("📺 " +:+ name show_path).

Definition process_season (show_path : entry) (root_files : list entry)
    (st : state) (s : N * season_slot) : state :=
  let '(s_num, slot) := s in
  let target_season_name := "Season " +:+ Text.str s_num in
  match slot with
  | CREATE_ROOT_S1 =>
      process_season_content show_path root_files s_num target_season_name true st
  | Folder folder =>
      let rename_op :=
        if negb (String.eqb (name folder) target_season_name)
        then Some target_season_name else None in
      let st := (log_tree (fst st) 1 (name folder) rename_op, snd st) in
      process_season_content folder [] s_num target_season_name false st
  end.

Definition build_seasons_map (folders root_files : list entry) : gmap N season_slot :=
  let seasons_map := foldl map_folder ∅ folders in
  if nonempty root_files
     && negb (existsb (fun f : entry => should_ignore_file (name f)) root_files)
  then match seasons_map !! 1 with
       | None => <[1 := CREATE_ROOT_S1]> seasons_map
       | Some _ => seasons_map
       end
  else seasons_map.

Definition process_show (show_path : entry) (self : ShowProcessor) : ShowProcessor :=
  let show_logs := [show_header show_path] in
  let initial_ops_count := length (operations self) in
  let items := sorted_paths path (iterdir show_path) in
  let folders := filter (fun x => is_dir x) items in
  let root_files := filter (fun x => is_video x) items in
  let seasons_map := build_seasons_map folders root_files in
  let '(show_logs, self) :=
    foldl (process_season show_path root_files) (show_logs, self)
          (sorted_items seasons_map) in
  if (initial_ops_count <? length (operations self))%nat
  then {| operations := operations self; tree_output := tree_output self ++ show_logs |}
  else self.

(** [generate_script]: the name of the script and its lines, or [None] when
    there is nothing to do.  [is_windows] stands for [os.name == 'nt']. *)
Definition quoted (s : string) : string := Text.dq +:+ s +:+ Text.dq.

(** The destination of an operation: [parent / new_name], or for a root
    move [parent / f"Season {n}" / new_name]. *)
Definition dest_folder (op : operation) : Path :=
  mkPath (parent (original op)) ("Season " +:+ Text.str (season_num op)).

Definition dest_file (op : operation) : Path :=
  if is_root_move op then joinpath (dest_folder op) (new_name op)
  else mkPath (parent (original op)) (new_name op).

Definition emit_op (is_windows : bool) (op : operation) : list string :=
  let sep := if is_windows then "\" else "/" in
  let orig := path_str sep (original op) in
  if is_root_move op then
    if is_windows then
      ["mkdir " +:+ quoted (path_str sep (dest_folder op)) +:+ " 2>nul";
       "move " +:+ quoted orig +:+ " " +:+ quoted (path_str sep (dest_file op))]
    else
      ["mkdir -p " +:+ quoted (path_str sep (dest_folder op));
       "mv -n " +:+ quoted orig +:+ " " +:+ quoted (path_str sep (dest_file op))]
  else
    if is_windows then
      ["move " +:+ quoted orig +:+ " " +:+ quoted (path_str sep (dest_file op))]
    else
      ["mv -n " +:+ quoted orig +:+ " " +:+ quoted (path_str sep (dest_file op))].

Definition generate_script (is_windows : bool) (self : ShowProcessor)
    : option (string * list string) :=
  match operations self with
  | [] => None
  | _ :: _ =>
      let filename := if is_windows then "apply_renames.bat" else "apply_renames.sh" in
      let shebang := if is_windows then [] else ["#!/bin/bash"] in
      let header := if is_windows then "REM Generated by Jellyfin Organizer"
                    else "# Generated by Jellyfin Organizer" in
      Some (filename,
            shebang ++ [header] ++ flat_map (emit_op is_windows) (operations self))
  end.

(** [detect_mode_and_run] without its printing: the processor after planning
    and the script it writes, if any. *)
Definition detect_mode_and_run (is_windows : bool) (target_path : entry)
    : ShowProcessor * option (string * list string) :=
  let processor := init in
  let children := iterdir target_path in
  let has_season_folders :=
    existsb (fun x : entry => Text.contains "season" (Text.lower (name x))
                              || Text.contains "staffel" (Text.lower (name x)))
            (filter (fun x => is_dir x) children) in
  let has_video_files :=
    existsb (fun x : entry => Text.mem (Text.lower (suffix x)) VIDEO_EXTENSIONS)
            (filter (fun x => is_file x) children) in
  let processor :=
    if has_season_folders || has_video_files then process_show target_path processor
    else foldl (fun p show => process_show show p) processor
               (sorted_paths path (filter (fun x => is_dir x) children)) in
  if nonempty (tree_output processor)
  then (processor, generate_script is_windows processor)
  else (processor, None).

(** ** The numbering of a season as a sequence

    [assignments] lists, in processing order, the files that reach
    [plan_file_rename] with the episode number each receives;
    [counter_after] is the counter once they are processed. *)

Fixpoint assignments (files : list entry) (counter : N) : list (entry * N) :=
  match files with
  | [] => []
  | f :: fs =>
      if should_ignore_file (name f) then assignments fs counter
      else
        let '(c, e) := assign_episode (get_episode_from_file (name f)) counter in
        (f, e) :: assignments fs c
  end.

Fixpoint counter_after (files : list entry) (counter : N) : N :=
  match files with
  | [] => counter
  | f :: fs =>
      if should_ignore_file (name f) then counter_after fs counter
      else counter_after fs (fst (assign_episode (get_episode_from_file (name f)) counter))
  end.

(** The operation [plan_file_rename] records for a numbered file, if any. *)
Definition op_of (s_num : N) (is_root_move : bool) (a : entry * N) : option operation :=
  let new_name := target_name s_num (snd a) (fst a) in
  if negb (String.eqb (name (fst a)) new_name) || is_root_move
  then Some (mkOp (fst a) new_name s_num is_root_move)
  else None.

(** The files of a season in processing order: the direct files, then the
    files of each disc by ascending disc number. *)
Definition season_files (current_path : entry) (root_files_list : list entry)
    (s_num : N) (is_root : bool) : list entry :=
  let '(discs_map, direct_files) := season_scan current_path root_files_list s_num is_root in
  direct_files ++ flat_map (fun d => disc_files (snd d)) (sorted_items discs_map).

(** A file is numbered automatically when its name gives no explicit
    episode number that counts as true. *)
Definition auto_numbered (f : entry) : bool :=
  negb (truthy (get_episode_from_file (name f))).

(** The largest element of a list of numbers, 0 for the empty list. *)
Definition max_list (l : list N) : N := foldr N.max 0 l.

(** [x] occurs before [y] in [l]. *)
Definition recorded_before {A : Type} (x y : A) (l : list A) : Prop :=
  exists l1 l2 l3, l = l1 ++ x :: l2 ++ y :: l3.

(** A list of numbers that never goes down. *)
Definition non_decreasing (l : list N) : Prop :=
  forall i j x y, (i <= j)%nat -> l !! i = Some x -> l !! j = Some y -> x <= y.

(** ** Example trees *)

Module Examples.

Definition show (children : list (string * tree)) : entry :=
  mkEntry (mkPath [""; "media"] "Show") (Dir children).

Definition season_folder (folder_name : string) (children : list (string * tree)) : entry :=
  mkEntry (mkPath [""; "media"; "Show"] folder_name) (Dir children).

Definition files (names : list string) : list (string * tree) :=
  map (fun n => (n, File)) names.

(** A season whose second file carries a lower explicit number. *)
Definition season_5_then_2 : entry :=
  season_folder "Season 1" (files ["a S01E05.mkv"; "b S01E02.mkv"]).

(** Two discs; the last file of the first disc has an explicit number below
    the counter. *)
Definition discs_9_3 : entry :=
  season_folder "Season 2"
    [("S2D1", Dir (files ["a S02E09.mkv"; "b S02E03.mkv"]));
     ("S2D2", Dir (files ["c.mkv"]))].

(** Scenario B, the discs inside the folder of season 2. *)
Definition scenario_B : entry :=
  show [("Season 2", Dir [("S2D1", Dir (files ["a.mkv"; "b.mkv"]));
                          ("S2D2", Dir (files ["c.mkv"]))])].

(** Scenario B, the disc folders directly under the show. *)
Definition scenario_B_flat : entry :=
  show [("S2D1", Dir (files ["a.mkv"; "b.mkv"]));
        ("S2D2", Dir (files ["c.mkv"]))].

(** A file that already carries episode number 0. *)
Definition episode_zero : Path := mkPath [""; "media"; "Show"; "Season 1"] "S01E00.mkv".

(** One planned rename. *)
Definition one_rename : ShowProcessor :=
  {| operations :=
       [mkOp (mkPath [""; "media"; "Show"; "Season 1"] "ep1.mkv") "S01E01.mkv" 1 false];
     tree_output := [] |}.

(** A season folder with a sub-folder whose name gives disc number 0. *)
Definition disc_zero (sub : list (string * tree)) : entry :=
  season_folder "Season 2" [("a.mkv", File); ("S2D0", Dir sub)].

End Examples.

(** Two entries for the same path that are the same, or are both folders
    whose name gives disc number 0 in season [s_num]. *)
Definition same_but_disc_zero (s_num : N) (x y : entry) : Prop :=
  path x = path y /\
  (node x = node y \/
   (is_dir x = true /\ is_dir y = true /\
    get_clean_disc_num (name x) s_num = Some 0)).

(** ** A show's operations, season by season *)

Definition folders_of (show_path : entry) : list entry :=
  filter (fun x => is_dir x) (sorted_paths path (iterdir show_path)).

Definition root_files_of (show_path : entry) : list entry :=
  filter (fun x => is_video x) (sorted_paths path (iterdir show_path)).

Definition seasons_of (show_path : entry) : gmap N season_slot :=
  build_seasons_map (folders_of show_path) (root_files_of show_path).

Definition slot_is_root (slot : season_slot) : bool :=
  match slot with CREATE_ROOT_S1 => true | Folder _ => false end.

(** The files numbered for one binding of the season map. *)
Definition slot_files (show_path : entry) (s : N * season_slot) : list entry :=
  match snd s with
  | CREATE_ROOT_S1 => season_files show_path (root_files_of show_path) (fst s) true
  | Folder folder => season_files folder [] (fst s) false
  end.

Definition season_ops (show_path : entry) (s : N * season_slot) : list operation :=
  omap (op_of (fst s) (slot_is_root (snd s))) (assignments (slot_files show_path s) 0).

Definition show_ops (show_path : entry) : list operation :=
  flat_map (season_ops show_path) (sorted_items (seasons_of show_path)).

Module Examples2.
Import Examples.

(** Root files of which one carries the ignore tag. *)
Definition root_with_ignored : entry := show (files ["a.mkv"; "b [IGNORE].mkv"]).

(** Root files, none ignored, beside a folder of season 2. *)
Definition root_and_season_2 : entry :=
  show [("a.mkv", File); ("b.mkv", File); ("Season 2", Dir (files ["x.mkv"]))].

End Examples2.

Module Examples3.
Import Examples.

(** Two files that carry the same explicit episode number. *)
Definition same_explicit : entry :=
  show [("Season 1", Dir (files ["a S01E05.mkv"; "b S01E05.mkv"]))].

End Examples3.

(** ** Reading the script *)

(** [line] moves or renames the path [p]: [mv -n "p" "dst"], or
    [move "p" "dst"] in the batch dialect. *)
Definition moves (is_windows : bool) (p : Path) (line : string) : Prop :=
  exists dst,
    line = (if is_windows then "move " else "mv -n ")
           +:+ quoted (path_str (if is_windows then "\" else "/") p)
           +:+ " " +:+ quoted dst.

(** [line] creates a directory. *)
Definition makes_dir (is_windows : bool) (line : string) : Prop :=
  exists d,
    line = if is_windows then "mkdir " +:+ quoted d +:+ " 2>nul"
           else "mkdir -p " +:+ quoted d.

Definition is_header (line : string) : Prop :=
  line = "#!/bin/bash" \/ line = "# Generated by Jellyfin Organizer" \/
  line = "REM Generated by Jellyfin Organizer".

Module Examples4.
Import Examples.

(** A season folder that does not have its canonical name. *)
Definition season_01 : entry := show [("Season 01", Dir (files ["a.mkv"]))].

Definition folder_season_01 : Path := mkPath [""; "media"; "Show"] "Season 01".

End Examples4.

Module Examples5.
Import Examples.

(** A folder that is no season folder by its name alone. *)
Definition bonus_folder : entry :=
  mkEntry (mkPath [""; "media"; "Show"] "Bonus 2") (Dir (files ["x.mkv"])).

Definition show_with_bonus : entry :=
  show [("Bonus 2", Dir (files ["x.mkv"]))].

End Examples5.

(** ** Running the POSIX script

    The planner never touches the file system; the generated script does,
    when the user runs it.  What its two commands, [mkdir -p] and [mv -n],
    do to a directory tree is written here after their manual pages.  The
    order of the children of a directory carries no meaning: the planner
    sorts every listing. *)

Module Shell.

Fixpoint lookup_child (n : string) (kids : list (string * tree)) : option tree :=
  match kids with
  | [] => None
  | (m, t) :: kids' => if String.eqb n m then Some t else lookup_child n kids'
  end.

Fixpoint remove_child (n : string) (kids : list (string * tree)) : list (string * tree) :=
  match kids with
  | [] => []
  | (m, t) :: kids' => if String.eqb n m then kids' else (m, t) :: remove_child n kids'
  end.

(** Apply [g] to the child named [n]. *)
Fixpoint map_child (n : string) (g : tree -> tree) (kids : list (string * tree))
    : list (string * tree) :=
  match kids with
  | [] => []
  | (m, t) :: kids' =>
      if String.eqb n m then (m, g t) :: kids' else (m, t) :: map_child n g kids'
  end.

(** The node at a path relative to [t]. *)
Fixpoint lookup (rel : list string) (t : tree) : option tree :=
  match rel with
  | [] => Some t
  | n :: rel' =>
      match t with
      | Dir kids =>
          match lookup_child n kids with
          | Some c => lookup rel' c
          | None => None
          end
      | File => None
      end
  end.

(** Rewrite the children of the directory at [rel]. *)
Fixpoint update (rel : list string) (g : list (string * tree) -> list (string * tree))
    (t : tree) : tree :=
  match t with
  | File => File
  | Dir kids =>
      match rel with
      | [] => Dir (g kids)
      | n :: rel' => Dir (map_child n (update rel' g) kids)
      end
  end.

(** [mkdir -p]: create the directory and the missing ones above it; an
    existing directory is left alone, and below a file nothing is made. *)
Fixpoint mkdir_rel (rel : list string) (t : tree) : tree :=
  match rel with
  | [] => t
  | n :: rel' =>
      match t with
      | Dir kids =>
          match lookup_child n kids with
          | Some _ => Dir (map_child n (mkdir_rel rel') kids)
          | None => Dir ((n, mkdir_rel rel' (Dir [])) :: kids)
          end
      | File => File
      end
  end.

(** [p] without the prefix [pre]. *)
Fixpoint strip (pre p : list string) : option (list string) :=
  match pre with
  | [] => Some p
  | a :: pre' =>
      match p with
      | b :: p' => if String.eqb a b then strip pre' p' else None
      | [] => None
      end
  end.

(** The node of the tree [fs] at an absolute path. *)
Definition node_at (p : list string) (fs : entry) : option tree :=
  match strip (parts fs) p with
  | Some rel => lookup rel (node fs)
  | None => None
  end.

Definition update_at (dir : list string) (g : list (string * tree) -> list (string * tree))
    (fs : entry) : entry :=
  match strip (parts fs) dir with
  | Some rel => mkEntry (path fs) (update rel g (node fs))
  | None => fs
  end.

Definition is_directory (p : list string) (fs : entry) : bool :=
  match node_at p fs with Some (Dir _) => true | _ => false end.

Definition mkdir_p (d : Path) (fs : entry) : entry :=
  match strip (parts fs) (parts d) with
  | Some rel => mkEntry (path fs) (mkdir_rel rel (node fs))
  | None => fs
  end.

(** Take the node at [src] away and put [t] at [dst]. *)
Definition relocate (src dst : Path) (t : tree) (fs : entry) : entry :=
  update_at (parent dst) (fun kids => (name dst, t) :: kids)
    (update_at (parent src) (remove_child (name src)) fs).

(** [mv -n src dst]: nothing happens when [src] is missing or when the
    destination exists; a destination that is a directory receives the
    file under its own name. *)
Definition mv_n (src dst : Path) (fs : entry) : entry :=
  match node_at (parts src) fs with
  | None => fs
  | Some t =>
      match node_at (parts dst) fs with
      | Some File => fs
      | Some (Dir _) =>
          match node_at (parts (joinpath dst (name src))) fs with
          | Some _ => fs
          | None => relocate src (joinpath dst (name src)) t fs
          end
      | None =>
          if is_directory (parent dst) fs then relocate src dst t fs else fs
      end
  end.

(** The lines [emit_op false op] writes, carried out: the [mkdir -p] of a
    root move, then the [mv -n].  That bash, reading the text of the lines,
    does just this is shown for the paths it can carry between double
    quotes ([Bash], further down). *)
Definition run_op (fs : entry) (op : operation) : entry :=
  if is_root_move op
  then mv_n (original op) (dest_file op) (mkdir_p (dest_folder op) fs)
  else mv_n (original op) (dest_file op) fs.

Definition run_script (ops : list operation) (fs : entry) : entry :=
  foldl run_op fs ops.

End Shell.

Module Examples6.
Import Examples.

(** The destination of the only planned move is taken. *)
Definition destination_taken : entry :=
  show [("Season 1", Dir (files ["A.mkv"; "S01E01.mkv"]))].

End Examples6.

(** ** Trees on which the planner has nothing to do *)

(** A file the planner leaves alone in season [s_num]: it is ignored, or it
    bears the canonical name of the season for a number other than 0. *)
Definition canonical_in (s_num : N) (f : entry) : Prop :=
  should_ignore_file (name f) = true \/
  exists e, e <> 0 /\ name f = target_name s_num e f.

(** Every binding of the season map is a folder whose files are canonical. *)
Definition settled (show_path : entry) : Prop :=
  forall s_num slot, seasons_of show_path !! s_num = Some slot ->
    exists folder, slot = Folder folder /\
      forall f, f ∈ season_files folder [] s_num false -> canonical_in s_num f.

(** ** What a tree holds, path by path *)

(** File ([Some true]), directory ([Some false]) or nothing at a path. *)
Definition kind (o : option tree) : option bool :=
  match o with
  | Some File => Some true
  | Some (Dir _) => Some false
  | None => None
  end.

Definition kind_at (p : list string) (fs : entry) : option bool :=
  kind (Shell.node_at p fs).

Definition file_at (p : list string) (fs : entry) : Prop := kind_at p fs = Some true.

Definition dir_at (p : list string) (fs : entry) : Prop := kind_at p fs = Some false.

(** No directory lists a name twice. *)
Definition wf (fs : entry) : Prop :=
  forall p kids, Shell.node_at p fs = Some (Dir kids) -> NoDup (map fst kids).

(** Two nodes of the same kind; two directories list the same names. *)
Definition same_shape (o1 o2 : option tree) : Prop :=
  match o1, o2 with
  | Some File, Some File => True
  | Some (Dir k1), Some (Dir k2) => map fst k1 = map fst k2
  | None, None => True
  | _, _ => False
  end.

(** The move of an operation takes effect: its file is there, its
    destination is not, and the folder of the destination is. *)
Definition performed (fs : entry) (op : operation) : Prop :=
  let fs' := if is_root_move op then Shell.mkdir_p (dest_folder op) fs else fs in
  file_at (parts (original op)) fs' /\
  kind_at (parts (dest_file op)) fs' = None /\
  dir_at (parent (dest_file op)) fs'.

Fixpoint all_performed (ops : list operation) (fs : entry) : Prop :=
  match ops with
  | [] => True
  | op :: ops' => performed fs op /\ all_performed ops' (Shell.run_op fs op)
  end.

(** How a tree [fs] relates to the tree [T] it came from by carrying out
    the operations [done]. *)
Record carried_out (T : entry) (done : list operation) (fs : entry) : Prop := {
  co_wf : wf fs;
  co_parts : parts fs = parts T;
  co_files : forall q, file_at q fs ->
    (exists op, op ∈ done /\ q = parts (dest_file op)) \/
    (file_at q T /\ forall op, op ∈ done -> q <> parts (original op));
  co_kept : forall q, file_at q T ->
    (forall op, op ∈ done -> q <> parts (original op)) -> file_at q fs;
  co_dirs : forall q, dir_at q fs ->
    dir_at q T \/ exists op, op ∈ done /\ is_root_move op = true /\ q = parts (dest_folder op);
  co_dirs_kept : forall q, dir_at q T -> dir_at q fs
}.

(** [e] is what the tree [X] holds at the path of [e]. *)
Definition entry_in (X e : entry) : Prop :=
  Shell.node_at (parts e) X = Some (node e).

(** The keys under which the two scans file a folder. *)
Definition cand_season (folder : entry) : option N :=
  if folder_ignored (name folder) then None
  else get_clean_season_num (name folder).

Definition cand_disc (s_num : N) (item : entry) : option N :=
  if is_dir item then
    (if truthy (get_clean_disc_num (name item) s_num)
     then get_clean_disc_num (name item) s_num else None)
  else None.

(** One step of a scan that files [x] under its key, if it has one. *)
Definition file_under {A V : Type} (cand : A -> option N) (val : A -> V)
    (m : gmap N V) (x : A) : gmap N V :=
  match cand x with Some k => <[k := val x]> m | None => m end.

(** The maps of the two scans. *)
Definition folder_map (show_path : entry) : gmap N season_slot :=
  foldl map_folder ∅ (folders_of show_path).

Definition disc_map (folder : entry) (s_num : N) : gmap N entry :=
  fst (season_scan folder [] s_num false).

(** The check of [wf] on a tree. *)
Fixpoint wf_tree (t : tree) : bool :=
  match t with
  | File => true
  | Dir kids =>
      bool_decide (NoDup (map fst kids)) && forallb (fun c => wf_tree (snd c)) kids
  end.

(** ** Shapes of names *)

(** Strings without a decimal digit. *)
Fixpoint no_digits (s : string) : bool :=
  match s with
  | EmptyString => true
  | String a s' => negb (Text.is_digit a) && no_digits s'
  end.

(** A [d] or [D] directly followed by a digit occurs in [s]. *)
Fixpoint d_digit (s : string) : bool :=
  match s with
  | EmptyString => false
  | String a s' =>
      (Re.chr_ok true "d" a && negb (Text.no_digit_head s')) || d_digit s'
  end.

(** The test of [detect_mode_and_run] for a single show: a child folder
    whose name has [season] or [staffel] in it, or a child file with a video
    extension. *)
Definition single_show (target_path : entry) : bool :=
  existsb (fun x : entry => Text.contains "season" (Text.lower (name x))
                            || Text.contains "staffel" (Text.lower (name x)))
          (filter (fun x => is_dir x) (iterdir target_path))
  || existsb (fun x : entry => Text.mem (Text.lower (suffix x)) VIDEO_EXTENSIONS)
             (filter (fun x => is_file x) (iterdir target_path)).

(** The shows of a library, in the order in which they are processed. *)
Definition shows_of (target_path : entry) : list entry :=
  sorted_paths path (filter (fun x => is_dir x) (iterdir target_path)).

Module Examples7.
Import Examples.

(** Two operations planned for [Examples2.root_and_season_2]: the move of
    the first root file, and the rename in the folder of season 2. *)
Definition move_a : operation :=
  mkOp (mkPath [""; "media"; "Show"] "a.mkv") "S01E01.mkv" 1 true.

Definition rename_x : operation :=
  mkOp (mkPath [""; "media"; "Show"; "Season 2"] "x.mkv") "S02E01.mkv" 2 false.

(** Two folders whose names give season 2. *)
Definition two_folders : entry :=
  show [("S2", Dir (files ["y.mkv"])); ("Season 2", Dir (files ["x.mkv"]))].

Definition folder_S2 : entry :=
  mkEntry (mkPath [""; "media"; "Show"] "S2") (Dir (files ["y.mkv"])).

End Examples7.

(** ** Reading the report *)

(** The line [log_tree] writes for [text] with the operation [new]. *)
Definition arrow_line (level : nat) (text new : string) : string :=
  indent_of level +:+ "├── " +:+ text +:+ "  ->  " +:+ new.

(** The report [logs] has the line of the operation [op], at some depth. *)
Definition shown (op : operation) (logs : list string) : Prop :=
  exists level, arrow_line level (name (original op)) (new_name op) ∈ logs.

(** The operations recorded since [ops0] have their lines in the log. *)
Definition logged (ops0 : list operation) (st : state) : Prop :=
  forall op, op ∈ operations (snd st) -> op ∈ ops0 \/ shown op (fst st).

(** ** Letter case *)

(** Captured groups, and a result, with every character mapped by [f]. *)
Definition map_caps (f : ascii -> ascii) (c : Re.caps) : Re.caps :=
  map (fun g => (fst g, Text.map_chars f (snd g))) c.

Definition map_result (f : ascii -> ascii) (r : Re.result) : Re.result :=
  match r with
  | Some (c, rest) => Some (map_caps f c, Text.map_chars f rest)
  | None => None
  end.

(** Patterns that cannot tell a character from its image under [f]. *)
Fixpoint case_blind (ic : bool) (f : ascii -> ascii) (r : Re.regex) : Prop :=
  match r with
  | Re.Chr a => forall b, Re.chr_ok ic a (f b) = Re.chr_ok ic a b
  | Re.Cls p => forall b, p (f b) = p b
  | Re.Seq r1 r2 => case_blind ic f r1 /\ case_blind ic f r2
  | Re.Alt r1 r2 => case_blind ic f r1 /\ case_blind ic f r2
  | Re.Opt r1 => case_blind ic f r1
  | Re.Plus p => forall b, p (f b) = p b
  | Re.Grp _ r1 => case_blind ic f r1
  end.

Module Examples8.
Import Examples.

(** Root files of which one carries the ignore tag, beside a folder of
    season 2; the ignored root file as an entry. *)
Definition ignored_beside_season : entry :=
  show [("a.mkv", File); ("b [IGNORE].mkv", File);
        ("Season 2", Dir (files ["x.mkv"]))].

Definition ignored_root_file : entry :=
  mkEntry (mkPath [""; "media"; "Show"] "b [IGNORE].mkv") File.

End Examples8.

(** ** The lines of the script *)

(** The move and the [mkdir] that [generate_script] writes, in the dialect
    of the platform. *)
Definition move_line (is_windows : bool) (src dst : Path) : string :=
  (if is_windows then "move " else "mv -n ")
  +:+ quoted (path_str (if is_windows then "\" else "/") src)
  +:+ " " +:+ quoted (path_str (if is_windows then "\" else "/") dst).

Definition mkdir_line (is_windows : bool) (d : Path) : string :=
  if is_windows then "mkdir " +:+ quoted (path_str "\" d) +:+ " 2>nul"
  else "mkdir -p " +:+ quoted (path_str "/" d).

(** [f] is listed in the show: directly in it, in one of its folders, or
    in a folder of one of its folders. *)
Definition lies_in (X : entry) (f : entry) : Prop :=
  f ∈ iterdir X \/
  exists F : entry, F ∈ iterdir X /\
    (f ∈ iterdir F \/ exists D : entry, D ∈ iterdir F /\ f ∈ iterdir D).

(** ** Reading the POSIX script

    [generate_script] writes text, and it is bash that gives the text its
    meaning.  The lines of [apply_renames.sh] are read here as bash reads
    them: a line that begins with [#] is a comment; [mkdir -p "d"] and
    [mv -n "a" "b"] are the two commands of [Shell], applied to the paths
    that the words between the double quotes name.  Between double quotes
    bash keeps every character as it is, except the dollar sign, the
    backquote, the backslash and the double quote itself; a word that holds
    one of these is not given a meaning here, and neither is any other
    line. *)

Module Bash.

(** The characters 34, 36, 92 and 96: double quote, dollar sign, backslash
    and backquote. *)
Definition special (a : ascii) : bool :=
  (Text.code a =? 34) || (Text.code a =? 36) || (Text.code a =? 92)
  || (Text.code a =? 96).

(** [s] without the prefix [pre]. *)
Fixpoint strip_prefix (pre s : string) : option string :=
  match pre with
  | EmptyString => Some s
  | String a pre' =>
      match s with
      | String b s' => if Ascii.eqb a b then strip_prefix pre' s' else None
      | EmptyString => None
      end
  end.

(** The word up to the closing double quote, and what follows the quote. *)
Fixpoint read_word (s : string) : option (string * string) :=
  match s with
  | EmptyString => None
  | String a s' =>
      if Text.code a =? 34 then Some (EmptyString, s')
      else if special a then None
      else match read_word s' with
           | Some (w, rest) => Some (String a w, rest)
           | None => None
           end
  end.

(** A double-quoted word at the head of [s]. *)
Definition quoted_word (s : string) : option (string * string) :=
  match s with
  | String a s' => if Text.code a =? 34 then read_word s' else None
  | EmptyString => None
  end.

(** The components of a path name, between its slashes (character 47). *)
Fixpoint components (s : string) : list string :=
  match s with
  | EmptyString => [EmptyString]
  | String a s' =>
      if Text.code a =? 47 then EmptyString :: components s'
      else match components s' with
           | c :: cs => String a c :: cs
           | [] => [String a EmptyString]
           end
  end.

(** A component that names an entry: not empty, not [.] and not [..]. *)
Definition component_ok (c : string) : bool :=
  negb (String.eqb c "") && negb (String.eqb c ".") && negb (String.eqb c "..").

(** The path that an absolute path name stands for. *)
Definition path_of (w : string) : option Path :=
  match components w with
  | EmptyString :: c :: cs =>
      if forallb component_ok (c :: cs)
      then Some (mkPath (List.removelast (EmptyString :: c :: cs))
                        (List.last (EmptyString :: c :: cs) EmptyString))
      else None
  | _ => None
  end.

(** One line of the script, run on the tree [fs]; [None] for a line that
    is given no meaning. *)
Definition run_line (line : string) (fs : entry) : option entry :=
  match strip_prefix "#" line with
  | Some _ => Some fs
  | None =>
      match strip_prefix "mkdir -p " line with
      | Some r =>
          match quoted_word r with
          | Some (w, EmptyString) =>
              match path_of w with
              | Some d => Some (Shell.mkdir_p d fs)
              | None => None
              end
          | _ => None
          end
      | None =>
          match strip_prefix "mv -n " line with
          | Some r =>
              match quoted_word r with
              | Some (a, r') =>
                  match strip_prefix " " r' with
                  | Some r'' =>
                      match quoted_word r'' with
                      | Some (b, EmptyString) =>
                          match path_of a, path_of b with
                          | Some src, Some dst => Some (Shell.mv_n src dst fs)
                          | _, _ => None
                          end
                      | _ => None
                      end
                  | None => None
                  end
              | None => None
              end
          | None => None
          end
      end
  end.

(** The lines of a script, run one after the other; bash goes on after a
    command that fails. *)
Fixpoint run_lines (lines : list string) (fs : entry) : option entry :=
  match lines with
  | [] => Some fs
  | line :: lines' =>
      match run_line line fs with
      | Some fs' => run_lines lines' fs'
      | None => None
      end
  end.

End Bash.

(** ** Shows with ASCII names *)

(** The names the planner reads in a show are those of the entries below
    it.  [str.upper], [str.lower] and the character classes of [re] are
    followed here on ASCII characters, so what is stated of the ignore
    tests and of the numbers read from names is stated of such shows. *)
Fixpoint ascii_tree (t : tree) : bool :=
  match t with
  | File => true
  | Dir kids => forallb (fun c => Text.is_ascii (fst c) && ascii_tree (snd c)) kids
  end.

Definition ascii_show (X : entry) : bool := ascii_tree (node X).

(** ** Names the script can carry *)

Fixpoint all_chars (p : ascii -> bool) (s : string) : bool :=
  match s with
  | EmptyString => true
  | String a s' => p a && all_chars p s'
  end.

(** An ASCII character other than the slash and the four characters that
    are special between double quotes. *)
Definition plain_char (a : ascii) : bool :=
  (Text.code a <? 128) && negb (Text.code a =? 47) && negb (Bash.special a).

(** A name of such characters that is not empty, [.] or [..]. *)
Definition plain_name (n : string) : bool :=
  Bash.component_ok n && all_chars plain_char n.

Fixpoint plain_tree (t : tree) : bool :=
  match t with
  | File => true
  | Dir kids => forallb (fun c => plain_name (fst c) && plain_tree (snd c)) kids
  end.

(** A show at an absolute path, all of whose names, on the path and in
    the tree, are plain. *)
Definition plain_show (X : entry) : bool :=
  match parts X with
  | EmptyString :: rest => forallb plain_name rest && plain_tree (node X)
  | _ => false
  end.

(** An absolute path of plain names. *)
Definition plain_path (p : Path) : bool :=
  match parts p with
  | EmptyString :: c :: cs => forallb plain_name (c :: cs)
  | _ => false
  end.

(** * Properties *)

(** ** Text *)

Module TextFacts.
Import Text.

Lemma append_cons (x : ascii) (a b : string) : String x a +:+ b = String x (a +:+ b).
Proof. reflexivity. Qed.

Lemma append_nil_l (b : string) : "" +:+ b = b.
Proof. reflexivity. Qed.

Lemma append_assoc (a b c : string) : (a +:+ b) +:+ c = a +:+ (b +:+ c).
Proof.
  induction a as [|x a IH]; [done|]. by rewrite !append_cons, IH.
Qed.

Lemma append_nil_r (a : string) : a +:+ "" = a.
Proof. induction a as [|x a IH]; [done|]. by rewrite append_cons, IH. Qed.

Lemma length_append (a b : string) :
  String.length (a +:+ b) = (String.length a + String.length b)%nat.
Proof. induction a as [|x a IH]; [done|]. rewrite append_cons. simpl. by rewrite IH. Qed.

Lemma substring_0_append (a b : string) :
  String.substring 0 (String.length a) (a +:+ b) = a.
Proof.
  induction a as [|x a IH]; [by destruct b|].
  rewrite append_cons. simpl. by rewrite IH.
Qed.

Lemma int_acc_append (a b : string) (acc : N) :
  int_acc acc (a +:+ b) = int_acc (int_acc acc a) b.
Proof.
  revert acc; induction a as [|x a IH]; intros acc; [done|].
  rewrite append_cons. simpl. apply IH.
Qed.

(** Reading back the decimal digits of a number. *)
Lemma of_uint_snoc (d d' : Decimal.uint) :
  DecimalPos.Unsigned.of_lu (Decimal.revapp d d') =
  N.of_uint d + DecimalPos.Unsigned.of_lu d' * 10 ^ DecimalPos.Unsigned.usize d.
Proof.
  rewrite DecimalPos.Unsigned.of_lu_revapp.
  unfold N.of_uint. by rewrite DecimalPos.Unsigned.of_uint_alt.
Qed.

Lemma int_acc_string_of_uint (d : Decimal.uint) (acc : N) :
  int_acc acc (NilEmpty.string_of_uint d) =
  acc * 10 ^ DecimalPos.Unsigned.usize d + N.of_uint d.
Proof.
  revert acc. induction d; intros acc; simpl NilEmpty.string_of_uint; simpl int_acc.
  { simpl. lia. }
  all: rewrite IHd.
  all: match goal with
       | |- _ = _ + N.of_uint ?x =>
           replace (N.of_uint x) with (DecimalPos.Unsigned.of_lu (Decimal.rev x))
             by (unfold N.of_uint; by rewrite DecimalPos.Unsigned.of_uint_alt)
       end.
  all: unfold Decimal.rev; simpl Decimal.revapp; rewrite of_uint_snoc.
  all: simpl DecimalPos.Unsigned.usize; rewrite N.pow_succ_r'.
  all: unfold digit_val, code; simpl N_of_ascii; simpl DecimalPos.Unsigned.of_lu; lia.
Qed.

Lemma int_str (n : N) : int (str n) = n.
Proof.
  unfold int, str. rewrite int_acc_string_of_uint.
  rewrite DecimalN.Unsigned.of_to. lia.
Qed.

Lemma int_str02 (n : N) : int (str02 n) = n.
Proof.
  unfold str02. destruct (_ <? _)%nat; [|apply int_str].
  unfold int. rewrite append_cons, append_nil_l. simpl int_acc. apply int_str.
Qed.

Lemma all_digits_string_of_uint (d : Decimal.uint) :
  all_digits (NilEmpty.string_of_uint d) = true.
Proof. induction d; simpl; try done. Qed.

Lemma string_of_uint_nonempty (d : Decimal.uint) :
  d <> Decimal.Nil -> NilEmpty.string_of_uint d <> "".
Proof. by destruct d. Qed.

Lemma to_uint_nonnil (n : N) : N.to_uint n <> Decimal.Nil.
Proof. destruct n; [done|]. apply DecimalPos.Unsigned.to_uint_nonnil. Qed.

Lemma all_digits_str (n : N) : all_digits (str n) = true.
Proof. apply all_digits_string_of_uint. Qed.

Lemma str_nonempty (n : N) : str n <> "".
Proof. apply string_of_uint_nonempty, to_uint_nonnil. Qed.

Lemma all_digits_str02 (n : N) : all_digits (str02 n) = true.
Proof.
  unfold str02. destruct (_ <? _)%nat; [|apply all_digits_str].
  rewrite append_cons, append_nil_l. simpl. apply all_digits_str.
Qed.

Lemma str02_nonempty (n : N) : str02 n <> "".
Proof.
  unfold str02. destruct (_ <? _)%nat; [done|apply str_nonempty].
Qed.

Lemma rfind_dot_get (s : string) (k i : nat) :
  rfind_dot s k = Some i -> (k <= i)%nat /\ String.get (i - k) s = Some "."%char.
Proof.
  revert k i. induction s as [|a s IH]; intros k i; simpl; [done|].
  destruct (rfind_dot s (S k)) as [j|] eqn:Hj.
  - intros [= <-]. apply IH in Hj as [Hle Hget]. split; [lia|].
    destruct (j - k)%nat as [|m] eqn:Hm; [lia|].
    by replace m with (j - S k)%nat by lia.
  - destruct (Ascii.eqb_spec a "."); [|done].
    intros [= <-]. subst a. split; [lia|]. by rewrite Nat.sub_diag.
Qed.

Lemma substring_head (s : string) (i n : nat) (a : ascii) :
  String.get i s = Some a -> exists t, String.substring i (S n) s = String a t.
Proof.
  revert i. induction s as [|b s IH]; intros i; [by destruct i|].
  destruct i as [|i]; simpl.
  - intros [= ->]. eauto.
  - apply IH.
Qed.

End TextFacts.

(** ** Matching *)

Module ReFacts.
Import Text Re TextFacts.

Lemma mt_Seq ic r1 r2 k s c : mt ic (Seq r1 r2) k s c = mt ic r1 (mt ic r2 k) s c.
Proof. reflexivity. Qed.

Lemma mt_Alt ic r1 r2 k s c :
  mt ic (Alt r1 r2) k s c =
  match mt ic r1 k s c with Some x => Some x | None => mt ic r2 k s c end.
Proof. reflexivity. Qed.

Lemma mt_Opt ic r1 k s c :
  mt ic (Opt r1) k s c =
  match mt ic r1 k s c with Some x => Some x | None => k s c end.
Proof. reflexivity. Qed.

Lemma mt_Cls ic p k b s c :
  mt ic (Cls p) k (String b s) c = if p b then k s c else None.
Proof. reflexivity. Qed.

Lemma mt_Chr ic a k b s c :
  mt ic (Chr a) k (String b s) c = if chr_ok ic a b then k s c else None.
Proof. reflexivity. Qed.

Lemma star_digits (k : cont) (ds rest : string) (c : caps) (r : caps * string) :
  all_digits ds = true -> no_digit_head rest = true ->
  k rest c = Some r ->
  star is_digit k (ds +:+ rest) c = Some r.
Proof.
  intros Hds Hrest Hk. induction ds as [|a ds IH].
  - rewrite append_nil_l. destruct rest as [|b rest]; [done|].
    simpl in *. by destruct (is_digit b).
  - rewrite append_cons. simpl in *.
    apply andb_prop in Hds as [-> Hds]. by rewrite IH.
Qed.

Lemma plus_digits (ic : bool) (k : cont) (ds rest : string) (c : caps) (r : caps * string) :
  ds <> "" -> all_digits ds = true -> no_digit_head rest = true ->
  k rest c = Some r ->
  mt ic (Plus is_digit) k (ds +:+ rest) c = Some r.
Proof.
  intros Hne Hds Hrest Hk. destruct ds as [|a ds]; [done|].
  rewrite append_cons. simpl in *.
  apply andb_prop in Hds as [-> Hds]. by apply star_digits.
Qed.

Lemma consumed_append (a b : string) : consumed (a +:+ b) b = a.
Proof.
  unfold consumed. rewrite length_append.
  replace (String.length a + String.length b - String.length b)%nat
    with (String.length a) by lia.
  apply substring_0_append.
Qed.

(** A captured run of digits followed by the end of the pattern. *)
Lemma group_digits (ic : bool) (i : nat) (ds rest : string) (c : caps) :
  ds <> "" -> all_digits ds = true -> no_digit_head rest = true ->
  mt ic (Grp i (Plus is_digit)) accept (ds +:+ rest) c = Some ((i, ds) :: c, rest).
Proof.
  intros Hne Hds Hrest. simpl mt.
  change (mt ic (Plus is_digit)
            (fun s' c' => accept s' ((i, consumed (ds +:+ rest) s') :: c'))
            (ds +:+ rest) c = Some ((i, ds) :: c, rest)).
  apply plus_digits; try done.
  unfold accept. by rewrite consumed_append.
Qed.

Lemma search_here (ic : bool) (r : regex) (s : string) (c : caps) (rest : string) :
  mt ic r accept s [] = Some (c, rest) -> search ic r s = Some c.
Proof. intros H. destruct s; simpl; by rewrite H. Qed.

End ReFacts.

(** ** Names *)

Section Names.
Import Text Re TextFacts ReFacts.

Lemma suffix_no_digit_head (p : Path) : no_digit_head (suffix p) = true.
Proof.
  unfold suffix. destruct (rfind_dot (name p) 0) as [i|] eqn:Hi; [|done].
  destruct (_ && _)%bool eqn:Hc; [|done].
  apply andb_prop in Hc as [_ Hlt]. apply Nat.ltb_lt in Hlt.
  apply rfind_dot_get in Hi as [_ Hget]. rewrite Nat.sub_0_r in Hget.
  destruct (String.length (name p) - i)%nat as [|n] eqn:Hn; [lia|].
  destruct (substring_head _ _ n _ Hget) as [t ->]. done.
Qed.

(** The canonical name carries its episode number as an explicit one. *)
Lemma episode_of_target_name (s e : N) (p : Path) :
  get_episode_from_file (target_name s e p) = Some e.
Proof.
  unfold get_episode_from_file, target_name.
  assert (mt false episode_re accept
            ("S" +:+ str02 s +:+ "E" +:+ str02 e +:+ suffix p) []
          = Some ([(1%nat, str02 e)], suffix p)) as H.
  { rewrite append_cons, append_nil_l. unfold episode_re.
    rewrite mt_Seq, mt_Cls. change (one_of "sS" "S") with true. cbv iota.
    rewrite mt_Seq.
    apply plus_digits;
      [apply str02_nonempty | apply all_digits_str02 | done |].
    rewrite append_cons, append_nil_l, mt_Seq, mt_Cls.
    change (one_of "eE" "E") with true. cbv iota.
    apply group_digits;
      [apply str02_nonempty | apply all_digits_str02 | apply suffix_no_digit_head]. }
  rewrite (search_here _ _ _ _ _ H). simpl. by rewrite int_str02.
Qed.

End Names.

(** ** The planner records the operations of the numbering *)

Section Planner.
Import Text TextFacts.

Lemma truthy_str_target (s e : N) (p : Path) :
  truthy_str (Some (target_name s e p)) = true.
Proof. unfold target_name. by rewrite append_cons. Qed.

Lemma plan_file_rename_spec (f : entry) (s c : N) (i : nat) (r : bool) (st : state) :
  let a := assign_episode (get_episode_from_file (name f)) c in
  let res := plan_file_rename f s c i r st in
  fst res = fst a /\
  operations (snd (snd res)) =
    operations (snd st) ++ option_list (op_of s r (f, snd a)) /\
  tree_output (snd (snd res)) = tree_output (snd st).
Proof.
  destruct st as [logs self]. unfold plan_file_rename, op_of. simpl.
  destruct (assign_episode _ c) as [c' e]. simpl.
  destruct (negb _ || r) eqn:Hop.
  - rewrite truthy_str_target. simpl. done.
  - simpl. by rewrite app_nil_r.
Qed.

Lemma plan_files_spec (files : list entry) (s : N) (i : nat) (r : bool) (c : N) (st : state) :
  let res := plan_files files s i r (c, st) in
  fst res = counter_after files c /\
  operations (snd (snd res)) =
    operations (snd st) ++ omap (op_of s r) (assignments files c) /\
  tree_output (snd (snd res)) = tree_output (snd st).
Proof.
  revert c st. induction files as [|f fs IH]; intros c st.
  { simpl. by rewrite app_nil_r. }
  unfold plan_files in *. simpl foldl. simpl assignments. simpl counter_after.
  destruct (should_ignore_file (name f)); [apply IH|].
  destruct (plan_file_rename_spec f s c i r st) as (Hc & Ho & Ht).
  destruct (plan_file_rename f s c i r st) as [c' st'].
  simpl in Hc, Ho, Ht. subst c'.
  destruct (IH (fst (assign_episode (get_episode_from_file (name f)) c)) st')
    as (Hc' & Ho' & Ht').
  destruct (assign_episode (get_episode_from_file (name f)) c) as [c1 e1].
  simpl in *. rewrite Hc', Ho', Ht', Ho, Ht.
  split_and!; try done.
  destruct (op_of s r (f, e1)); simpl; [|by rewrite app_nil_r].
  by rewrite <- app_assoc.
Qed.

Lemma assignments_app (l1 l2 : list entry) (c : N) :
  assignments (l1 ++ l2) c = assignments l1 c ++ assignments l2 (counter_after l1 c).
Proof.
  revert c. induction l1 as [|f l1 IH]; intros c; [done|]. simpl.
  destruct (should_ignore_file (name f)); [apply IH|].
  destruct (assign_episode _ c) as [c1 e1]. simpl. by rewrite IH.
Qed.

Lemma counter_after_app (l1 l2 : list entry) (c : N) :
  counter_after (l1 ++ l2) c = counter_after l2 (counter_after l1 c).
Proof.
  revert c. induction l1 as [|f l1 IH]; intros c; [done|]. simpl.
  destruct (should_ignore_file (name f)); apply IH.
Qed.

Lemma plan_disc_spec (s c : N) (st : state) (d : N * entry) :
  let res := plan_disc s (c, st) d in
  fst res = counter_after (disc_files (snd d)) c /\
  operations (snd (snd res)) =
    operations (snd st) ++ omap (op_of s false) (assignments (disc_files (snd d)) c) /\
  tree_output (snd (snd res)) = tree_output (snd st).
Proof.
  destruct d as [d folder], st as [logs self]. unfold plan_disc.
  set (logs' := log_tree logs 2 _ _).
  exact (plan_files_spec (disc_files folder) s 3 false c (logs', self)).
Qed.

Lemma plan_discs_spec (discs : list (N * entry)) (s c : N) (st : state) :
  let files := flat_map (fun d => disc_files (snd d)) discs in
  let res := foldl (plan_disc s) (c, st) discs in
  fst res = counter_after files c /\
  operations (snd (snd res)) =
    operations (snd st) ++ omap (op_of s false) (assignments files c) /\
  tree_output (snd (snd res)) = tree_output (snd st).
Proof.
  revert c st. induction discs as [|d ds IH]; intros c st.
  { simpl. by rewrite app_nil_r. }
  cbv zeta. simpl foldl. simpl flat_map.
  rewrite assignments_app, counter_after_app, omap_app.
  destruct (plan_disc_spec s c st d) as (Hc & Ho & Ht).
  destruct (plan_disc s (c, st) d) as [c' st'].
  simpl in Hc, Ho, Ht. subst c'.
  destruct (IH (counter_after (disc_files (snd d)) c) st') as (Hc' & Ho' & Ht').
  simpl in *. rewrite Hc', Ho', Ht', Ho, Ht. by rewrite app_assoc.
Qed.

Lemma season_scan_root (cp : entry) (rf : list entry) (s : N) :
  fst (season_scan cp rf s true) = ∅.
Proof. done. Qed.

Lemma sorted_items_empty {V : Type} : sorted_items (∅ : gmap N V) = [].
Proof. unfold sorted_items. by rewrite map_to_list_empty. Qed.

(** What [process_season_content] adds to the operation list. *)
Lemma process_season_content_ops (cp : entry) (rf : list entry) (s : N) (t : string)
    (r : bool) (st : state) :
  operations (snd (process_season_content cp rf s t r st)) =
    operations (snd st) ++ omap (op_of s r) (assignments (season_files cp rf s r) 0)
  /\ tree_output (snd (process_season_content cp rf s t r st)) = tree_output (snd st).
Proof.
  unfold process_season_content, season_files.
  pose proof (season_scan_root cp rf s) as Hroot.
  destruct (season_scan cp rf s r) as [dm df] eqn:Hscan.
  destruct (plan_files_spec df s 2 r 0 st) as (Hc & Ho & Ht).
  destruct (plan_files df s 2 r (0, st)) as [c' st'].
  simpl in Hc, Ho, Ht. subst c'.
  destruct (plan_discs_spec (sorted_items dm) s (counter_after df 0) st')
    as (_ & Ho' & Ht').
  simpl in Ho', Ht'. rewrite Ho', Ht', Ho, Ht.
  rewrite assignments_app, omap_app, app_assoc. split; [|done].
  destruct r; [|done].
  rewrite Hscan in Hroot. simpl in Hroot. subst dm.
  by rewrite sorted_items_empty.
Qed.

End Planner.

(** ** Order of occurrence in a list *)

Lemma before_cons_inv {A : Type} (x y z : A) (l : list A) :
  recorded_before x y (z :: l) ->
  (x = z /\ y ∈ l) \/ recorded_before x y l.
Proof.
  intros (l1 & l2 & l3 & H). destruct l1 as [|a l1]; simplify_eq/=.
  - left. split; [done|]. set_solver.
  - right. by exists l1, l2, l3.
Qed.

Lemma before_app_inv {A : Type} (x y : A) (l l' : list A) :
  recorded_before x y (l ++ l') ->
  recorded_before x y l \/ recorded_before x y l' \/ (x ∈ l /\ y ∈ l').
Proof.
  induction l as [|z l IH]; simpl; [by auto|].
  intros H. apply before_cons_inv in H as [[-> Hy]|H].
  - apply elem_of_app in Hy as [Hy|Hy].
    + left. apply list_elem_of_split in Hy as (m1 & m2 & ->).
      by exists [], m1, m2.
    + right; right. split; [left|done].
  - destruct (IH H) as [(l1 & l2 & l3 & ->)|[?|[? ?]]].
    + left. by exists (z :: l1), l2, l3.
    + by right; left.
    + right; right. split; [by right|done].
Qed.

Section Before.
Context {A B : Type}.

Lemma before_omap_inv (f : A -> option B) (x y : B) (l : list A) :
  recorded_before x y (omap f l) ->
  exists a b, recorded_before a b l /\ f a = Some x /\ f b = Some y.
Proof.
  induction l as [|z l IH]; simpl.
  { intros (l1 & l2 & l3 & H). by destruct l1. }
  destruct (f z) as [w|] eqn:Hz.
  - intros H. apply before_cons_inv in H as [[-> Hy]|H].
    + apply list_elem_of_omap in Hy as (b & Hb & Hfb).
      apply list_elem_of_split in Hb as (m1 & m2 & ->).
      exists z, b. split; [by exists [], m1, m2|done].
    + destruct (IH H) as (a & b & (l1 & l2 & l3 & ->) & Ha & Hb).
      exists a, b. split; [by exists (z :: l1), l2, l3|done].
  - intros H. destruct (IH H) as (a & b & (l1 & l2 & l3 & ->) & Ha & Hb).
    exists a, b. split; [by exists (z :: l1), l2, l3|done].
Qed.

Lemma before_flat_map_inv (g : A -> list B) (x y : B) (l : list A) :
  recorded_before x y (flat_map g l) ->
  (exists a, a ∈ l /\ recorded_before x y (g a)) \/
  (exists a b, recorded_before a b l /\ x ∈ g a /\ y ∈ g b).
Proof.
  induction l as [|z l IH]; simpl.
  { intros (l1 & l2 & l3 & H). by destruct l1. }
  intros H. apply before_app_inv in H as [H|[H|[Hx Hy]]].
  - left. exists z. split; [left|done].
  - destruct (IH H) as [(a & Ha & Hb)|(a & b & (l1 & l2 & l3 & ->) & Ha & Hb)].
    + left. exists a. split; [by right|done].
    + right. exists a, b. split; [by exists (z :: l1), l2, l3|done].
  - right. apply list_elem_of_In, in_flat_map in Hy as (b & Hb & Hy).
    apply list_elem_of_In, list_elem_of_split in Hb as (m1 & m2 & ->).
    exists z, b. split; [by exists [], m1, m2|].
    split; [done|by apply list_elem_of_In].
Qed.

Lemma before_lookup (x y : A) (l : list A) (i j : nat) :
  (i < j)%nat -> l !! i = Some x -> l !! j = Some y -> recorded_before x y l.
Proof.
  intros Hij Hi Hj.
  apply list_elem_of_split_length in Hi as (l1 & l2 & -> & ->).
  rewrite lookup_app_r in Hj by lia.
  destruct (j - length l1)%nat as [|k] eqn:Hk; [lia|]. simpl in Hj.
  apply list_elem_of_split_length in Hj as (m1 & m2 & -> & _).
  by exists l1, m1, m2.
Qed.

End Before.

(** ** The episode counter *)

Section Numbering.

Lemma assign_episode_auto (x : option N) (c : N) :
  truthy x = false -> assign_episode x c = (c + 1, c + 1).
Proof. unfold assign_episode. by intros ->. Qed.

Lemma assign_episode_explicit (E c : N) :
  E <> 0 -> assign_episode (Some E) c = (N.max c E, E).
Proof.
  intros HE. unfold assign_episode. simpl.
  destruct (N.eqb_spec E 0); [done|]. done.
Qed.

(** The counter is the largest number given so far. *)
Lemma assign_episode_max (x : option N) (c : N) :
  fst (assign_episode x c) = N.max c (snd (assign_episode x c)).
Proof. unfold assign_episode. destruct (truthy x); simpl; lia. Qed.

Lemma counter_after_max (files : list entry) (c : N) :
  counter_after files c = N.max c (max_list (map snd (assignments files c))).
Proof.
  revert c. induction files as [|f fs IH]; intros c; simpl; [lia|].
  destruct (should_ignore_file (name f)); [apply IH|].
  pose proof (assign_episode_max (get_episode_from_file (name f)) c) as Hm.
  destruct (assign_episode _ c) as [c1 e1]. simpl in *.
  rewrite IH, Hm. lia.
Qed.

Lemma counter_after_mono (files : list entry) (c : N) : c <= counter_after files c.
Proof. rewrite counter_after_max. lia. Qed.

Lemma assignments_auto_above (files : list entry) (c : N) (a : entry * N) :
  a ∈ assignments files c -> auto_numbered (fst a) = true -> c < snd a.
Proof.
  revert c. induction files as [|f fs IH]; intros c; simpl; [by intros ?%elem_of_nil|].
  destruct (should_ignore_file (name f)); [apply IH|].
  pose proof (assign_episode_max (get_episode_from_file (name f)) c) as Hm.
  destruct (assign_episode _ c) as [c1 e1] eqn:Ha. simpl in Hm.
  intros [Heq|Hin]%elem_of_cons Hauto.
  - subst a. simpl in *. unfold auto_numbered in Hauto. apply negb_true_iff in Hauto.
    rewrite (assign_episode_auto _ c Hauto) in Ha. simplify_eq. lia.
  - specialize (IH c1 Hin Hauto). lia.
Qed.

Lemma assignments_le_counter (files : list entry) (c : N) (a : entry * N) :
  a ∈ assignments files c -> snd a <= counter_after files c.
Proof.
  revert c. induction files as [|f fs IH]; intros c; simpl; [by intros ?%elem_of_nil|].
  destruct (should_ignore_file (name f)); [apply IH|].
  pose proof (assign_episode_max (get_episode_from_file (name f)) c) as Hm.
  destruct (assign_episode _ c) as [c1 e1] eqn:Ha. simpl in *.
  intros [Heq|Hin]%elem_of_cons.
  - subst a. simpl. pose proof (counter_after_mono fs c1). lia.
  - by apply IH.
Qed.

(** A number given automatically exceeds every number given before it. *)
Lemma auto_above_earlier (files : list entry) (c : N) (a b : entry * N) :
  recorded_before a b (assignments files c) ->
  auto_numbered (fst b) = true -> snd a < snd b.
Proof.
  intros (l1 & l2 & l3 & H). revert c l1 H.
  induction files as [|f fs IH]; intros c l1; simpl; [by destruct l1|].
  destruct (should_ignore_file (name f)); [apply IH|].
  pose proof (assign_episode_max (get_episode_from_file (name f)) c) as Hm.
  destruct (assign_episode _ c) as [c1 e1] eqn:Ha. simpl in Hm.
  destruct l1 as [|z l1]; simpl; intros [= <- H] Hauto.
  - assert (b ∈ assignments fs c1) as Hb by (rewrite H; set_solver).
    pose proof (assignments_auto_above _ _ _ Hb Hauto). simpl. lia.
  - by eapply IH.
Qed.

(** The number an automatically numbered file receives is one more than
    the largest number given before it. *)
Lemma auto_number_value (pre post : list entry) (f : entry) (c : N) :
  should_ignore_file (name f) = false -> auto_numbered f = true ->
  assignments (pre ++ f :: post) c =
    assignments pre c ++
    (f, N.max c (max_list (map snd (assignments pre c))) + 1) ::
    assignments post (N.max c (max_list (map snd (assignments pre c))) + 1).
Proof.
  intros Hig Hauto. rewrite assignments_app. simpl. rewrite Hig.
  unfold auto_numbered in Hauto. apply negb_true_iff in Hauto.
  rewrite (assign_episode_auto _ _ Hauto). by rewrite counter_after_max.
Qed.

End Numbering.

(** ** Sorting *)

Section SortedFacts.
Context {A K : Type} (key : A -> K) (leb : K -> K -> bool).

Lemma insert_sorted_perm (x : A) (l : list A) : insert_sorted key leb x l ≡ₚ x :: l.
Proof.
  induction l as [|y l IH]; simpl; [done|].
  destruct (leb (key x) (key y)); [done|].
  rewrite IH. apply Permutation_swap.
Qed.

Lemma sorted_perm (l : list A) : sorted key leb l ≡ₚ l.
Proof.
  induction l as [|x l IH]; simpl; [done|].
  rewrite insert_sorted_perm. by f_equiv.
Qed.

Lemma elem_of_sorted (x : A) (l : list A) : x ∈ sorted key leb l <-> x ∈ l.
Proof. by rewrite sorted_perm. Qed.

Hypothesis leb_total : forall a b, leb a b = true \/ leb b a = true.
Hypothesis leb_trans : forall a b c, leb a b = true -> leb b c = true -> leb a c = true.

Lemma insert_sorted_sorted (x : A) (l : list A) :
  StronglySorted (key_le key leb) l -> StronglySorted (key_le key leb) (insert_sorted key leb x l).
Proof.
  induction 1 as [|y l Hl IH Hy]; simpl; [repeat constructor|].
  destruct (leb (key x) (key y)) eqn:Hxy.
  - constructor; [by constructor|].
    constructor; [done|].
    eapply Forall_impl; [exact Hy|]. intros z Hz. by eapply leb_trans.
  - constructor; [done|].
    rewrite insert_sorted_perm. constructor; [|done].
    destruct (leb_total (key x) (key y)) as [H|H]; [congruence|done].
Qed.

Lemma sorted_sorted (l : list A) : StronglySorted (key_le key leb) (sorted key leb l).
Proof.
  induction l as [|x l IH]; simpl; [constructor|]. by apply insert_sorted_sorted.
Qed.

End SortedFacts.

(** Sorting two lists whose elements agree on their keys pairwise. *)
Lemma sorted_Forall2 {A B K : Type} (R : A -> B -> Prop) (ka : A -> K) (kb : B -> K)
    (leb : K -> K -> bool) (l1 : list A) (l2 : list B) :
  (forall x y, R x y -> ka x = kb y) ->
  Forall2 R l1 l2 -> Forall2 R (sorted ka leb l1) (sorted kb leb l2).
Proof.
  intros Hk. induction 1 as [|x y l1 l2 Hxy Hl IH]; simpl; [constructor|].
  clear Hl. induction IH as [|x' y' m1 m2 Hxy' Hm IHm]; simpl.
  { by repeat constructor. }
  rewrite (Hk _ _ Hxy), (Hk _ _ Hxy').
  destruct (leb (kb y) (kb y')); by repeat constructor.
Qed.

Lemma sorted_items_keys {V : Type} (m : gmap N V) :
  StronglySorted N.lt (map fst (sorted_items m)).
Proof.
  unfold sorted_items.
  assert (NoDup (map fst (sorted fst N.leb (map_to_list m)))) as Hnd.
  { rewrite sorted_perm. apply NoDup_fst_map_to_list. }
  assert (StronglySorted (key_le fst N.leb) (sorted fst N.leb (map_to_list m))) as Hs.
  { apply sorted_sorted.
    - intros a b. rewrite !N.leb_le. lia.
    - intros a b c. rewrite !N.leb_le. lia. }
  induction Hs as [|x l Hl IH Hx]; simpl; [constructor|].
  apply NoDup_cons in Hnd as [Hnin Hnd].
  constructor; [by apply IH|].
  apply Forall_forall. intros k Hk.
  apply list_elem_of_fmap in Hk as (y & -> & Hy).
  rewrite Forall_forall in Hx. specialize (Hx y Hy).
  unfold key_le in Hx. apply N.leb_le in Hx.
  assert (fst x <> fst y); [|lia].
  intros Heq. apply Hnin. rewrite Heq. apply list_elem_of_fmap. eauto.
Qed.

Lemma sorted_items_lookup {V : Type} (m : gmap N V) (k : N) (v : V) :
  (k, v) ∈ sorted_items m <-> m !! k = Some v.
Proof. unfold sorted_items. rewrite elem_of_sorted. apply elem_of_map_to_list. Qed.

(** * The claims *)

(** ** C3: explicit episode numbers and the counter *)

(** For a file whose name gives an explicit number [E] other than 0 the
    counter becomes [max counter E] and the file gets [E]; a file without an
    explicit number gets the incremented counter. *)
Lemma assign_episode_spec (filename : string) (counter : N) :
  match get_episode_from_file filename with
  | Some E =>
      E <> 0 -> assign_episode (Some E) counter = (N.max counter E, E)
  | None => assign_episode None counter = (counter + 1, counter + 1)
  end.
Proof.
  destruct (get_episode_from_file filename) as [E|]; [|done].
  apply assign_episode_explicit.
Qed.

(** C3: the claim includes the explicit episode number 0.  On the file
    [S01E00.mkv] the name does give the explicit number 0, yet the planner
    treats it as a file without a number: from counter 0 the counter becomes
    1, not [max 0 0], and the file is planned as [S01E01.mkv]. *)
Theorem C3_explicit_zero_is_renumbered :
  get_episode_from_file (name Examples.episode_zero) = Some 0 /\
  fst (plan_file_rename Examples.episode_zero 1 0 2 false ([], init)) = 1 /\
  operations (snd (snd (plan_file_rename Examples.episode_zero 1 0 2 false ([], init))))
    = [mkOp Examples.episode_zero "S01E01.mkv" 1 false].
Proof. by vm_compute. Qed.

(** ** C2: the move command of the two dialects *)

Lemma emit_op_move (is_windows : bool) (op : operation) :
  let sep := if is_windows then "\" else "/" in
  last (emit_op is_windows op) =
    Some ((if is_windows then "move " else "mv -n ")
          +:+ quoted (path_str sep (original op)) +:+ " "
          +:+ quoted (path_str sep (dest_file op))).
Proof. unfold emit_op. by destruct is_windows, (is_root_move op). Qed.

(** C2: for one planned rename the POSIX script moves with [mv -n], which
    leaves an existing destination alone; the batch script moves with a
    bare [move], without the [/-Y] switch that makes [move] ask before it
    replaces an existing file. *)
Theorem C2_windows_move_unguarded :
  generate_script false Examples.one_rename =
    Some ("apply_renames.sh",
          ["#!/bin/bash"; "# Generated by Jellyfin Organizer";
           "mv -n " +:+ quoted "/media/Show/Season 1/ep1.mkv" +:+ " "
                    +:+ quoted "/media/Show/Season 1/S01E01.mkv"]) /\
  generate_script true Examples.one_rename =
    Some ("apply_renames.bat",
          ["REM Generated by Jellyfin Organizer";
           "move " +:+ quoted "\media\Show\Season 1\ep1.mkv" +:+ " "
                   +:+ quoted "\media\Show\Season 1\S01E01.mkv"]).
Proof. by vm_compute. Qed.

(** ** C4: numbering within a season *)

Lemma counter_after_take_mono (files : list entry) (c : N) (n m : nat) :
  (n <= m)%nat -> counter_after (take n files) c <= counter_after (take m files) c.
Proof.
  intros Hnm. replace m with (n + (m - n))%nat by lia.
  rewrite take_add_app_drop || rewrite <- take_take_drop.
  rewrite counter_after_app. apply counter_after_mono.
Qed.

(** C4 as stated fails: the numbers given in a season can go down. *)
Lemma C4_numbers_can_decrease :
  ~ non_decreasing
      (map snd (assignments (season_files Examples.season_5_then_2 [] 1 false) 0)).
Proof.
  intros H.
  assert (5 <= 2) as Hle
    by (apply (H 0%nat 1%nat); [lia | by vm_compute | by vm_compute]).
  lia.
Qed.

(** C4, amended: a season's operations are those of one numbering [a] of
    its files; along it the counter never decreases, and every number given
    automatically is greater than every number, explicit or automatic, given
    before it in the season. *)
Theorem C4_counter_monotone (current_path : entry) (root_files_list : list entry)
    (s_num : N) (target_season_name : string) (is_root : bool) (st : state) :
  let files := season_files current_path root_files_list s_num is_root in
  let a := assignments files 0 in
  operations (snd (process_season_content current_path root_files_list s_num
                     target_season_name is_root st))
    = operations (snd st) ++ omap (op_of s_num is_root) a /\
  (forall n m, (n <= m)%nat ->
     counter_after (take n files) 0 <= counter_after (take m files) 0) /\
  (forall x y, recorded_before x y a -> auto_numbered (fst y) = true -> snd x < snd y).
Proof.
  intros files a. split_and!.
  - apply process_season_content_ops.
  - intros n m. apply counter_after_take_mono.
  - intros x y. apply auto_above_earlier.
Qed.

(** ** C6: one counter for the direct files and the discs of a season *)

Lemma is_dir_not_video (x : entry) : is_dir x = true -> is_video x = false.
Proof. unfold is_dir, is_video, is_file. by destruct (node x). Qed.

Lemma filter_video_one (x : entry) :
  filter (fun x : entry => is_video x) [x] = if is_video x then [x] else [].
Proof.
  rewrite filter_cons, filter_nil. destruct (is_video x); simpl; done.
Qed.

Lemma scan_item_direct (s : N) (x : entry) (dm : gmap N entry) (df : list entry) :
  snd (scan_item s (dm, df) x) = df ++ filter (fun x : entry => is_video x) [x].
Proof.
  unfold scan_item. rewrite filter_video_one.
  destruct (is_dir x) eqn:Hd.
  - rewrite (is_dir_not_video x Hd). rewrite app_nil_r. by destruct (truthy _).
  - destruct (is_video x) eqn:Hv; [done|]. by rewrite app_nil_r.
Qed.

Lemma scan_items_direct (s : N) (items : list entry) (dm : gmap N entry) (df : list entry) :
  snd (foldl (scan_item s) (dm, df) items) = df ++ filter (fun x => is_video x) items.
Proof.
  revert dm df. induction items as [|x items IH]; intros dm df; cbn [foldl].
  { by rewrite filter_nil, app_nil_r. }
  pose proof (scan_item_direct s x dm df) as Hx.
  destruct (scan_item s (dm, df) x) as [dm' df']. simpl in Hx. subst df'.
  rewrite IH, <- app_assoc. f_equal.
  by rewrite (filter_app _ [x] items).
Qed.


(** Scenario B with the disc folders directly under the show: both are
    taken for the folder of season 2, the later one wins, and only its file
    is planned. *)
Lemma scenario_B_flat_ops :
  map (fun op => (parent (original op), name (original op), new_name op))
      (operations (process_show Examples.scenario_B_flat init))
  = [([""; "media"; "Show"; "S2D2"], "c.mkv", "S02E01.mkv")].
Proof. by vm_compute. Qed.


(** ** C10: a sub-folder with disc number 0 *)

Lemma scan_item_disc_zero (s : N) (item : entry) (acc : gmap N entry * list entry) :
  is_dir item = true -> get_clean_disc_num (name item) s = Some 0 ->
  scan_item s acc item = acc.
Proof. intros Hd H0. unfold scan_item. rewrite Hd, H0. by destruct acc. Qed.

Lemma scan_item_disc_none (s : N) (item : entry) (acc : gmap N entry * list entry) :
  is_dir item = true -> get_clean_disc_num (name item) s = None ->
  scan_item s acc item = acc.
Proof. intros Hd H0. unfold scan_item. rewrite Hd, H0. by destruct acc. Qed.

Lemma scan_item_same (s : N) (x y : entry) (acc : gmap N entry * list entry) :
  same_but_disc_zero s x y -> scan_item s acc x = scan_item s acc y.
Proof.
  intros [Hp [Hn|(Hx & Hy & H0)]].
  - destruct x as [px nx], y as [py ny]. simpl in *. by subst.
  - rewrite scan_item_disc_zero by done.
    rewrite scan_item_disc_zero; [done..|]. by rewrite <- Hp.
Qed.

Lemma scan_items_same (s : N) (l1 l2 : list entry) (acc : gmap N entry * list entry) :
  Forall2 (same_but_disc_zero s) l1 l2 ->
  foldl (scan_item s) acc l1 = foldl (scan_item s) acc l2.
Proof.
  intros H. revert acc. induction H as [|x y l1 l2 Hxy _ IH]; intros acc; [done|].
  cbn [foldl]. by rewrite (scan_item_same s x y acc Hxy).
Qed.

(** C10: a sub-folder of a season folder whose name gives disc number 0 is
    skipped by the scan exactly like one whose name gives no disc number:
    the disc map and the direct files stay as they are, and what the folder
    contains has no effect on what is logged or planned. *)
Theorem C10_disc_zero_skipped (s_num : N) (p : Path) (n : string)
    (before after sub sub' : list (string * tree)) (t : string) (st : state) :
  get_clean_disc_num n s_num = Some 0 ->
  (forall acc, scan_item s_num acc (mkEntry (joinpath p n) (Dir sub)) = acc) /\
  (forall n0 acc, get_clean_disc_num n0 s_num = None ->
     scan_item s_num acc (mkEntry (joinpath p n0) (Dir sub)) = acc) /\
  process_season_content (mkEntry p (Dir (before ++ (n, Dir sub) :: after))) [] s_num t false st
  = process_season_content (mkEntry p (Dir (before ++ (n, Dir sub') :: after))) [] s_num t false st.
Proof.
  intros H0. split_and!.
  - intros acc. by apply scan_item_disc_zero.
  - intros n0 acc Hn. by apply scan_item_disc_none.
  - unfold process_season_content, season_scan.
    rewrite (scan_items_same s_num
               (sorted_paths path (iterdir (mkEntry p (Dir (before ++ (n, Dir sub) :: after)))))
               (sorted_paths path (iterdir (mkEntry p (Dir (before ++ (n, Dir sub') :: after)))))); [done|].
    apply sorted_Forall2; [by intros x y [-> _]|].
    unfold iterdir. simpl. rewrite !map_app. simpl.
    apply Forall2_app; [|constructor].
    + apply Forall_Forall2_diag, Forall_forall. intros x _. split; auto.
    + split; [done|]. right. by repeat split.
    + apply Forall_Forall2_diag, Forall_forall. intros x _. split; auto.
Qed.

Lemma C10_disc_zero_skipped_witness :
  get_clean_disc_num "S2D0" 2 = Some 0 /\
  process_season_content (Examples.disc_zero (Examples.files ["b.mkv"])) [] 2 "Season 2" false ([], init)
  = process_season_content (Examples.disc_zero []) [] 2 "Season 2" false ([], init).
Proof.
  split; [by vm_compute|].
  apply (C10_disc_zero_skipped 2 (mkPath [""; "media"; "Show"] "Season 2") "S2D0"
           [("a.mkv", File)] [] (Examples.files ["b.mkv"]) [] "Season 2" ([], init)).
  by vm_compute.
Defined.

(** ** The operations of a show *)

Lemma process_season_ops (show_path : entry) (rf : list entry) (st : state)
    (s : N * season_slot) :
  rf = root_files_of show_path ->
  operations (snd (process_season show_path rf st s)) =
    operations (snd st) ++ season_ops show_path s /\
  tree_output (snd (process_season show_path rf st s)) = tree_output (snd st).
Proof.
  intros ->. destruct s as [n [folder|]]; unfold process_season, season_ops; simpl.
  - apply (process_season_content_ops folder [] n _ false (_, snd st)).
  - apply process_season_content_ops.
Qed.

Lemma process_seasons_ops (show_path : entry) (rf : list entry) (st : state)
    (l : list (N * season_slot)) :
  rf = root_files_of show_path ->
  operations (snd (foldl (process_season show_path rf) st l)) =
    operations (snd st) ++ flat_map (season_ops show_path) l /\
  tree_output (snd (foldl (process_season show_path rf) st l)) = tree_output (snd st).
Proof.
  intros Hrf. revert st. induction l as [|s l IH]; intros st; cbn [foldl flat_map].
  { by rewrite app_nil_r. }
  destruct (IH (process_season show_path rf st s)) as [Ho Ht].
  destruct (process_season_ops show_path rf st s Hrf) as [Ho' Ht'].
  rewrite Ho, Ht, Ho', Ht'. by rewrite app_assoc.
Qed.

(** What [process_show] adds to the operation list. *)
Lemma process_show_ops (show_path : entry) (self : ShowProcessor) :
  operations (process_show show_path self) = operations self ++ show_ops show_path.
Proof.
  unfold process_show, show_ops, seasons_of.
  fold (folders_of show_path). fold (root_files_of show_path).
  destruct (process_seasons_ops show_path (root_files_of show_path)
              ([show_header show_path], self)
              (sorted_items (build_seasons_map (folders_of show_path)
                                               (root_files_of show_path))) eq_refl)
    as [Ho _].
  destruct (foldl _ _ _) as [logs self']. simpl in Ho.
  by destruct (_ <? _)%nat.
Qed.

(** ** C5: root files as season 1 *)

Lemma map_folders_no_root (folders : list entry) (m : gmap N season_slot) (k : N) :
  m !! k <> Some CREATE_ROOT_S1 ->
  foldl map_folder m folders !! k <> Some CREATE_ROOT_S1.
Proof.
  revert m. induction folders as [|x folders IH]; intros m Hm; cbn [foldl]; [done|].
  apply IH. unfold map_folder. destruct (folder_ignored _); [done|].
  destruct (get_clean_season_num _) as [s|]; [|done].
  destruct (decide (s = k)) as [->|Hne].
  - by rewrite lookup_insert_eq.
  - by rewrite lookup_insert_ne.
Qed.

Lemma assignments_covers (files : list entry) (c : N) (f : entry) :
  f ∈ files -> should_ignore_file (name f) = false ->
  exists e, (f, e) ∈ assignments files c.
Proof.
  revert c. induction files as [|x files IH]; intros c; [by intros ?%elem_of_nil|].
  intros [->|Hin]%elem_of_cons Hig; simpl.
  - rewrite Hig. destruct (assign_episode _ c) as [c1 e1]. exists e1. left.
  - destruct (IH (if should_ignore_file (name x) then c
                  else fst (assign_episode (get_episode_from_file (name x)) c)) Hin Hig)
      as [e He].
    exists e. destruct (should_ignore_file (name x)); [done|].
    destruct (assign_episode _ c) as [c1 e1]. by right.
Qed.

Lemma existsb_ignore_false (l : list entry) :
  (forall f : entry, f ∈ l -> should_ignore_file (name f) = false) ->
  existsb (fun f : entry => should_ignore_file (name f)) l = false.
Proof.
  induction l as [|x l IH]; intros H; simpl; [done|].
  rewrite (H x) by left. apply IH. intros f Hf. apply H. by right.
Qed.

Lemma existsb_ignore_true (l : list entry) (f : entry) :
  f ∈ l -> should_ignore_file (name f) = true ->
  existsb (fun f : entry => should_ignore_file (name f)) l = true.
Proof.
  intros Hin Hig. apply existsb_exists. exists f. split; [|done].
  by apply list_elem_of_In.
Qed.

(** C5 as stated fails: one root file is not ignored, the other carries the
    ignore tag, no folder is mapped to season 1; no season 1 is registered
    and nothing is planned. *)
Lemma C5_ignored_root_file_blocks_season_1 :
  map (fun f : entry => (name f, should_ignore_file (name f)))
      (root_files_of Examples2.root_with_ignored)
    = [("a.mkv", false); ("b [IGNORE].mkv", true)] /\
  foldl map_folder ∅ (folders_of Examples2.root_with_ignored) !! 1 = None /\
  seasons_of Examples2.root_with_ignored !! 1 = None /\
  operations (process_show Examples2.root_with_ignored init) = [].
Proof. by vm_compute. Qed.


(** ** C1: destinations of the operations of a run *)

Section Destinations.
Import Text TextFacts.

Lemma digits_prefix_unique (a b ra rb : string) :
  all_digits a = true -> all_digits b = true ->
  no_digit_head ra = true -> no_digit_head rb = true ->
  a +:+ ra = b +:+ rb -> a = b.
Proof.
  revert b. induction a as [|x a IH]; intros [|y b] Ha Hb Hra Hrb; try done.
  - rewrite append_nil_l, append_cons. intros ->. simpl in *.
    apply andb_prop in Hb as [Hy _]. by rewrite Hy in Hra.
  - rewrite append_nil_l, append_cons. intros <-. simpl in *.
    apply andb_prop in Ha as [Hx _]. by rewrite Hx in Hrb.
  - rewrite !append_cons. intros [= -> H]. simpl in *.
    apply andb_prop in Ha as [_ Ha]. apply andb_prop in Hb as [_ Hb].
    f_equal. by apply IH.
Qed.

(** The canonical name determines the season number and the episode number. *)
Lemma target_name_season (s1 e1 s2 e2 : N) (p1 p2 : Path) :
  target_name s1 e1 p1 = target_name s2 e2 p2 -> s1 = s2.
Proof.
  unfold target_name. rewrite !append_cons, !append_nil_l. intros [= H].
  apply digits_prefix_unique in H; try apply all_digits_str02; try done.
  by rewrite <- (int_str02 s1), H, int_str02.
Qed.

Lemma target_name_episode (s1 e1 s2 e2 : N) (p1 p2 : Path) :
  target_name s1 e1 p1 = target_name s2 e2 p2 -> e1 = e2.
Proof.
  intros H. pose proof (episode_of_target_name s1 e1 p1) as H1.
  rewrite H, episode_of_target_name in H1. by simplify_eq.
Qed.

Lemma dest_file_name (op : operation) : name (dest_file op) = new_name op.
Proof. unfold dest_file. by destruct (is_root_move op). Qed.

Lemma op_of_Some (s : N) (r : bool) (a : entry * N) (op : operation) :
  op_of s r a = Some op ->
  original op = path (fst a) /\ new_name op = target_name s (snd a) (fst a) /\
  season_num op = s /\ is_root_move op = r.
Proof. unfold op_of. destruct (_ || _); [|done]. by intros [= <-]. Qed.

Lemma sorted_before {A : Type} (R : A -> A -> Prop) (x y : A) (l : list A) :
  StronglySorted R l -> recorded_before x y l -> R x y.
Proof.
  intros Hs (l1 & l2 & l3 & ->).
  apply StronglySorted_app_1_r in Hs. apply StronglySorted_inv in Hs as [_ Hx].
  rewrite Forall_forall in Hx. apply Hx. set_solver.
Qed.

Lemma before_map {A B : Type} (f : A -> B) (x y : A) (l : list A) :
  recorded_before x y l -> recorded_before (f x) (f y) (map f l).
Proof.
  intros (l1 & l2 & l3 & ->). exists (map f l1), (map f l2), (map f l3).
  by rewrite map_app, (map_cons f x), map_app, (map_cons f y).
Qed.

Lemma season_ops_sound (show_path : entry) (s : N * season_slot) (op : operation) :
  op ∈ season_ops show_path s ->
  season_num op = fst s /\
  exists e, new_name op = target_name (season_num op) e (original op).
Proof.
  unfold season_ops. intros (a & _ & Ha)%list_elem_of_omap.
  apply op_of_Some in Ha as (Ho & Hn & Hs & _).
  split; [done|]. exists (snd a). by rewrite Hn, Hs, Ho.
Qed.

(** Within the operations of a show, an operation that repeats the target
    name of an earlier one belongs to a file with an explicit number. *)
Lemma show_ops_same_name (show_path : entry) (oi oj : operation) :
  recorded_before oi oj (show_ops show_path) ->
  new_name oi = new_name oj ->
  truthy (get_episode_from_file (name (original oj))) = true.
Proof.
  unfold show_ops. intros Hb Hn.
  apply before_flat_map_inv in Hb as [(s & _ & Hb)|(s1 & s2 & Hs & Hi & Hj)].
  - unfold season_ops in Hb.
    apply before_omap_inv in Hb as (a & b & Hab & Ha & Hb).
    apply op_of_Some in Ha as (_ & Hna & _).
    apply op_of_Some in Hb as (Hob & Hnb & _).
    rewrite Hna, Hnb in Hn. apply target_name_episode in Hn.
    rewrite Hob. destruct (truthy _) eqn:Ht; [done|].
    assert (auto_numbered (fst b) = true) as Hauto by (unfold auto_numbered; by rewrite Ht).
    pose proof (auto_above_earlier _ _ _ _ Hab Hauto). lia.
  - pose proof (sorted_before _ _ _ _ (sorted_items_keys (seasons_of show_path))
                  (before_map fst _ _ _ Hs)) as Hlt.
    apply season_ops_sound in Hi as (Hsi & ei & Hi).
    apply season_ops_sound in Hj as (Hsj & ej & Hj).
    rewrite Hi, Hj in Hn. apply target_name_season in Hn. lia.
Qed.

End Destinations.

(** C1 as stated fails: two files of one folder that carry the same explicit
    number are planned onto the same destination. *)
Lemma C1_duplicate_destination :
  map dest_file (operations (process_show Examples3.same_explicit init))
  = [mkPath [""; "media"; "Show"; "Season 1"] "S01E05.mkv";
     mkPath [""; "media"; "Show"; "Season 1"] "S01E05.mkv"].
Proof. by vm_compute. Qed.

(** C1, amended: in the operations planned for a show every target name is
    the canonical name of (season number, a number, the file's extension),
    and when an operation has the destination of an operation recorded
    before it, its file carries an explicit episode number: a number given
    automatically never repeats a target. *)
Theorem C1_duplicates_only_explicit (show_path : entry) (oi oj : operation) :
  (forall op, op ∈ operations (process_show show_path init) ->
     exists e, new_name op = target_name (season_num op) e (original op)) /\
  (recorded_before oi oj (operations (process_show show_path init)) ->
   dest_file oi = dest_file oj ->
   truthy (get_episode_from_file (name (original oj))) = true).
Proof.
  rewrite process_show_ops. simpl. split.
  - intros op Hop. unfold show_ops in Hop.
    apply list_elem_of_In, in_flat_map in Hop as (s & _ & Hop).
    apply list_elem_of_In, season_ops_sound in Hop as [_ He]. done.
  - intros Hb Hd. apply (show_ops_same_name show_path oi oj Hb).
    by rewrite <- !dest_file_name, Hd.
Qed.

Lemma C1_duplicates_only_explicit_witness :
  truthy (get_episode_from_file "b S01E05.mkv") = true.
Proof.
  apply (C1_duplicates_only_explicit Examples3.same_explicit
           (mkOp (mkPath [""; "media"; "Show"; "Season 1"] "a S01E05.mkv") "S01E05.mkv" 1 false)
           (mkOp (mkPath [""; "media"; "Show"; "Season 1"] "b S01E05.mkv") "S01E05.mkv" 1 false)).
  - exists [], [], []. by vm_compute.
  - by vm_compute.
Defined.

(** ** C7: folder renames and the script *)

Section Script.

Lemma log_tree_app (logs : list string) (level : nat) (text : string) (o : option string) :
  exists line, log_tree logs level text o = logs ++ [line].
Proof. unfold log_tree. eauto. Qed.

Lemma plan_file_rename_logs (f : Path) (s c : N) (i : nat) (r : bool) (st : state) :
  exists more, fst (snd (plan_file_rename f s c i r st)) = fst st ++ more.
Proof.
  destruct st as [logs self]. unfold plan_file_rename.
  destruct (assign_episode _ c) as [c' e]. destruct (truthy_str _); simpl.
  - destruct (log_tree_app logs i (name f)
                (if negb (name f =? target_name s e f)%string || r
                 then Some (target_name s e f) else None)) as [line ->]. eauto.
  - exists []. by rewrite app_nil_r.
Qed.

Lemma plan_files_logs (files : list entry) (s : N) (i : nat) (r : bool) (acc : N * state) :
  exists more, fst (snd (plan_files files s i r acc)) = fst (snd acc) ++ more.
Proof.
  revert acc. induction files as [|f fs IH]; intros acc.
  { exists []. by rewrite app_nil_r. }
  unfold plan_files in *. cbn [foldl].
  destruct (should_ignore_file (name f)); [apply IH|].
  destruct (IH (plan_file_rename f s (fst acc) i r (snd acc))) as [m1 ->].
  destruct (plan_file_rename_logs f s (fst acc) i r (snd acc)) as [m2 ->].
  exists (m2 ++ m1). by rewrite app_assoc.
Qed.

Lemma plan_discs_logs (discs : list (N * entry)) (s : N) (acc : N * state) :
  exists more, fst (snd (foldl (plan_disc s) acc discs)) = fst (snd acc) ++ more.
Proof.
  revert acc. induction discs as [|d ds IH]; intros acc.
  { exists []. by rewrite app_nil_r. }
  cbn [foldl]. destruct (IH (plan_disc s acc d)) as [m1 ->].
  destruct d as [n folder], acc as [c [logs self]]. unfold plan_disc.
  destruct (plan_files_logs (disc_files folder) s 3 false
              (c, (log_tree logs 2 (name folder)
                     (if negb (name folder =? "S" +:+ Text.str s +:+ "D" +:+ Text.str n)%string
                      then Some ("S" +:+ Text.str s +:+ "D" +:+ Text.str n) else None), self)))
    as [m2 ->].
  cbn [fst snd]. destruct (log_tree_app logs 2 (name folder)
                (if negb (name folder =? "S" +:+ Text.str s +:+ "D" +:+ Text.str n)%string
                 then Some ("S" +:+ Text.str s +:+ "D" +:+ Text.str n) else None)) as [line ->].
  exists ([line] ++ m2 ++ m1). by rewrite <- !app_assoc.
Qed.

Lemma process_season_content_logs (cp : entry) (rf : list entry) (s : N) (t : string)
    (r : bool) (st : state) :
  exists more, fst (process_season_content cp rf s t r st) = fst st ++ more.
Proof.
  unfold process_season_content. destruct (season_scan cp rf s r) as [dm df].
  destruct (plan_discs_logs (sorted_items dm) s (plan_files df s 2 r (0, st))) as [m1 H1].
  destruct (plan_files_logs df s 2 r (0, st)) as [m2 H2].
  destruct (foldl _ _ _) as [c' [logs' self']]. simpl in *.
  rewrite H1, H2. exists (m2 ++ m1). by rewrite app_assoc.
Qed.

(** Every file that is numbered is a video file. *)
Lemma disc_files_video (d f : entry) : f ∈ disc_files d -> is_video f = true.
Proof.
  unfold disc_files, sorted_paths. rewrite elem_of_sorted.
  intros [H _]%list_elem_of_filter. by apply Is_true_true.
Qed.

Lemma season_files_video (cp : entry) (rf : list entry) (s : N) (r : bool) (f : entry) :
  (forall x, x ∈ rf -> is_video x = true) ->
  f ∈ season_files cp rf s r -> is_video f = true.
Proof.
  intros Hrf. unfold season_files, season_scan. destruct r.
  - rewrite sorted_items_empty. cbn [flat_map]. rewrite app_nil_r.
    unfold sorted_paths. rewrite elem_of_sorted. apply Hrf.
  - pose proof (scan_items_direct s (sorted_paths path (iterdir cp)) ∅ []) as Hd.
    destruct (foldl _ _ _) as [dm df]. simpl in Hd. subst df.
    intros [Hf|Hf]%elem_of_app.
    + apply list_elem_of_filter in Hf as [H _]. by apply Is_true_true.
    + apply list_elem_of_In, in_flat_map in Hf as (d & _ & Hf).
      by apply list_elem_of_In, disc_files_video in Hf.
Qed.

Lemma show_ops_files (show_path : entry) (op : operation) :
  op ∈ show_ops show_path ->
  exists f : entry, is_video f = true /\ original op = path f.
Proof.
  unfold show_ops. intros (s & _ & Hop)%list_elem_of_In%in_flat_map.
  apply list_elem_of_In in Hop. unfold season_ops in Hop.
  apply list_elem_of_omap in Hop as ([f e] & Hin & Hop).
  apply op_of_Some in Hop as (Ho & _). exists f. split; [|done].
  apply list_elem_of_fmap_2 with (f := fst) in Hin.
  assert (f ∈ slot_files show_path s) as Hf.
  { clear -Hin. revert Hin. generalize 0. generalize (slot_files show_path s).
    induction l as [|x l IH]; intros c; simpl; [by intros ?%elem_of_nil|].
    destruct (should_ignore_file (name x)).
    - intros H. right. by eapply IH.
    - destruct (assign_episode _ c) as [c1 e1]. simpl.
      intros [->|H]%elem_of_cons; [left|right; by eapply IH]. }
  unfold slot_files in Hf. destruct (snd s).
  - eapply season_files_video; [|exact Hf]. by intros x ?%elem_of_nil.
  - eapply season_files_video; [|exact Hf].
    intros x [H _]%list_elem_of_filter. by apply Is_true_true.
Qed.

End Script.

(** C7 as stated fails: the season folder is named [Season 01]; its rename
    to [Season 1] is shown in the tree report, and no line of the script
    moves the folder. *)
Lemma C7_no_directory_rename_in_script :
  exists report lines,
    detect_mode_and_run false Examples4.season_01
      = ({| operations := [mkOp (mkPath [""; "media"; "Show"; "Season 01"] "a.mkv")
                                "S01E01.mkv" 1 false];
            tree_output := report |},
         Some ("apply_renames.sh", lines)) /\
    log_tree [] 1 "Season 01" (Some "Season 1") ⊆ report /\
    forall line, line ∈ lines -> ~ moves false Examples4.folder_season_01 line.
Proof.
  eexists _, _. split; [vm_compute; reflexivity|]. split.
  - intros x Hx. vm_compute in Hx. apply list_elem_of_singleton in Hx as ->.
    right; left.
  - intros line Hl [dst Hd].
    repeat (apply elem_of_cons in Hl as [->|Hl]; [by vm_compute in Hd|]).
    by apply elem_of_nil in Hl.
Qed.

Lemma emit_op_lines (is_windows : bool) (op : operation) (line : string) :
  line ∈ emit_op is_windows op ->
  makes_dir is_windows line \/ moves is_windows (original op) line.
Proof.
  unfold emit_op, makes_dir, moves.
  destruct (is_root_move op), is_windows; intros H;
    repeat (apply elem_of_cons in H as [->|H]); try (by apply elem_of_nil in H);
    eauto.
Qed.

Lemma generate_script_lines (is_windows : bool) (self : ShowProcessor)
    (fn : string) (lines : list string) :
  generate_script is_windows self = Some (fn, lines) ->
  lines = (if is_windows then [] else ["#!/bin/bash"]) ++
          [if is_windows then "REM Generated by Jellyfin Organizer"
           else "# Generated by Jellyfin Organizer"] ++
          flat_map (emit_op is_windows) (operations self).
Proof.
  unfold generate_script. destruct (operations self); [done|]. by intros [= _ <-].
Qed.


(** ** C9: where the season pattern matches *)

Section SeasonPattern.
Import Text Re TextFacts ReFacts.

Lemma mt_lit (tok : string) (k : cont) (s : string) (c : caps) :
  tok <> "" ->
  mt true (lit tok) k s c =
  match strip_ci tok s with Some t => k t c | None => None end.
Proof.
  revert s. induction tok as [|a tok IH]; intros s Hne; [done|].
  destruct tok as [|b tok].
  - change (lit (String a "")) with (Chr a). destruct s as [|x s]; [done|].
    rewrite mt_Chr. cbn [strip_ci]. by destruct (chr_ok true a x).
  - change (lit (String a (String b tok))) with (Seq (Chr a) (lit (String b tok))).
    rewrite mt_Seq. destruct s as [|x s]; [done|].
    rewrite mt_Chr. cbn [strip_ci]. destruct (chr_ok true a x); [|done].
    by apply IH.
Qed.

Lemma star_total (p : ascii -> bool) (k : cont) (s : string) (c : caps) :
  (forall s' c', k s' c' <> None) -> star p k s c <> None.
Proof.
  intros Hk. induction s as [|a s IH]; simpl; [apply Hk|].
  destruct (p a); [|apply Hk]. by destruct (star p k s c).
Qed.

Lemma group_digits_none (i : nat) (t : string) (c : caps) :
  mt true (Grp i (Plus is_digit)) accept t c = None <->
  match t with String a _ => is_digit a = false | EmptyString => True end.
Proof.
  destruct t as [|a t]; simpl; [done|].
  destruct (is_digit a); [|done]. split; [|done].
  intros H. by apply star_total in H.
Qed.

Lemma number_none (t : string) (c : caps) :
  mt true (Seq (Opt (Cls sep)) (Grp 1 (Plus is_digit))) accept t c = None <->
  num_ok t = false.
Proof.
  rewrite mt_Seq, mt_Opt. destruct t as [|a t].
  { simpl. done. }
  rewrite mt_Cls. unfold num_ok.
  pose proof (group_digits_none 1 (String a t) c) as Ha.
  pose proof (group_digits_none 1 t c) as Ht.
  destruct (mt true (Grp 1 (Plus is_digit)) accept (String a t) c) as [r1|];
    destruct (mt true (Grp 1 (Plus is_digit)) accept t c) as [r2|];
    destruct (sep a); destruct (is_digit a) eqn:Hda; simpl;
    try (destruct t as [|b t]; [|destruct (is_digit b) eqn:Hdb]); simpl in *;
    intuition congruence.
Qed.

(** The pattern matches at the start of [s] exactly when [s] starts with
    one of the three tokens followed by a number. *)
Lemma season_none (s : string) :
  mt true season_re accept s [] = None <->
  (tok_num "season" s || tok_num "staffel" s || tok_num "s" s) = false.
Proof.
  unfold season_re. rewrite mt_Seq, !mt_Alt, !mt_lit by done.
  unfold tok_num.
  pose proof (fun t => number_none t []) as Hn.
  destruct (strip_ci "season" s) as [t1|];
    [pose proof (Hn t1); destruct (mt _ _ _ t1 []), (num_ok t1)|];
  (destruct (strip_ci "staffel" s) as [t2|];
    [pose proof (Hn t2); destruct (mt _ _ _ t2 []), (num_ok t2)|]);
  (destruct (strip_ci "s" s) as [t3|];
    [pose proof (Hn t3); destruct (mt _ _ _ t3 []), (num_ok t3)|]);
  simpl; intuition congruence.
Qed.

End SeasonPattern.

Section SeasonAnywhere.
Import Text Re TextFacts ReFacts.

Lemma lower_char_digit_sep (r : ascii) :
  (is_digit r || sep r) = true -> is_lower (lower_char r) = false.
Proof.
  destruct r as [[] [] [] [] [] [] [] []]; intros H; vm_compute in H |- *; congruence.
Qed.

Lemma lower_char_idem (a : ascii) : lower_char (lower_char a) = lower_char a.
Proof. by destruct a as [[] [] [] [] [] [] [] []]. Qed.

Lemma chr_ok_letter (b r : ascii) :
  is_lower (lower_char b) = true -> (is_digit r || sep r) = true ->
  chr_ok true b r = false.
Proof.
  intros Hb Hr. unfold chr_ok. destruct (Ascii.eqb_spec (lower_char b) (lower_char r)) as [Heq|]; [|done].
  rewrite Heq in Hb. by rewrite (lower_char_digit_sep r Hr) in Hb.
Qed.

Context (c r : ascii) (R' : string).
Hypothesis Hc : c = "s"%char \/ c = "S"%char.
Hypothesis Hr : (is_digit r || sep r) = true.

Lemma chr_ok_s (b : ascii) : chr_ok true b c = chr_ok true b "s".
Proof. by destruct Hc as [-> | ->]. Qed.

Lemma num_ok_tail : num_ok (String c (String r R')) = false.
Proof. by destruct Hc as [-> | ->]. Qed.

Lemma safe_tok_fails (tok : string) :
  safe_tok tok = true -> tok_num tok (String c (String r R')) = false.
Proof.
  unfold tok_num. destruct tok as [|b [|b2 tok]]; cbn [strip_ci safe_tok].
  - intros _. apply num_ok_tail.
  - rewrite chr_ok_s. by intros ->%negb_true_iff.
  - rewrite chr_ok_s. intros [->%negb_true_iff | Hb2]%orb_prop; [done|].
    rewrite (chr_ok_letter b2 r Hb2 Hr). by destruct (chr_ok true b "s").
Qed.

Lemma num_ok_extend (x : string) :
  num_ok (x +:+ String c (String r R')) = true -> num_ok x = true.
Proof.
  destruct x as [|p [|q x]]; rewrite ?append_cons, ?append_nil_l.
  - by rewrite num_ok_tail.
  - cbn [num_ok]. assert (is_digit c = false) as -> by (by destruct Hc as [-> | ->]).
    by rewrite !andb_false_r.
  - done.
Qed.

(** A match of a token and a number in [x] followed by the occurrence lies
    within [x]. *)
Lemma tok_num_extend (tok x : string) :
  safe_all tok = true ->
  tok_num tok (x +:+ String c (String r R')) = true -> tok_num tok x = true.
Proof.
  revert x. induction tok as [|b tok IH]; intros x Hsafe.
  - unfold tok_num. cbn [strip_ci]. apply num_ok_extend.
  - cbn [safe_all] in Hsafe. apply andb_prop in Hsafe as [Hb Hsafe].
    destruct x as [|a x]; rewrite ?append_cons, ?append_nil_l.
    + by rewrite (safe_tok_fails _ Hb).
    + unfold tok_num in *. cbn [strip_ci]. destruct (chr_ok true b a); [|done].
      by apply IH.
Qed.

Lemma season_no_new_match (x : string) :
  x <> "" ->
  mt true season_re accept x [] = None ->
  mt true season_re accept (x +:+ String c (String r R')) [] = None.
Proof.
  intros Hne. rewrite !season_none. destruct x as [|a x]; [done|].
  intros H. apply orb_false_elim in H as [H H3]. apply orb_false_elim in H as [H1 H2].
  rewrite append_cons.
  assert (forall tok, safe_all tok = true ->
            tok_num (String "s" tok) (String a x) = false ->
            tok_num (String "s" tok) (String a (x +:+ String c (String r R'))) = false)
    as Hstep.
  { intros tok Hsafe. unfold tok_num. cbn [strip_ci].
    destruct (chr_ok true "s" a); [|done].
    intros Hx. pose proof (tok_num_extend tok x Hsafe) as Hext. unfold tok_num in Hext.
    destruct (match strip_ci tok (x +:+ String c (String r R')) with
              | Some t => num_ok t | None => false end); [|done].
    by rewrite Hext in Hx. }
  rewrite (Hstep "eason" eq_refl H1), (Hstep "taffel" eq_refl H2), (Hstep "" eq_refl H3).
  done.
Qed.

Lemma season_search_skip (pre : string) :
  search true season_re pre = None ->
  search true season_re (pre +:+ String c (String r R')) =
  search true season_re (String c (String r R')).
Proof.
  induction pre as [|a pre IH]; [done|].
  intros H. cbn [search] in H.
  destruct (mt true season_re accept (String a pre) []) as [[? ?]|] eqn:Hm; [done|].
  rewrite append_cons.
  change (search true season_re (String a (pre +:+ String c (String r R'))))
    with (match mt true season_re accept (String a (pre +:+ String c (String r R'))) [] with
          | Some (c0, _) => Some c0
          | None => search true season_re (pre +:+ String c (String r R'))
          end).
  rewrite <- append_cons, (season_no_new_match (String a pre)) by done.
  by apply IH.
Qed.

End SeasonAnywhere.

Section SeasonOccurrence.
Import Text Re TextFacts ReFacts.

Lemma digit_not_sep (d : ascii) : is_digit d = true -> sep d = false.
Proof.
  destruct d as [[] [] [] [] [] [] [] []]; intros H; vm_compute in H |- *; congruence.
Qed.

(** At an [s] followed by at most one separator and digits the pattern
    matches and captures the digits. *)
Lemma season_match_here (c : ascii) (sp ds post : string) :
  (c = "s" \/ c = "S")%char ->
  (sp = "" \/ exists a, sep a = true /\ sp = String a "") ->
  ds <> "" -> all_digits ds = true -> no_digit_head post = true ->
  mt true season_re accept (String c (sp +:+ ds +:+ post)) [] = Some ([(1%nat, ds)], post).
Proof.
  intros Hc Hsp Hne Hds Hpost.
  assert (chr_ok true "s" c = true) as Hs by (by destruct Hc as [-> | ->]).
  assert (exists r R', sp +:+ ds +:+ post = String r R' /\ (is_digit r || sep r) = true)
    as (r & R' & HR & Hr).
  { destruct Hsp as [-> | (a & Ha & ->)].
    - destruct ds as [|d ds]; [done|]. simpl in Hds. apply andb_prop in Hds as [Hd _].
      exists d, (ds +:+ post). rewrite append_nil_l, append_cons. by rewrite Hd.
    - exists a, (ds +:+ post). rewrite append_cons, append_nil_l.
      by rewrite Ha, orb_true_r. }
  unfold season_re. rewrite mt_Seq, !mt_Alt, !mt_lit by done.
  rewrite HR. cbn [strip_ci]. rewrite Hs.
  rewrite (chr_ok_letter "e" r eq_refl Hr), (chr_ok_letter "t" r eq_refl Hr).
  rewrite <- HR. rewrite mt_Seq, mt_Opt.
  destruct Hsp as [-> | (a & Ha & ->)].
  - rewrite append_nil_l. destruct ds as [|d ds']; [done|].
    rewrite append_cons, mt_Cls.
    pose proof Hds as Hds'. simpl in Hds'. apply andb_prop in Hds' as [Hdig _].
    rewrite (digit_not_sep d Hdig). rewrite <- append_cons.
    by apply group_digits.
  - rewrite append_cons, append_nil_l, mt_Cls, Ha.
    by rewrite (group_digits true 1 ds post [] Hne Hds Hpost).
Qed.

End SeasonOccurrence.

(** C9, amended: the season token is matched anywhere in the name, and the
    match found first decides.  For a name of ASCII characters that holds an
    [s] or [S], then at most one separator, then a run of digits, with the
    pattern matching nowhere before, the season number is the number that
    the run of digits spells; so the folder [Bonus 2] is mapped as
    season 2. *)
Theorem C9_season_token_anywhere (pre sp ds post : string) (c : ascii) :
  Text.is_ascii (pre +:+ String c (sp +:+ ds +:+ post)) = true ->
  (c = "s" \/ c = "S")%char ->
  (sp = "" \/ exists a, Re.sep a = true /\ sp = String a "") ->
  ds <> "" -> Text.all_digits ds = true -> Text.no_digit_head post = true ->
  get_clean_season_num pre = None ->
  get_clean_season_num (pre +:+ String c (sp +:+ ds +:+ post)) = Some (Text.int ds) /\
  get_clean_season_num "Bonus 2" = Some 2 /\
  seasons_of Examples5.show_with_bonus !! 2 = Some (Folder Examples5.bonus_folder).
Proof.
  intros _ Hc Hsp Hne Hds Hpost Hpre. split; [|by vm_compute].
  pose proof (season_match_here c sp ds post Hc Hsp Hne Hds Hpost) as Hm.
  assert (exists r R', sp +:+ ds +:+ post = String r R' /\ (Text.is_digit r || Re.sep r) = true)
    as (r & R' & HR & Hr).
  { destruct Hsp as [-> | (a & Ha & ->)].
    - destruct ds as [|d ds]; [done|]. simpl in Hds. apply andb_prop in Hds as [Hd _].
      exists d, (ds +:+ post). by rewrite Hd.
    - exists a, (ds +:+ post). by rewrite Ha, orb_true_r. }
  unfold get_clean_season_num in *.
  destruct (Re.search true season_re pre) eqn:Hs; [done|].
  rewrite HR in Hm |- *.
  rewrite (season_search_skip c r R' Hc Hr pre Hs).
  by rewrite (ReFacts.search_here _ _ _ _ _ Hm).
Qed.

Lemma C9_season_token_anywhere_witness :
  get_clean_season_num ("Bonu" +:+ String "s" (" " +:+ "2" +:+ "")) = Some (Text.int "2").
Proof.
  apply (C9_season_token_anywhere "Bonu" " " "2" "" "s").
  - by vm_compute.
  - by left.
  - right. exists " "%char. by vm_compute.
  - done.
  - by vm_compute.
  - by vm_compute.
  - by vm_compute.
Defined.

(** ** C8: planning again *)

Section Settled.

Lemma assign_episode_positive (x : option N) (c : N) : snd (assign_episode x c) <> 0.
Proof.
  unfold assign_episode. destruct x as [e|]; simpl; [|lia].
  destruct (N.eqb_spec e 0); simpl; lia.
Qed.

Lemma assignments_positive (files : list entry) (c : N) (a : entry * N) :
  a ∈ assignments files c -> snd a <> 0.
Proof.
  revert c. induction files as [|f fs IH]; intros c; simpl; [by intros ?%elem_of_nil|].
  destruct (should_ignore_file (name f)); [apply IH|].
  pose proof (assign_episode_positive (get_episode_from_file (name f)) c) as Hp.
  destruct (assign_episode _ c) as [c1 e1]. intros [->|H]%elem_of_cons; [done|].
  by eapply IH.
Qed.

Lemma assignments_elem (files : list entry) (c : N) (a : entry * N) :
  a ∈ assignments files c -> fst a ∈ files /\ should_ignore_file (name (fst a)) = false.
Proof.
  revert c. induction files as [|f fs IH]; intros c; simpl; [by intros ?%elem_of_nil|].
  destruct (should_ignore_file (name f)) eqn:Hig.
  - intros H. destruct (IH _ H). split; [by right|done].
  - destruct (assign_episode _ c) as [c1 e1]. intros [->|H]%elem_of_cons.
    + split; [left|done].
    + destruct (IH _ H). split; [by right|done].
Qed.

Lemma op_of_canonical (s e : N) (f : entry) :
  e <> 0 -> name f = target_name s e f ->
  forall c, assign_episode (get_episode_from_file (name f)) c = (N.max c e, e) /\
            op_of s false (f, e) = None.
Proof.
  intros He Hn c. split.
  - rewrite Hn at 1. rewrite episode_of_target_name. by apply assign_episode_explicit.
  - unfold op_of. cbn [fst snd]. rewrite <- Hn, String.eqb_refl. done.
Qed.

Lemma assignments_canonical (s : N) (files : list entry) (c : N) :
  (forall f, f ∈ files -> canonical_in s f) ->
  omap (op_of s false) (assignments files c) = [].
Proof.
  revert c. induction files as [|f fs IH]; intros c Hcan; [done|]. simpl.
  assert (forall g, g ∈ fs -> canonical_in s g) as Hfs by (intros g Hg; apply Hcan; by right).
  destruct (should_ignore_file (name f)) eqn:Hig; [by apply IH|].
  destruct (Hcan f) as [Hi|(e & He & Hn)]; [left|congruence|].
  destruct (op_of_canonical s e f He Hn c) as [-> Hop].
  simpl. rewrite Hop. by apply IH.
Qed.

Lemma seasons_of_root (show_path : entry) (s : N) :
  seasons_of show_path !! s = Some CREATE_ROOT_S1 ->
  s = 1 /\ root_files_of show_path <> [] /\
  forall f : entry, f ∈ root_files_of show_path -> should_ignore_file (name f) = false.
Proof.
  unfold seasons_of, build_seasons_map.
  pose proof (map_folders_no_root (folders_of show_path) ∅ s) as Hno.
  destruct (nonempty _ && _) eqn:Hc.
  - apply andb_prop in Hc as [Hne Hig]. apply negb_true_iff in Hig.
    destruct (foldl map_folder ∅ (folders_of show_path) !! 1) eqn:H1.
    { intros H. by apply Hno in H. }
    destruct (decide (s = 1)) as [->|Hs].
    + intros _. split; [done|]. split.
      * by destruct (root_files_of show_path).
      * intros f Hf. destruct (should_ignore_file (name f)) eqn:Hf'; [|done].
        by rewrite (existsb_ignore_true _ f Hf Hf') in Hig.
    + rewrite lookup_insert_ne by done. intros H. by apply Hno in H.
  - intros H. by apply Hno in H.
Qed.

Lemma flat_map_nil_iff {A B : Type} (g : A -> list B) (l : list A) :
  flat_map g l = [] <-> forall x, x ∈ l -> g x = [].
Proof.
  induction l as [|a l IH]; simpl.
  - split; [by intros _ x ?%elem_of_nil|done].
  - split.
    + intros [Ha Hl]%app_eq_nil x [->|Hx]%elem_of_cons; [done|]. by apply IH.
    + intros H. rewrite (H a) by left. apply IH. intros x Hx. apply H. by right.
Qed.

Lemma omap_nil_iff {A B : Type} (g : A -> option B) (l : list A) :
  omap g l = [] <-> forall x, x ∈ l -> g x = None.
Proof.
  induction l as [|a l IH]; simpl.
  - split; [by intros _ x ?%elem_of_nil|done].
  - destruct (g a) eqn:Ha; split.
    + done.
    + intros H. specialize (H a). rewrite Ha in H. by discriminate H; left.
    + intros Hl x [->|Hx]%elem_of_cons; [done|]. by apply IH.
    + intros H. apply IH. intros x Hx. apply H. by right.
Qed.

(** The planner records nothing exactly on the settled trees. *)
Lemma settled_iff_no_ops (show_path : entry) :
  settled show_path <-> operations (process_show show_path init) = [].
Proof.
  rewrite process_show_ops. change (operations init) with (@nil operation).
  rewrite app_nil_l. unfold show_ops. rewrite flat_map_nil_iff. split.
  - intros Hset [s slot] Hin. apply sorted_items_lookup in Hin.
    destruct (Hset s slot Hin) as (folder & -> & Hcan).
    unfold season_ops, slot_files. cbn [fst snd slot_is_root].
    by apply assignments_canonical.
  - intros Hno s slot Hs. apply sorted_items_lookup in Hs.
    specialize (Hno _ Hs). unfold season_ops, slot_files in Hno.
    cbn [fst snd] in Hno. rewrite omap_nil_iff in Hno.
    apply sorted_items_lookup in Hs. destruct slot as [folder|].
    + exists folder. split; [done|]. intros f Hf.
      destruct (should_ignore_file (name f)) eqn:Hig; [by left|right].
      destruct (assignments_covers _ 0 f Hf Hig) as [e He].
      exists e. split; [by apply (assignments_positive _ _ _ He)|].
      specialize (Hno _ He). unfold op_of in Hno. cbn [fst snd slot_is_root] in Hno.
      rewrite orb_false_r in Hno.
      destruct (String.eqb_spec (name f) (target_name s e f)); [done|discriminate].
    + exfalso. apply seasons_of_root in Hs as (-> & Hne & Hig).
      destruct (root_files_of show_path) as [|f rf] eqn:Hrf; [done|].
      assert (f ∈ season_files show_path (f :: rf) 1 true) as Hf.
      { unfold season_files, season_scan. rewrite sorted_items_empty. cbn [flat_map].
        rewrite app_nil_r. apply elem_of_sorted. left. }
      destruct (assignments_covers _ 0 f Hf) as [e He]; [apply Hig; left|].
      specialize (Hno _ He). unfold op_of in Hno. cbn [slot_is_root] in Hno.
      by rewrite orb_true_r in Hno.
Qed.

End Settled.


(** *** The shell commands on trees *)

Module ShellFacts.
Import Shell.

Lemma lookup_child_map_eq (n : string) (g : tree -> tree) (kids : list (string * tree)) :
  lookup_child n (map_child n g kids) = g <$> lookup_child n kids.
Proof.
  induction kids as [|[m t] kids IH]; simpl; [done|].
  destruct (String.eqb_spec n m) as [->|Hne]; simpl.
  - by rewrite String.eqb_refl.
  - destruct (String.eqb_spec n m); [done|]. apply IH.
Qed.

Lemma lookup_child_map_ne (m n : string) (g : tree -> tree) (kids : list (string * tree)) :
  m <> n -> lookup_child m (map_child n g kids) = lookup_child m kids.
Proof.
  intros Hne. induction kids as [|[k t] kids IH]; simpl; [done|].
  destruct (String.eqb_spec n k) as [->|Hnk]; simpl.
  - by destruct (String.eqb_spec m k).
  - destruct (String.eqb_spec m k); [done|]. apply IH.
Qed.

Lemma map_child_names (n : string) (g : tree -> tree) (kids : list (string * tree)) :
  map fst (map_child n g kids) = map fst kids.
Proof.
  induction kids as [|[k t] kids IH]; simpl; [done|].
  destruct (String.eqb n k); simpl; [done|]. by rewrite IH.
Qed.

Lemma lookup_child_None (n : string) (kids : list (string * tree)) :
  lookup_child n kids = None <-> n ∉ map fst kids.
Proof.
  induction kids as [|[k t] kids IH]; simpl.
  - split; [by intros _ ?%elem_of_nil|done].
  - rewrite not_elem_of_cons. destruct (String.eqb_spec n k) as [->|Hne].
    + split; [done|by intros [? _]].
    + rewrite IH. tauto.
Qed.

Lemma lookup_child_elem (n : string) (t : tree) (kids : list (string * tree)) :
  lookup_child n kids = Some t -> (n, t) ∈ kids.
Proof.
  induction kids as [|[k u] kids IH]; simpl; [done|].
  destruct (String.eqb_spec n k) as [->|Hne].
  - intros [= ->]. left.
  - intros H. right. by apply IH.
Qed.

Lemma elem_lookup_child (n : string) (t : tree) (kids : list (string * tree)) :
  NoDup (map fst kids) -> (n, t) ∈ kids -> lookup_child n kids = Some t.
Proof.
  induction kids as [|[k u] kids IH]; simpl; [by intros _ ?%elem_of_nil|].
  intros [Hk Hnd]%NoDup_cons [[= -> ->]|Hin]%elem_of_cons.
  - by rewrite String.eqb_refl.
  - destruct (String.eqb_spec n k) as [->|Hne]; [|by apply IH].
    exfalso. apply Hk. apply list_elem_of_fmap. by exists (k, t).
Qed.

Lemma lookup_child_remove_ne (m n : string) (kids : list (string * tree)) :
  m <> n -> lookup_child m (remove_child n kids) = lookup_child m kids.
Proof.
  intros Hne. induction kids as [|[k t] kids IH]; simpl; [done|].
  destruct (String.eqb_spec n k) as [->|Hnk]; simpl.
  - by destruct (String.eqb_spec m k).
  - destruct (String.eqb_spec m k); [done|]. apply IH.
Qed.

Lemma remove_child_names (n : string) (kids : list (string * tree)) :
  map fst (remove_child n kids) `sublist_of` map fst kids.
Proof.
  induction kids as [|[k t] kids IH]; simpl; [done|].
  destruct (String.eqb n k); simpl.
  - by apply sublist_cons.
  - by apply sublist_skip.
Qed.

Lemma lookup_child_remove_eq (n : string) (kids : list (string * tree)) :
  NoDup (map fst kids) -> lookup_child n (remove_child n kids) = None.
Proof.
  induction kids as [|[k t] kids IH]; simpl; [done|].
  intros [Hk Hnd]%NoDup_cons. destruct (String.eqb_spec n k) as [->|Hne]; simpl.
  - by apply lookup_child_None.
  - destruct (String.eqb_spec n k); [done|]. by apply IH.
Qed.

(** Below the rewritten directory. *)
Lemma lookup_update_under (rel q : list string) (g : list (string * tree) -> list (string * tree))
    (t : tree) :
  lookup (rel ++ q) (update rel g t) =
  match lookup rel t with
  | Some (Dir kids) => lookup q (Dir (g kids))
  | Some File => lookup q File
  | None => None
  end.
Proof.
  revert t. induction rel as [|n rel IH]; intros t; simpl.
  { by destruct t. }
  destruct t as [|kids]; simpl.
  { by destruct q. }
  rewrite lookup_child_map_eq. destruct (lookup_child n kids) as [c|]; simpl; [|done].
  apply IH.
Qed.

(** Elsewhere. *)
Lemma lookup_update_off (rel p : list string) (g : list (string * tree) -> list (string * tree))
    (t : tree) :
  (forall q, p <> rel ++ q) ->
  same_shape (lookup p (update rel g t)) (lookup p t).
Proof.
  revert p t. induction rel as [|n rel IH]; intros p t Hp.
  { by destruct (Hp p). }
  destruct p as [|m p]; simpl.
  { destruct t as [|kids]; simpl; [done|]. by rewrite map_child_names. }
  destruct t as [|kids]; simpl; [done|].
  destruct (decide (m = n)) as [->|Hne].
  - rewrite lookup_child_map_eq. destruct (lookup_child n kids) as [c|]; simpl; [|done].
    apply IH. intros q ->. by apply (Hp q).
  - rewrite lookup_child_map_ne by done.
    destruct (lookup_child m kids) as [c|]; [|done].
    destruct (lookup p c) as [[|k]|]; done.
Qed.

Lemma strip_app (pre q : list string) : strip pre (pre ++ q) = Some q.
Proof. induction pre as [|a pre IH]; simpl; [done|]. by rewrite String.eqb_refl. Qed.

Lemma strip_Some (pre p q : list string) : strip pre p = Some q -> p = pre ++ q.
Proof.
  revert p. induction pre as [|a pre IH]; intros p; simpl; [by intros [= ->]|].
  destruct p as [|b p]; [done|]. destruct (String.eqb_spec a b) as [->|]; [|done].
  intros H. by rewrite (IH _ H).
Qed.

End ShellFacts.

Module ShellSteps.
Import Shell ShellFacts.

Lemma same_shape_kind (o1 o2 : option tree) : same_shape o1 o2 -> kind o1 = kind o2.
Proof. by destruct o1 as [[|?]|], o2 as [[|?]|]. Qed.

Lemma same_shape_refl (o : option tree) : same_shape o o.
Proof. by destruct o as [[|?]|]. Qed.

Lemma kind_Some_true (o : option tree) : kind o = Some true <-> o = Some File.
Proof. destruct o as [[|?]|]; simpl; split; congruence. Qed.

Lemma kind_None (o : option tree) : kind o = None <-> o = None.
Proof. destruct o as [[|?]|]; simpl; split; congruence. Qed.

Lemma kind_Some_false (o : option tree) :
  kind o = Some false <-> exists kids, o = Some (Dir kids).
Proof.
  destruct o as [[|k]|]; simpl; split; try congruence; try (by intros [? ?]).
  intros _. eauto.
Qed.

Lemma node_at_update_under (rel q : list string)
    (g : list (string * tree) -> list (string * tree)) (fs : entry) :
  node_at ((parts fs ++ rel) ++ q) (update_at (parts fs ++ rel) g fs) =
  match node_at (parts fs ++ rel) fs with
  | Some (Dir kids) => lookup q (Dir (g kids))
  | Some File => lookup q File
  | None => None
  end.
Proof.
  unfold node_at, update_at. rewrite <- app_assoc, !strip_app.
  apply lookup_update_under.
Qed.

Lemma node_at_update_off (D p : list string)
    (g : list (string * tree) -> list (string * tree)) (fs : entry) :
  (forall q, p <> D ++ q) ->
  same_shape (node_at p (update_at D g fs)) (node_at p fs).
Proof.
  intros Hp. unfold node_at, update_at.
  destruct (strip (parts fs) D) as [rel|] eqn:HD; [|apply same_shape_refl].
  change (parts {| path := path fs; node := update rel g (node fs) |}) with (parts fs).
  simpl. destruct (strip (parts fs) p) as [q|] eqn:Hq; [|done].
  apply strip_Some in HD, Hq. subst. apply lookup_update_off.
  intros q' ->. apply (Hp q'). by rewrite app_assoc.
Qed.

Lemma wf_update (D : list string) (g : list (string * tree) -> list (string * tree))
    (fs : entry) :
  wf fs ->
  (forall kids, node_at D fs = Some (Dir kids) -> NoDup (map fst (g kids))) ->
  (forall kids m more ks, node_at D fs = Some (Dir kids) ->
     lookup (m :: more) (Dir (g kids)) = Some (Dir ks) ->
     lookup (m :: more) (Dir kids) = Some (Dir ks) \/ NoDup (map fst ks)) ->
  wf (update_at D g fs).
Proof.
  intros Hwf Hg Hsub p ks Hp.
  destruct (decide (D `prefix_of` p)) as [[q ->]|Hoff].
  - destruct (strip (parts fs) D) as [rel|] eqn:HD.
    + apply strip_Some in HD. subst D. rewrite node_at_update_under in Hp.
      destruct (node_at (parts fs ++ rel) fs) as [[|kids]|] eqn:Hn; [by destruct q|..|done].
      destruct q as [|m more].
      * simpl in Hp. injection Hp as <-. by apply Hg.
      * destruct (Hsub kids m more ks eq_refl Hp) as [Hp'|Hks]; [|done].
        clear Hp. rename Hp' into Hp.
        apply (Hwf ((parts fs ++ rel) ++ m :: more)).
        unfold node_at in *. rewrite <- app_assoc, strip_app in *.
        revert Hn Hp. clear. revert rel. generalize (node fs).
        intros t rel. revert t. induction rel as [|n rel IH]; intros t; simpl.
        { by intros [= ->]. }
        destruct t as [|kids0]; [done|]. destruct (lookup_child n kids0); [|done].
        apply IH.
    + unfold update_at in Hp. rewrite HD in Hp. by apply (Hwf _ _ Hp).
  - pose proof (node_at_update_off D p g fs) as Hs.
    rewrite Hp in Hs. unfold same_shape in Hs.
    destruct (node_at p fs) as [[|k]|] eqn:Hk; try done.
    + exfalso. apply Hs. intros q ->. apply Hoff. by exists q.
    + assert (map fst ks = map fst k) as ->.
      { apply Hs. intros q ->. apply Hoff. by exists q. }
      by apply (Hwf p).
    + exfalso. apply Hs. intros q ->. apply Hoff. by exists q.
Qed.

End ShellSteps.

Module ShellOps.
Import Shell ShellFacts ShellSteps.

Lemma lookup_app (rel q : list string) (t : tree) :
  lookup (rel ++ q) t = match lookup rel t with Some c => lookup q c | None => None end.
Proof.
  revert t. induction rel as [|n rel IH]; intros t; simpl; [done|].
  destruct t as [|kids]; [done|]. destruct (lookup_child n kids); [apply IH|done].
Qed.

Lemma node_at_app (rel q : list string) (fs : entry) :
  node_at ((parts fs ++ rel) ++ q) fs =
  match node_at (parts fs ++ rel) fs with Some c => lookup q c | None => None end.
Proof.
  unfold node_at. rewrite <- app_assoc, !strip_app. apply lookup_app.
Qed.

Lemma lookup_below_file (q : list string) : q <> [] -> lookup q File = None.
Proof. by destruct q. Qed.

Lemma app_singleton_inv (D : list string) (m n : string) (more : list string) :
  D ++ m :: more = D ++ [n] <-> m = n /\ more = [].
Proof.
  split; [|by intros [-> ->]]. intros H. apply app_inv_head in H. by simplify_eq.
Qed.

Lemma self_app_ne (D : list string) (n : string) : D ++ [] <> D ++ [n].
Proof. by intros ?%app_inv_head. Qed.

Lemma not_under_self (D q : list string) (n : string) :
  (forall q', q <> D ++ q') -> q <> D ++ [n].
Proof. intros H. apply H. Qed.

(** Taking a file out of its directory. *)
Lemma remove_spec (rel : list string) (n : string) (fs : entry) :
  let D := parts fs ++ rel in
  wf fs -> file_at (D ++ [n]) fs ->
  wf (update_at D (remove_child n) fs) /\
  forall q, kind_at q (update_at D (remove_child n) fs) =
            if decide (q = D ++ [n]) then None else kind_at q fs.
Proof.
  intros D Hwf Hfile. unfold file_at, kind_at in Hfile.
  apply kind_Some_true in Hfile. unfold D in Hfile. rewrite node_at_app in Hfile.
  destruct (node_at (parts fs ++ rel) fs) as [[|kids]|] eqn:HD; [done| |done].
  simpl in Hfile. destruct (lookup_child n kids) as [c|] eqn:Hn; [|done].
  injection Hfile as ->.
  pose proof (Hwf _ _ HD) as Hnd. split.
  - apply wf_update; [done|..].
    + intros kids' Hk. fold D in HD. rewrite HD in Hk. injection Hk as <-.
      eapply sublist_NoDup; [done|apply remove_child_names].
    + intros kids' m more ks Hk. fold D in HD. rewrite HD in Hk. injection Hk as <-.
      simpl. destruct (decide (m = n)) as [->|Hne].
      * by rewrite lookup_child_remove_eq.
      * rewrite lookup_child_remove_ne by done. by left.
  - intros q. unfold kind_at.
    destruct (decide (D `prefix_of` q)) as [[q' ->]|Hoff].
    + unfold D. rewrite node_at_update_under, node_at_app, HD.
      destruct q' as [|m more].
      { rewrite decide_False; [done|]. apply self_app_ne. }
      simpl. destruct (decide (m = n)) as [->|Hne].
      * rewrite lookup_child_remove_eq, Hn by done.
        destruct more; [by rewrite decide_True|].
        rewrite decide_False; [done|]. by intros [_ ?]%app_singleton_inv.
      * rewrite lookup_child_remove_ne by done.
        rewrite decide_False; [done|]. by intros [? _]%app_singleton_inv.
    + rewrite decide_False.
      * apply same_shape_kind, node_at_update_off. intros q' ->. apply Hoff. by exists q'.
      * intros ->. apply Hoff. by exists [n].
Qed.

(** Putting a file or an empty directory into a directory. *)
Lemma add_spec (rel : list string) (n : string) (t0 : tree) (fs : entry) :
  let D := parts fs ++ rel in
  t0 = File \/ t0 = Dir [] ->
  wf fs -> dir_at D fs -> kind_at (D ++ [n]) fs = None ->
  wf (update_at D (fun kids => (n, t0) :: kids) fs) /\
  forall q, kind_at q (update_at D (fun kids => (n, t0) :: kids) fs) =
            if decide (q = D ++ [n]) then kind (Some t0) else kind_at q fs.
Proof.
  intros D Ht0 Hwf Hdir Habs. unfold dir_at, kind_at in Hdir.
  apply kind_Some_false in Hdir as [kids HD].
  unfold kind_at in Habs. apply kind_None in Habs. unfold D in Habs.
  rewrite node_at_app in Habs. fold D in Habs. rewrite HD in Habs. simpl in Habs.
  destruct (lookup_child n kids) as [c|] eqn:Hn; [by destruct c|]. clear Habs.
  pose proof (Hwf _ _ HD) as Hnd.
  assert (forall more, more <> [] -> lookup more t0 = None) as Hleaf.
  { intros [|x more] Hm; [done|]. by destruct Ht0 as [-> | ->]. }
  split.
  - apply wf_update; [done|..].
    + intros kids' Hk. rewrite HD in Hk. injection Hk as <-. simpl.
      apply NoDup_cons. split; [by apply lookup_child_None|done].
    + intros kids' m more ks Hk. rewrite HD in Hk. injection Hk as <-. simpl.
      destruct (String.eqb_spec m n) as [->|Hne]; [|by left].
      destruct more as [|x more]; [|by rewrite Hleaf].
      simpl. intros [= ->]. right. destruct Ht0 as [?|[= ->]]; [done|constructor].
  - intros q. unfold kind_at.
    destruct (decide (D `prefix_of` q)) as [[q' ->]|Hoff].
    + unfold D. rewrite node_at_update_under, node_at_app. fold D. rewrite HD.
      destruct q' as [|m more].
      { rewrite decide_False; [done|]. apply self_app_ne. }
      simpl. destruct (String.eqb_spec m n) as [->|Hne].
      * rewrite Hn. destruct more as [|x more]; [by rewrite decide_True|].
        rewrite decide_False; [|by intros [_ ?]%app_singleton_inv].
        by rewrite Hleaf.
      * rewrite decide_False; [done|]. by intros [? _]%app_singleton_inv.
    + rewrite decide_False.
      * apply same_shape_kind, node_at_update_off. intros q' ->. apply Hoff. by exists q'.
      * intros ->. apply Hoff. by exists [n].
Qed.

End ShellOps.

Module ShellRun.
Import Shell ShellFacts ShellSteps ShellOps.

Lemma map_child_ext (m : string) (g1 g2 : tree -> tree) (kids : list (string * tree)) (c : tree) :
  lookup_child m kids = Some c -> g1 c = g2 c -> map_child m g1 kids = map_child m g2 kids.
Proof.
  induction kids as [|[k t] kids IH]; simpl; [done|].
  destruct (String.eqb_spec m k) as [->|Hne].
  - intros [= ->] Hg. by rewrite Hg.
  - intros H Hg. by rewrite IH.
Qed.

Lemma map_child_same (m : string) (g : tree -> tree) (kids : list (string * tree)) (c : tree) :
  lookup_child m kids = Some c -> g c = c -> map_child m g kids = kids.
Proof.
  induction kids as [|[k t] kids IH]; simpl; [done|].
  destruct (String.eqb_spec m k) as [->|Hne].
  - intros [= ->] Hg. by rewrite Hg.
  - intros H Hg. by rewrite IH.
Qed.

Lemma mkdir_rel_exists (p : list string) (t c : tree) :
  lookup p t = Some c -> mkdir_rel p t = t.
Proof.
  revert t. induction p as [|n p IH]; intros t; simpl; [done|].
  destruct t as [|kids]; [done|].
  destruct (lookup_child n kids) as [c'|] eqn:Hn; [|done].
  intros Hc. f_equal. eapply map_child_same; [done|]. by apply IH.
Qed.

Lemma mkdir_rel_new (rel : list string) (n : string) (t : tree) (kids : list (string * tree)) :
  lookup rel t = Some (Dir kids) -> lookup_child n kids = None ->
  mkdir_rel (rel ++ [n]) t = update rel (fun ks => (n, Dir []) :: ks) t.
Proof.
  revert t. induction rel as [|m rel IH]; intros t; simpl.
  - intros [= ->] Hn. by rewrite Hn.
  - destruct t as [|kids0]; [done|].
    destruct (lookup_child m kids0) as [c|] eqn:Hm; [|done].
    intros Hc Hn. f_equal. eapply map_child_ext; [done|]. by apply IH.
Qed.

Lemma parts_update_at (D : list string) (g : list (string * tree) -> list (string * tree))
    (fs : entry) : parts (update_at D g fs) = parts fs.
Proof. unfold update_at. by destruct (strip (parts fs) D). Qed.

(** [mkdir -p] of a child of an existing directory. *)
Lemma mkdir_spec (rel : list string) (n : string) (fs : entry) :
  let D := parts fs ++ rel in
  wf fs -> dir_at D fs -> kind_at (D ++ [n]) fs <> Some true ->
  wf (mkdir_p (mkPath D n) fs) /\
  parts (mkdir_p (mkPath D n) fs) = parts fs /\
  forall q, kind_at q (mkdir_p (mkPath D n) fs) =
            if decide (q = D ++ [n]) then Some false else kind_at q fs.
Proof.
  intros D Hwf Hdir Hnf.
  assert (strip (parts fs) (parts (mkPath D n)) = Some (rel ++ [n])) as Hs.
  { unfold parts at 2. simpl. unfold D. by rewrite <- app_assoc, strip_app. }
  destruct (kind_at (D ++ [n]) fs) as [[|]|] eqn:Hk; [done|..].
  - assert (mkdir_p (mkPath D n) fs = fs) as ->.
    { unfold mkdir_p. rewrite Hs. unfold kind_at in Hk.
      apply kind_Some_false in Hk as [ks Hk]. unfold node_at, D in Hk.
      rewrite <- app_assoc, strip_app in Hk.
      rewrite (mkdir_rel_exists _ _ _ Hk). by destruct fs. }
    split_and!; [done..|]. intros q. destruct (decide _) as [->|]; done.
  - assert (mkdir_p (mkPath D n) fs = update_at D (fun ks => (n, Dir []) :: ks) fs) as ->.
    { unfold mkdir_p, update_at. rewrite Hs. unfold D. rewrite strip_app.
      pose proof Hdir as Hd. unfold dir_at, kind_at in Hd.
      apply kind_Some_false in Hd as [ks Hd]. unfold node_at, D in Hd.
      rewrite strip_app in Hd.
      unfold kind_at in Hk. apply kind_None in Hk. unfold node_at, D in Hk.
      rewrite <- app_assoc, strip_app, lookup_app, Hd in Hk. simpl in Hk.
      destruct (lookup_child n ks) eqn:Hn; [done|].
      by rewrite (mkdir_rel_new _ _ _ _ Hd Hn). }
    destruct (add_spec rel n (Dir []) fs (or_intror eq_refl) Hwf Hdir Hk) as [Hwf' Hkind].
    split_and!; [done|apply parts_update_at|done].
Qed.

Lemma mv_n_performed (src dst : Path) (fs : entry) :
  file_at (parts src) fs -> kind_at (parts dst) fs = None -> dir_at (parent dst) fs ->
  mv_n src dst fs = relocate src dst File fs.
Proof.
  unfold file_at, dir_at, kind_at, mv_n, is_directory.
  intros ->%kind_Some_true ->%kind_None [ks ->]%kind_Some_false. done.
Qed.

Lemma relocate_spec (src dst : Path) (rel_s rel_d : list string) (fs : entry) :
  wf fs ->
  parent src = parts fs ++ rel_s -> parent dst = parts fs ++ rel_d ->
  file_at (parts src) fs -> kind_at (parts dst) fs = None -> dir_at (parent dst) fs ->
  wf (relocate src dst File fs) /\
  parts (relocate src dst File fs) = parts fs /\
  forall q, kind_at q (relocate src dst File fs) =
            if decide (q = parts dst) then Some true
            else if decide (q = parts src) then None else kind_at q fs.
Proof.
  intros Hwf Hs Hd Hfile Habs Hdir. unfold relocate.
  assert (file_at ((parts fs ++ rel_s) ++ [name src]) fs) as Hfile'.
  { by rewrite <- Hs. }
  destruct (remove_spec rel_s (name src) fs Hwf Hfile') as [Hwf1 Hk1].
  rewrite <- Hs in Hwf1, Hk1.
  change (parent src ++ [name src]) with (parts src) in Hk1.
  set (fs1 := update_at (parent src) (remove_child (name src)) fs) in *.
  assert (parts fs1 = parts fs) as Hp1 by apply parts_update_at.
  assert (dir_at (parts fs1 ++ rel_d) fs1) as Hdir1.
  { rewrite Hp1, <- Hd. unfold dir_at. rewrite Hk1.
    destruct (decide _) as [Heq|]; [|done].
    unfold file_at in Hfile. unfold dir_at in Hdir. rewrite Heq in Hdir. congruence. }
  assert (kind_at ((parts fs1 ++ rel_d) ++ [name dst]) fs1 = None) as Habs1.
  { rewrite Hp1, <- Hd. rewrite Hk1. by destruct (decide _). }
  destruct (add_spec rel_d (name dst) File fs1 (or_introl eq_refl) Hwf1 Hdir1 Habs1)
    as [Hwf2 Hk2].
  rewrite Hp1, <- Hd in Hwf2, Hk2. split_and!; [done|by rewrite parts_update_at|].
  intros q. rewrite Hk2. unfold parts at 1. destruct (decide _); [done|].
  apply Hk1.
Qed.

End ShellRun.

Module ShellPlan.
Import Shell ShellFacts ShellSteps ShellOps ShellRun.

Lemma mkdir_p_exists (rel : list string) (n : string) (fs : entry) :
  kind_at ((parts fs ++ rel) ++ [n]) fs <> None ->
  mkdir_p (mkPath (parts fs ++ rel) n) fs = fs.
Proof.
  intros Hk. unfold mkdir_p, parts at 2. simpl.
  rewrite <- app_assoc, strip_app. unfold kind_at, node_at in Hk.
  rewrite <- app_assoc, strip_app in Hk.
  destruct (lookup (rel ++ [n]) (node fs)) as [c|] eqn:Hl; [|done].
  rewrite (mkdir_rel_exists _ _ _ Hl). by destruct fs.
Qed.

Lemma dest_file_parts (op : operation) :
  parts (dest_file op) =
  if is_root_move op then parts (dest_folder op) ++ [new_name op]
  else parent (original op) ++ [new_name op].
Proof. unfold dest_file. by destruct (is_root_move op). Qed.

End ShellPlan.

Module ShellPlan2.
Import Shell ShellFacts ShellSteps ShellOps ShellRun ShellPlan.

Lemma app_one_ne {A : Type} (l : list A) (x : A) : l ++ [x] <> l.
Proof.
  intros H. apply (f_equal length) in H. rewrite length_app in H. simpl in H. lia.
Qed.

(** The effect of the lines of one operation when its move takes effect. *)
Lemma run_op_spec (fs : entry) (op : operation) (rel : list string) :
  wf fs -> parent (original op) = parts fs ++ rel ->
  dir_at (parent (original op)) fs -> performed fs op ->
  wf (run_op fs op) /\ parts (run_op fs op) = parts fs /\
  file_at (parts (original op)) fs /\
  kind_at (parts (dest_file op)) fs = None /\
  (is_root_move op = true -> kind_at (parts (dest_folder op)) fs <> Some true) /\
  forall q, kind_at q (run_op fs op) =
    if decide (q = parts (dest_file op)) then Some true
    else if decide (q = parts (original op)) then None
    else if decide (is_root_move op = true /\ q = parts (dest_folder op)) then Some false
    else kind_at q fs.
Proof.
  intros Hwf Hrel Hdir (Hfile & Habs & Hddir). unfold run_op.
  rewrite dest_file_parts in *. unfold dest_file in *.
  destruct (is_root_move op) eqn:Hroot.
  - set (d := dest_folder op) in *.
    change (parent (joinpath d (new_name op))) with (parts d) in Hddir.
    assert (parts d = (parts fs ++ rel) ++ [name d]) as Hd.
    { unfold d, dest_folder, parts at 1. simpl. by rewrite Hrel. }
    assert (d = mkPath (parts fs ++ rel) (name d)) as Hd'.
    { unfold d, dest_folder. simpl. by rewrite Hrel. }
    assert (kind_at (parts d) fs <> Some true) as Hnf.
    { intros Hk. assert (mkdir_p d fs = fs) as Hsame.
      { rewrite Hd'. apply mkdir_p_exists. rewrite <- Hd. congruence. }
      rewrite Hsame in Hddir. unfold dir_at in Hddir. congruence. }
    rewrite Hrel in Hdir.
    destruct (mkdir_spec rel (name d) fs Hwf Hdir) as (Hwf1 & Hp1 & Hk1).
    { by rewrite <- Hd. }
    rewrite <- Hd' in Hwf1, Hp1, Hk1. rewrite <- Hd in Hk1.
    set (fs1 := mkdir_p d fs) in *.
    rewrite mv_n_performed; [|done..].
    destruct (relocate_spec (original op) (joinpath d (new_name op)) rel (rel ++ [name d]) fs1)
      as (Hwf2 & Hp2 & Hk2); try done.
    { by rewrite Hp1. }
    { simpl. by rewrite Hp1, app_assoc. }
    assert (parts (original op) <> parts d) as Hsd.
    { intros Heq. unfold file_at in Hfile. rewrite Hk1, Heq in Hfile.
      by rewrite decide_True in Hfile. }
    split_and!; [done|congruence|..].
    + unfold file_at in *. rewrite Hk1 in Hfile. by rewrite decide_False in Hfile.
    + rewrite Hk1 in Habs. rewrite decide_False in Habs; [done|].
      apply app_one_ne.
    + done.
    + intros q. rewrite Hk2, Hk1.
      change (parts (joinpath d (new_name op))) with (parts d ++ [new_name op]).
      destruct (decide (q = parts d ++ [new_name op])); [done|].
      destruct (decide (q = parts (original op))); [done|].
      destruct (decide (q = parts d)) as [->|].
      * by rewrite decide_True.
      * rewrite decide_False; [done|]. by intros [_ ?].
  - rewrite mv_n_performed; [|done..].
    destruct (relocate_spec (original op) (mkPath (parent (original op)) (new_name op))
                rel rel fs) as (Hwf2 & Hp2 & Hk2); try done.
Qed.

End ShellPlan2.

Module ShellInv.
Import Shell ShellPlan2.

Lemma carried_out_init (T : entry) : wf T -> carried_out T [] T.
Proof.
  intros Hwf. split; try done.
  - intros q Hq. right. split; [done|]. by intros op ?%elem_of_nil.
  - intros q Hq. by left.
Qed.

Lemma carried_out_step (T fs : entry) (done : list operation) (op : operation)
    (rel : list string) :
  carried_out T done fs ->
  parent (original op) = parts T ++ rel -> dir_at (parent (original op)) T ->
  performed fs op ->
  carried_out T (done ++ [op]) (run_op fs op).
Proof.
  intros [Hwf Hparts Hfiles Hkept Hdirs Hdkept] Hrel Hdir Hperf.
  destruct (run_op_spec fs op rel Hwf) as (Hwf' & Hp' & Hsrc & Hdst & Hfold & Hk);
    [by rewrite Hparts|by apply Hdkept|done|].
  split.
  - done.
  - congruence.
  - intros q Hq. unfold file_at in Hq. rewrite Hk in Hq.
    destruct (decide (q = parts (dest_file op))) as [->|Hnd].
    { left. exists op. split; [|done]. apply elem_of_app. right. left. }
    destruct (decide (q = parts (original op))); [done|].
    destruct (decide (is_root_move op = true /\ q = parts (dest_folder op))); [done|].
    destruct (Hfiles q Hq) as [(op' & Hin & ->)|[HT Hno]].
    + left. exists op'. split; [|done]. apply elem_of_app. by left.
    + right. split; [done|]. intros op' [Hin|Hin%list_elem_of_singleton]%elem_of_app.
      * by apply Hno.
      * by subst.
  - intros q HT Hno. unfold file_at. rewrite Hk.
    destruct (decide (q = parts (dest_file op))); [done|].
    assert (file_at q fs) as Hq.
    { apply Hkept; [done|]. intros op' Hin. apply Hno, elem_of_app. by left. }
    rewrite decide_False.
    2:{ apply Hno, elem_of_app. right. left. }
    rewrite decide_False; [done|].
    intros [Hroot ->]. by apply Hfold.
  - intros q Hq. unfold dir_at in Hq. rewrite Hk in Hq.
    destruct (decide (q = parts (dest_file op))); [done|].
    destruct (decide (q = parts (original op))); [done|].
    destruct (decide (is_root_move op = true /\ q = parts (dest_folder op))) as [[Hr ->]|].
    { right. exists op. split; [|done]. apply elem_of_app. right. left. }
    destruct (Hdirs q Hq) as [HT|(op' & Hin & Hr & ->)]; [by left|].
    right. exists op'. split; [|done]. apply elem_of_app. by left.
  - intros q HT. pose proof (Hdkept q HT) as Hq. unfold dir_at in *. rewrite Hk.
    destruct (decide (q = parts (dest_file op))) as [->|]; [congruence|].
    destruct (decide (q = parts (original op))) as [->|].
    { unfold file_at in Hsrc. congruence. }
    by destruct (decide _).
Qed.

Lemma carried_out_run (T : entry) (ops done : list operation) (fs : entry) :
  carried_out T done fs ->
  (forall op, op ∈ ops ->
     exists rel, parent (original op) = parts T ++ rel /\ dir_at (parent (original op)) T) ->
  all_performed ops fs ->
  carried_out T (done ++ ops) (run_script ops fs).
Proof.
  revert done fs. induction ops as [|op ops IH]; intros done fs Hco Hshape Hperf.
  { by rewrite app_nil_r. }
  destruct Hperf as [Hp Hperf]. destruct (Hshape op) as (rel & Hrel & Hdir); [left|].
  unfold run_script. cbn [foldl]. rewrite (cons_middle op done ops), app_assoc.
  apply IH; [|by intros op' Hin; apply Hshape; right|done].
  by eapply carried_out_step.
Qed.

End ShellInv.

(** *** The extension of a canonical name *)

Section SuffixFacts.
Import Text TextFacts.

Lemma rfind_dot_no_dot (r : string) (k : nat) : no_dot r = true -> rfind_dot r k = None.
Proof.
  revert k. induction r as [|a r IH]; intros k; simpl; [done|].
  intros [Ha Hr]%andb_prop. rewrite IH by done.
  apply negb_true_iff in Ha. by rewrite Ha.
Qed.

Lemma rfind_dot_last (pre r : string) (k : nat) :
  no_dot r = true ->
  rfind_dot (pre +:+ String "." r) k = Some (k + String.length pre)%nat.
Proof.
  intros Hr. revert k. induction pre as [|a pre IH]; intros k.
  - rewrite append_nil_l. simpl. rewrite rfind_dot_no_dot by done.
    f_equal. lia.
  - rewrite append_cons. simpl. rewrite IH. f_equal. lia.
Qed.

Lemma rfind_dot_split (nm : string) (k i : nat) :
  rfind_dot nm k = Some i ->
  exists pre r, nm = pre +:+ String "." r /\ i = (k + String.length pre)%nat /\ no_dot r = true.
Proof.
  revert k. induction nm as [|a nm IH]; intros k; simpl; [done|].
  destruct (rfind_dot nm (S k)) as [j|] eqn:Hj.
  - intros [= <-]. destruct (IH _ Hj) as (pre & r & -> & -> & Hr).
    exists (String a pre), r. rewrite append_cons. simpl. split_and!; [done|lia|done].
  - destruct (Ascii.eqb_spec a "."); [|done]. intros [= <-]. subst a.
    exists "", nm. rewrite append_nil_l. simpl. split_and!; [done|lia|].
    clear IH. revert Hj. generalize (S k). induction nm as [|b nm IH]; intros m; simpl; [done|].
    destruct (rfind_dot nm (S m)) eqn:Hm; [done|].
    destruct (Ascii.eqb_spec b "."); [done|]. intros _. simpl. by eapply IH.
Qed.

Lemma substring_skip (pre t : string) (n : nat) :
  String.substring (String.length pre) n (pre +:+ t) = String.substring 0 n t.
Proof. induction pre as [|a pre IH]; [done|]. rewrite append_cons. simpl. apply IH. Qed.

Lemma substring_all (t : string) : String.substring 0 (String.length t) t = t.
Proof. induction t as [|a t IH]; simpl; [done|]. by rewrite IH. Qed.

(** The extension is empty, or a dot followed by a non-empty text without
    dots. *)
Lemma suffix_shape (p : Path) :
  suffix p = "" \/ exists r, suffix p = String "." r /\ r <> "" /\ no_dot r = true.
Proof.
  unfold suffix. destruct (rfind_dot (name p) 0) as [i|] eqn:Hi; [|by left].
  destruct (_ && _)%bool eqn:Hc; [|by left]. right.
  apply andb_prop in Hc as [_ Hlt]. apply Nat.ltb_lt in Hlt.
  destruct (rfind_dot_split _ _ _ Hi) as (pre & r & Hnm & -> & Hr).
  rewrite Hnm in *. rewrite length_append in *. simpl in *.
  exists r. replace (String.length pre + S (String.length r) - String.length pre)%nat
    with (String.length (String "." r)) by (simpl; lia).
  rewrite substring_skip, substring_all. split_and!; [done| |done].
  intros ->. simpl in Hlt. lia.
Qed.

Lemma suffix_of_dot_free (p : Path) (pre t : string) :
  no_dot pre = true -> pre <> "" ->
  (t = "" \/ exists r, t = String "." r /\ r <> "" /\ no_dot r = true) ->
  name p = pre +:+ t -> suffix p = t.
Proof.
  intros Hpre Hne Ht Hnm. unfold suffix. rewrite Hnm.
  destruct Ht as [-> | (r & -> & Hr & Hnd)].
  - rewrite append_nil_r. by rewrite rfind_dot_no_dot.
  - rewrite rfind_dot_last by done. simpl.
    rewrite length_append. simpl.
    assert ((0 <? String.length pre)%nat = true) as ->.
    { apply Nat.ltb_lt. destruct pre; [done|simpl; lia]. }
    assert ((String.length pre <? String.length pre + S (String.length r) - 1)%nat = true) as ->.
    { apply Nat.ltb_lt. destruct r; [done|simpl; lia]. }
    simpl. replace (String.length pre + S (String.length r) - String.length pre)%nat
      with (String.length (String "." r)) by (simpl; lia).
    by rewrite substring_skip, substring_all.
Qed.

Lemma no_dot_digits (s : string) : all_digits s = true -> no_dot s = true.
Proof.
  induction s as [|a s IH]; simpl; [done|]. intros [Ha Hs]%andb_prop.
  rewrite IH by done. rewrite andb_true_r. apply negb_true_iff.
  destruct (Ascii.eqb_spec a "."); [by subst|done].
Qed.

Lemma no_dot_append (a b : string) : no_dot a = true -> no_dot b = true -> no_dot (a +:+ b) = true.
Proof.
  induction a as [|x a IH]; [done|]. rewrite append_cons. simpl.
  intros [-> Ha]%andb_prop Hb. by apply IH.
Qed.

(** A file renamed to its canonical name keeps its extension. *)
Lemma suffix_target_name (s e : N) (f p : Path) :
  name p = target_name s e f -> suffix p = suffix f.
Proof.
  unfold target_name. intros Hnm.
  apply (suffix_of_dot_free p ("S" +:+ str02 s +:+ "E" +:+ str02 e) (suffix f)).
  - rewrite append_cons, append_nil_l. simpl.
    apply no_dot_append; [by apply no_dot_digits, all_digits_str02|].
    rewrite append_cons, append_nil_l. simpl. by apply no_dot_digits, all_digits_str02.
  - by rewrite append_cons.
  - apply suffix_shape.
  - by rewrite Hnm, !append_assoc.
Qed.

End SuffixFacts.

(** *** What the planner lists and what the tree holds *)

Section Listing.
Import Shell ShellFacts ShellSteps ShellOps.

Lemma entry_in_self (X : entry) : entry_in X X.
Proof.
  unfold entry_in, node_at. rewrite <- (app_nil_r (parts X)) at 2.
  by rewrite strip_app.
Qed.

Lemma iterdir_elem (e e2 : entry) :
  e2 ∈ iterdir e <->
  exists kids, node e = Dir kids /\ (name e2, node e2) ∈ kids /\ parent e2 = parts e.
Proof.
  unfold iterdir. destruct (node e) as [|kids].
  - split; [by intros ?%elem_of_nil|by intros (? & ? & _)].
  - rewrite list_elem_of_fmap. split.
    + intros ([n t] & -> & Hin). exists kids. done.
    + intros (kids' & [= <-] & Hin & Hp). exists (name e2, node e2). split; [|done].
      destruct e2 as [[p n] t]. simpl in *. by subst.
Qed.

(** Listing a directory of a tree gives entries of the tree. *)
Lemma entry_in_iterdir (X e e2 : entry) (rel : list string) :
  wf X -> parts e = parts X ++ rel -> entry_in X e -> e2 ∈ iterdir e ->
  entry_in X e2 /\ parent e2 = parts e /\ parts e2 = parts X ++ (rel ++ [name e2]).
Proof.
  intros Hwf Hrel He (kids & Hk & Hin & Hp)%iterdir_elem.
  unfold entry_in in *. rewrite Hk in He.
  assert (parts e2 = (parts X ++ rel) ++ [name e2]) as Hparts.
  { unfold parts at 1. by rewrite Hp, Hrel. }
  split_and!; [|done|by rewrite Hparts, app_assoc].
  rewrite Hparts, node_at_app. rewrite <- Hrel, He. simpl.
  rewrite (elem_lookup_child _ _ _ (Hwf _ _ He) Hin). done.
Qed.

(** What the tree holds in a directory is listed. *)
Lemma iterdir_of_node (X e : entry) (rel : list string) (n : string) (t : tree) :
  parts e = parts X ++ rel -> entry_in X e ->
  node_at (parts e ++ [n]) X = Some t ->
  mkEntry (joinpath e n) t ∈ iterdir e.
Proof.
  intros Hrel He Hn. unfold entry_in in He.
  rewrite Hrel, node_at_app in Hn. rewrite <- Hrel, He in Hn.
  destruct (node e) as [|kids] eqn:Hk; [done|]. simpl in Hn.
  destruct (lookup_child n kids) as [c|] eqn:Hc; [|done]. injection Hn as ->.
  apply iterdir_elem. exists kids. split_and!; [done| |done].
  by apply lookup_child_elem.
Qed.

Lemma entry_in_kind (X e : entry) :
  entry_in X e -> kind_at (parts e) X = kind (Some (node e)).
Proof. unfold entry_in, kind_at. by intros ->. Qed.

Lemma entry_in_unique (X e1 e2 : entry) :
  entry_in X e1 -> entry_in X e2 -> path e1 = path e2 -> e1 = e2.
Proof.
  unfold entry_in. intros H1 H2 Hp. destruct e1 as [p1 t1], e2 as [p2 t2].
  simpl in *. subst. unfold parts in *. simpl in *. congruence.
Qed.

End Listing.

(** *** The last folder filed under a key wins *)

Section LastWins.
Context {A V : Type} (cand : A -> option N) (val : A -> V).

Lemma file_under_lookup (l : list A) (m : gmap N V) (k : N) (v : V) :
  foldl (file_under cand val) m l !! k = Some v <->
  (exists l1 x l2, l = l1 ++ x :: l2 /\ cand x = Some k /\ v = val x /\
                   Forall (fun y => cand y <> Some k) l2) \/
  (m !! k = Some v /\ Forall (fun y => cand y <> Some k) l).
Proof.
  revert m. induction l as [|x l IH] using rev_ind; intros m.
  { simpl. split.
    - intros H. right. by split.
    - intros [(l1 & x & l2 & H & _)|[H _]]; [by destruct l1|done]. }
  rewrite foldl_app. cbn [foldl]. unfold file_under at 1.
  destruct (cand x) as [k'|] eqn:Hx.
  - destruct (decide (k' = k)) as [->|Hne].
    + rewrite lookup_insert_eq. split.
      * intros [= <-]. left. exists l, x, []. by repeat split.
      * intros [(l1 & y & l2 & Hl & Hy & -> & Hall)|[_ Hall]].
        -- destruct l2 as [|z l2 _] using rev_ind.
           ++ apply app_inj_tail in Hl as [_ ->]. done.
           ++ rewrite app_comm_cons, app_assoc in Hl. apply app_inj_tail in Hl as [_ ->].
              apply Forall_app in Hall as [_ Hz]. apply Forall_inv in Hz. congruence.
        -- apply Forall_app in Hall as [_ Hz]. apply Forall_inv in Hz. congruence.
    + rewrite lookup_insert_ne by done. rewrite IH. split.
      * intros [(l1 & y & l2 & -> & Hy & -> & Hall)|[Hm Hall]].
        -- left. exists l1, y, (l2 ++ [x]). rewrite <- app_assoc. repeat split; try done.
           apply Forall_app. split; [done|]. apply Forall_singleton. congruence.
        -- right. split; [done|]. apply Forall_app. split; [done|].
           apply Forall_singleton. congruence.
      * intros [(l1 & y & l2 & Hl & Hy & -> & Hall)|[Hm Hall]].
        -- destruct l2 as [|z l2 _] using rev_ind.
           { apply app_inj_tail in Hl as [_ ->]. congruence. }
           rewrite app_comm_cons, app_assoc in Hl. apply app_inj_tail in Hl as [-> ->].
           apply Forall_app in Hall as [Hall _].
           left. exists l1, y, l2. done.
        -- apply Forall_app in Hall as [Hall _]. by right.
  - rewrite IH. split.
    + intros [(l1 & y & l2 & -> & Hy & -> & Hall)|[Hm Hall]].
      * left. exists l1, y, (l2 ++ [x]). rewrite <- app_assoc. repeat split; try done.
        apply Forall_app. split; [done|]. apply Forall_singleton. congruence.
      * right. split; [done|]. apply Forall_app. split; [done|].
        apply Forall_singleton. congruence.
    + intros [(l1 & y & l2 & Hl & Hy & -> & Hall)|[Hm Hall]].
      * destruct l2 as [|z l2 _] using rev_ind.
        { apply app_inj_tail in Hl as [_ ->]. congruence. }
        rewrite app_comm_cons, app_assoc in Hl. apply app_inj_tail in Hl as [-> ->].
        apply Forall_app in Hall as [Hall _].
        left. exists l1, y, l2. done.
      * apply Forall_app in Hall as [Hall _]. by right.
Qed.

(** Some folder is filed under a key as soon as one has it. *)
Lemma file_under_some (l : list A) (m : gmap N V) (k : N) (x : A) :
  x ∈ l -> cand x = Some k -> is_Some (foldl (file_under cand val) m l !! k).
Proof.
  revert m. induction l as [|y l IH] using rev_ind; intros m; [by intros ?%elem_of_nil|].
  rewrite foldl_app. cbn [foldl]. unfold file_under at 1.
  intros [Hin|Hin%list_elem_of_singleton]%elem_of_app Hx; [|subst y].
  - destruct (cand y) as [k'|]; [|by apply IH].
    destruct (decide (k' = k)) as [->|Hne].
    + rewrite lookup_insert_eq. eauto.
    + rewrite lookup_insert_ne by done. by apply IH.
  - rewrite Hx, lookup_insert_eq. eauto.
Qed.

End LastWins.

(** *** The order of names *)

Section NameOrder.

Lemma ascii_compare_N (a b : ascii) :
  Ascii.compare a b = (N_of_ascii a ?= N_of_ascii b)%N.
Proof. reflexivity. Qed.

Lemma string_compare_trans (s1 s2 s3 : string) (c : comparison) :
  String.compare s1 s2 = c -> String.compare s2 s3 = c -> String.compare s1 s3 = c.
Proof.
  revert s2 s3. induction s1 as [|a1 s1 IH]; intros [|a2 s2] [|a3 s3]; simpl; try congruence.
  rewrite !ascii_compare_N.
  destruct (N.compare_spec (N_of_ascii a1) (N_of_ascii a2)) as [H12|H12|H12];
    destruct (N.compare_spec (N_of_ascii a2) (N_of_ascii a3)) as [H23|H23|H23];
    destruct (N.compare_spec (N_of_ascii a1) (N_of_ascii a3)) as [H13|H13|H13];
    try lia; try congruence; try apply IH.
Qed.

Lemma leb_trans (s1 s2 s3 : string) :
  String.leb s1 s2 = true -> String.leb s2 s3 = true -> String.leb s1 s3 = true.
Proof.
  unfold String.leb.
  destruct (String.compare s1 s2) eqn:H12; [..|done];
    destruct (String.compare s2 s3) eqn:H23; try done; intros _ _.
  - by rewrite (string_compare_trans _ _ _ _ H12 H23).
  - apply String.compare_eq_iff in H12. subst. by rewrite H23.
  - apply String.compare_eq_iff in H23. subst. by rewrite H12.
  - by rewrite (string_compare_trans _ _ _ _ H12 H23).
Qed.

Lemma leb_refl (s : string) : String.leb s s = true.
Proof. by destruct (String.leb_total s s). Qed.

Lemma sorted_paths_sorted {A : Type} (key : A -> Path) (l : list A) :
  StronglySorted (key_le (fun x => name (key x)) String.leb) (sorted_paths key l).
Proof.
  apply sorted_sorted.
  - intros a b. apply String.leb_total.
  - intros a b c. apply leb_trans.
Qed.

Lemma StronglySorted_filter {A : Type} (R : A -> A -> Prop) (P : A -> Prop)
    `{forall x, Decision (P x)} (l : list A) :
  StronglySorted R l -> StronglySorted R (filter P l).
Proof.
  induction 1 as [|x l Hl IH Hx]; [constructor|].
  rewrite filter_cons. destruct (decide (P x)); [|done].
  constructor; [done|]. apply Forall_forall. intros y [_ Hy]%list_elem_of_filter.
  rewrite Forall_forall in Hx. by apply Hx.
Qed.

Lemma sorted_split_le {A : Type} (key : A -> Path) (l l1 l2 : list A) (x y : A) :
  StronglySorted (key_le (fun x => name (key x)) String.leb) l ->
  l = l1 ++ x :: l2 -> y ∈ l1 ++ [x] ->
  String.leb (name (key y)) (name (key x)) = true.
Proof.
  intros Hs -> [Hy|Hy%list_elem_of_singleton]%elem_of_app; [|subst y; apply leb_refl].
  apply StronglySorted_app in Hs as (Hle & _ & _).
  apply (Hle y x Hy). left.
Qed.

End NameOrder.

(** *** The folder that wins a key *)

Section Winner.
Context {A V : Type} (key : A -> Path) (cand : A -> option N) (val : A -> V).

Lemma winner_max (l : list A) (k : N) (v : V) :
  StronglySorted (key_le (fun x => name (key x)) String.leb) l ->
  foldl (file_under cand val) ∅ l !! k = Some v ->
  exists x, x ∈ l /\ cand x = Some k /\ v = val x /\
    forall y, y ∈ l -> cand y = Some k ->
      String.leb (name (key y)) (name (key x)) = true.
Proof.
  intros Hs [(l1 & x & l2 & Hl & Hx & -> & Hall)|[Hm _]]%file_under_lookup; [|done].
  exists x. split_and!; [rewrite Hl; set_solver|done..|].
  intros y Hy Hcy. eapply (sorted_split_le key l); [done..|].
  rewrite Hl in Hy. apply elem_of_app in Hy as [Hy|[->|Hy]%elem_of_cons].
  - apply elem_of_app. by left.
  - apply elem_of_app. right. left.
  - rewrite Forall_forall in Hall. by destruct (Hall y Hy).
Qed.

End Winner.

(** *** The scans of the planner as filing under keys *)

Section Scans.

Lemma map_folder_file_under (m : gmap N season_slot) (F : entry) :
  map_folder m F = file_under cand_season Folder m F.
Proof.
  unfold map_folder, file_under, cand_season. by destruct (folder_ignored _).
Qed.

Lemma folder_map_fold (X : entry) :
  folder_map X = foldl (file_under cand_season Folder) ∅ (folders_of X).
Proof.
  unfold folder_map. generalize (∅ : gmap N season_slot).
  induction (folders_of X) as [|F l IH]; intros m; [done|].
  cbn [foldl]. by rewrite map_folder_file_under, IH.
Qed.

Lemma scan_item_file_under (s : N) (dm : gmap N entry) (df : list entry) (x : entry) :
  fst (scan_item s (dm, df) x) = file_under (cand_disc s) id dm x.
Proof.
  unfold scan_item, file_under, cand_disc. destruct (is_dir x); [|by destruct (is_video x)].
  destruct (get_clean_disc_num (name x) s) as [d|]; simpl; [|done].
  by destruct (negb (d =? 0)).
Qed.

Lemma disc_map_fold (F : entry) (s : N) :
  disc_map F s = foldl (file_under (cand_disc s) id) ∅ (sorted_paths path (iterdir F)).
Proof.
  unfold disc_map, season_scan. generalize (∅ : gmap N entry) (@nil entry).
  induction (sorted_paths path (iterdir F)) as [|x l IH]; intros dm df; [done|].
  cbn [foldl]. pose proof (scan_item_file_under s dm df x) as Hx.
  destruct (scan_item s (dm, df) x) as [dm' df']. simpl in Hx. subst dm'. apply IH.
Qed.

Lemma elem_of_folders_of (X F : entry) :
  F ∈ folders_of X <-> F ∈ iterdir X /\ is_dir F = true.
Proof.
  unfold folders_of, sorted_paths. rewrite list_elem_of_filter, elem_of_sorted.
  rewrite Is_true_true. tauto.
Qed.

Lemma elem_of_root_files_of (X f : entry) :
  f ∈ root_files_of X <-> f ∈ iterdir X /\ is_video f = true.
Proof.
  unfold root_files_of, sorted_paths. rewrite list_elem_of_filter, elem_of_sorted.
  rewrite Is_true_true. tauto.
Qed.

Lemma elem_of_disc_files (D f : entry) :
  f ∈ disc_files D <-> f ∈ iterdir D /\ is_video f = true.
Proof.
  unfold disc_files, sorted_paths. rewrite elem_of_sorted, list_elem_of_filter.
  rewrite Is_true_true. tauto.
Qed.

Lemma elem_of_flat_map {A B : Type} (f : A -> list B) (l : list A) (y : B) :
  y ∈ flat_map f l <-> exists x, x ∈ l /\ y ∈ f x.
Proof.
  rewrite list_elem_of_In, in_flat_map. split; intros (x & H1 & H2); exists x.
  - by rewrite !list_elem_of_In.
  - by rewrite <- !list_elem_of_In.
Qed.

(** The files numbered in a season folder. *)
Lemma elem_of_season_files (F : entry) (s : N) (f : entry) :
  f ∈ season_files F [] s false <->
  (f ∈ iterdir F /\ is_video f = true) \/
  (exists d D, disc_map F s !! d = Some D /\ f ∈ iterdir D /\ is_video f = true).
Proof.
  unfold season_files, disc_map.
  pose proof (scan_items_direct s (sorted_paths path (iterdir F)) ∅ []) as Hd.
  unfold season_scan in *. destruct (foldl _ _ _) as [dm df]. simpl in *. subst df.
  rewrite elem_of_app, list_elem_of_filter, Is_true_true.
  unfold sorted_paths at 1. rewrite elem_of_sorted.
  rewrite elem_of_flat_map. split.
  - intros [[? ?]|([d D] & Hin & Hf)]; [by left|right].
    apply sorted_items_lookup in Hin.
    apply elem_of_disc_files in Hf. exists d, D. tauto.
  - intros [[? ?]|(d & D & Hm & Hf)]; [by left|right].
    exists (d, D). split.
    + by apply sorted_items_lookup.
    + apply elem_of_disc_files. tauto.
Qed.

Lemma elem_of_root_season_files (X : entry) (s : N) (f : entry) :
  f ∈ season_files X (root_files_of X) s true <-> f ∈ root_files_of X.
Proof.
  unfold season_files, season_scan. rewrite sorted_items_empty. cbn [flat_map].
  rewrite app_nil_r. apply elem_of_sorted.
Qed.

(** The folder filed under a season is the last candidate by name. *)
Lemma season_winner (X : entry) (s : N) (F : entry) :
  folder_map X !! s = Some (Folder F) ->
  F ∈ iterdir X /\ is_dir F = true /\ cand_season F = Some s /\
  forall G, G ∈ iterdir X -> is_dir G = true -> cand_season G = Some s ->
    String.leb (name G) (name F) = true.
Proof.
  rewrite folder_map_fold. intros H.
  apply (winner_max path) in H as (x & Hx & Hc & [= ->] & Hmax).
  - apply elem_of_folders_of in Hx as [? ?]. split_and!; try done.
    intros G HG Hd Hcg. apply Hmax; [|done]. by apply elem_of_folders_of.
  - unfold folders_of. apply StronglySorted_filter, sorted_paths_sorted.
Qed.

Lemma season_some (X : entry) (s : N) (G : entry) :
  G ∈ iterdir X -> is_dir G = true -> cand_season G = Some s ->
  exists F, folder_map X !! s = Some (Folder F).
Proof.
  intros HG Hd Hc. rewrite folder_map_fold.
  destruct (file_under_some cand_season Folder (folders_of X) ∅ s G) as [v Hv];
    [by apply elem_of_folders_of|done|].
  pose proof Hv as Hv'.
  apply file_under_lookup in Hv' as [(_ & x & _ & _ & _ & -> & _)|[? _]]; [|done].
  eauto.
Qed.

Lemma disc_winner (F : entry) (s d : N) (D : entry) :
  disc_map F s !! d = Some D ->
  D ∈ iterdir F /\ cand_disc s D = Some d /\
  forall G, G ∈ iterdir F -> cand_disc s G = Some d ->
    String.leb (name G) (name D) = true.
Proof.
  rewrite disc_map_fold. intros H.
  apply (winner_max path) in H as (x & Hx & Hc & -> & Hmax).
  - unfold sorted_paths in Hx. rewrite elem_of_sorted in Hx. split_and!; try done.
    intros G HG Hcg. apply Hmax; [|done]. unfold sorted_paths. by rewrite elem_of_sorted.
  - apply sorted_paths_sorted.
Qed.

Lemma disc_some (F : entry) (s d : N) (G : entry) :
  G ∈ iterdir F -> cand_disc s G = Some d ->
  exists D, disc_map F s !! d = Some D.
Proof.
  intros HG Hc. rewrite disc_map_fold.
  destruct (file_under_some (cand_disc s) id (sorted_paths path (iterdir F)) ∅ d G)
    as [v Hv]; [unfold sorted_paths; by rewrite elem_of_sorted|done|].
  eauto.
Qed.

(** The season map is the folder map, with the root files added as season 1
    when no folder has it. *)
Lemma seasons_of_folder (X : entry) (s : N) (F : entry) :
  seasons_of X !! s = Some (Folder F) <-> folder_map X !! s = Some (Folder F).
Proof.
  unfold seasons_of, build_seasons_map. fold (folder_map X).
  destruct (_ && _); [|done].
  destruct (folder_map X !! 1) eqn:H1; [done|].
  destruct (decide (s = 1)) as [->|Hne].
  - rewrite lookup_insert_eq, H1. split; congruence.
  - by rewrite lookup_insert_ne.
Qed.

Lemma seasons_of_keeps (X : entry) (s : N) (slot : season_slot) :
  folder_map X !! s = Some slot -> seasons_of X !! s = Some slot.
Proof.
  unfold seasons_of, build_seasons_map. fold (folder_map X). intros Hs.
  destruct (_ && _); [|done].
  destruct (folder_map X !! 1) eqn:H1; [done|].
  rewrite lookup_insert_ne; [done|]. intros <-. congruence.
Qed.

End Scans.

(** *** Where the files of the plan are *)

Section Located.
Import Shell ShellFacts ShellSteps ShellOps.

Lemma show_ops_elem (X : entry) (op : operation) :
  op ∈ show_ops X <->
  exists s slot f e, seasons_of X !! s = Some slot /\
    (f, e) ∈ assignments (slot_files X (s, slot)) 0 /\
    op_of s (slot_is_root slot) (f, e) = Some op.
Proof.
  unfold show_ops. rewrite elem_of_flat_map. split.
  - intros ([s slot] & Hs%sorted_items_lookup & Hop).
    unfold season_ops in Hop. apply list_elem_of_omap in Hop as ([f e] & Ha & Hop).
    exists s, slot, f, e. done.
  - intros (s & slot & f & e & Hs & Ha & Hop). exists (s, slot). split.
    + by apply sorted_items_lookup.
    + unfold season_ops. apply list_elem_of_omap. exists (f, e). done.
Qed.

Lemma entry_in_top (X e : entry) :
  wf X -> e ∈ iterdir X ->
  entry_in X e /\ parent e = parts X /\ parts e = parts X ++ [name e].
Proof.
  intros Hwf He.
  destruct (entry_in_iterdir X X e [] Hwf) as (H1 & H2 & H3);
    [by rewrite app_nil_r|apply entry_in_self|done|].
  done.
Qed.

Lemma iterdir_dir_at (X e f : entry) :
  entry_in X e -> f ∈ iterdir e -> dir_at (parts e) X.
Proof.
  intros He (kids & Hk & _)%iterdir_elem. unfold dir_at.
  rewrite (entry_in_kind _ _ He), Hk. done.
Qed.

Lemma is_video_file (f : entry) : is_video f = true -> node f = File.
Proof.
  unfold is_video, is_file. destruct (node f); [done|]. simpl. done.
Qed.

(** The files numbered under a season folder lie in that folder or in a
    folder directly below it. *)
Lemma season_files_at (X F : entry) (s : N) (f : entry) :
  wf X -> seasons_of X !! s = Some (Folder F) -> f ∈ season_files F [] s false ->
  cand_season F = Some s /\ is_video f = true /\
  exists e rest, entry_in X e /\ parts e = parts X ++ name F :: rest /\
    (length rest <= 1)%nat /\ f ∈ iterdir e.
Proof.
  intros Hwf (HF & Hd & Hc & _)%seasons_of_folder%season_winner Hf.
  destruct (entry_in_top X F Hwf HF) as (HeF & HpF & HpartsF).
  apply elem_of_season_files in Hf as [[Hf Hv]|(d & D & HD & Hf & Hv)].
  - split_and!; try done. exists F, []. split_and!; try done; simpl; lia.
  - split_and!; try done. apply disc_winner in HD as (HD & _ & _).
    destruct (entry_in_iterdir X F D [name F] Hwf HpartsF HeF HD) as (HeD & HpD & HpartsD).
    exists D, [name D]. split_and!; try done; simpl; lia.
Qed.

Lemma root_files_at (X : entry) (s : N) (f : entry) :
  seasons_of X !! s = Some CREATE_ROOT_S1 ->
  f ∈ season_files X (root_files_of X) s true ->
  s = 1 /\ is_video f = true /\ f ∈ iterdir X.
Proof.
  intros (-> & _)%seasons_of_root Hf%elem_of_root_season_files%elem_of_root_files_of.
  tauto.
Qed.

(** What is known of an operation of the plan of [X]. *)
Lemma op_located (X : entry) (op : operation) :
  wf X -> op ∈ show_ops X ->
  (exists rel, parent (original op) = parts X ++ rel /\ dir_at (parent (original op)) X) /\
  (exists top rest, parent (dest_file op) = parts X ++ top :: rest /\
     forall G : entry, name G = top -> cand_season G = Some (season_num op)) /\
  file_at (parts (original op)) X /\
  exists e, e <> 0 /\ new_name op = target_name (season_num op) e (original op).
Proof.
  intros Hwf (s & slot & f & e & Hs & Ha & Hop)%show_ops_elem.
  pose proof (assignments_positive _ _ _ Ha) as Hpos.
  apply assignments_elem in Ha as [Hf _]. simpl in *.
  apply op_of_Some in Hop as (Ho & Hn & Hsn & Hr). simpl in *.
  assert (exists e : entry, entry_in X f /\ node f = File /\ entry_in X e /\ f ∈ iterdir e /\
            exists rel, parts e = parts X ++ rel /\
            match slot with
            | CREATE_ROOT_S1 => rel = [] /\ s = 1
            | Folder F => exists rest, rel = name F :: rest /\ cand_season F = Some s
            end) as (d & Hef & Hnf & Hed & Hfd & rel & Hrel & Hslot).
  { destruct slot as [F|]; unfold slot_files in Hf; simpl in Hf.
    - destruct (season_files_at X F s f Hwf Hs Hf) as (Hc & Hv & d & rest & Hd & Hp & _ & Hfd).
      exists d. destruct (entry_in_iterdir X d f _ Hwf Hp Hd Hfd) as (? & _ & _).
      split_and!; try done; [by apply is_video_file|]. eauto 6.
    - destruct (root_files_at X s f Hs Hf) as (-> & Hv & Hfd).
      exists X. destruct (entry_in_top X f Hwf Hfd) as (? & _ & _).
      split_and!; try done; [by apply is_video_file|apply entry_in_self|].
      exists []. by rewrite app_nil_r. }
  pose proof Hfd as (kids & _ & _ & Hpar)%iterdir_elem.
  split_and!.
  - exists rel. rewrite Ho, Hpar. split; [done|]. by apply (iterdir_dir_at X d f).
  - unfold dest_file, dest_folder. rewrite Hr, Ho, Hsn. destruct slot as [F|]; simpl.
    + destruct Hslot as (rest & -> & Hc). exists (name F), rest. rewrite Hpar. split; [done|].
      intros G HG. unfold cand_season in *. by rewrite HG.
    + destruct Hslot as [-> ->]. exists ("Season " +:+ Text.str 1), [].
      unfold parts. simpl. rewrite Hpar, Hrel, app_nil_r. split; [done|].
      intros G HG. unfold cand_season. rewrite HG. by vm_compute.
  - rewrite Ho. unfold file_at. rewrite (entry_in_kind _ _ Hef), Hnf. done.
  - exists e. rewrite Hn, Ho, Hsn. done.
Qed.

End Located.

(** *** The second run, on the tree the script leaves *)

Section Rerun.
Import Shell ShellFacts ShellSteps ShellOps.

Lemma parent_dir (X : entry) (rel : list string) (n : string) (t : tree) :
  node_at ((parts X ++ rel) ++ [n]) X = Some t ->
  exists kids, node_at (parts X ++ rel) X = Some (Dir kids).
Proof.
  rewrite node_at_app. destruct (node_at (parts X ++ rel) X) as [[|kids]|]; [done| |done].
  eauto.
Qed.

(** The entry of what a tree holds below one of its directories. *)
Lemma down (X e : entry) (rel : list string) (n : string) (t : tree) :
  entry_in X e -> parts e = parts X ++ rel ->
  node_at (parts e ++ [n]) X = Some t ->
  mkEntry (joinpath e n) t ∈ iterdir e /\
  entry_in X (mkEntry (joinpath e n) t) /\
  parts (mkEntry (joinpath e n) t) = parts X ++ (rel ++ [n]).
Proof.
  intros He Hp Hn. split_and!.
  - by apply (iterdir_of_node X e rel).
  - done.
  - unfold parts at 1. simpl. by rewrite Hp, app_assoc.
Qed.

Lemma entry_eta (f : entry) (e : entry) (t : tree) :
  parent f = parts e -> node f = t -> f = mkEntry (joinpath e (name f)) t.
Proof. destruct f as [[p n] t']. simpl. by intros -> ->. Qed.

Variables T T' : entry.
Hypothesis HwfT : wf T.
Hypothesis Hco : carried_out T (show_ops T) T'.

Lemma rerun_wf : wf T'.
Proof. apply (co_wf _ _ _ Hco). Qed.

Lemma rerun_parts : parts T' = parts T.
Proof. apply (co_parts _ _ _ Hco). Qed.

(** A folder of the first tree is a folder of the second. *)
Lemma kept_dir (e e' G : entry) (rel : list string) :
  entry_in T e -> parts e = parts T ++ rel ->
  entry_in T' e' -> parts e' = parts e ->
  G ∈ iterdir e -> is_dir G = true ->
  exists G' : entry, G' ∈ iterdir e' /\ name G' = name G /\ is_dir G' = true.
Proof.
  intros He Hp He' Hp' HG Hd.
  destruct (entry_in_iterdir T e G rel HwfT Hp He HG) as (HeG & HpG & _).
  assert (dir_at (parts G) T) as Hdir.
  { unfold dir_at. rewrite (entry_in_kind _ _ HeG). unfold is_dir in Hd.
    by destruct (node G). }
  apply (co_dirs_kept _ _ _ Hco) in Hdir.
  apply kind_Some_false in Hdir as [kids Hk].
  unfold parts at 1 in Hk. rewrite HpG, <- Hp' in Hk.
  destruct (down T' e' rel (name G) (Dir kids)) as (Hin & _ & _);
    [done|by rewrite Hp', Hp, rerun_parts|done|].
  eauto.
Qed.

(** The candidate that wins in the second tree wins in the first, if the
    first has it. *)
Lemma winner_back (cand : entry -> option N) (e e' W' W W2 : entry)
    (rel : list string) (k : N) :
  (forall a b : entry, name a = name b -> is_dir a = true -> is_dir b = true ->
     cand a = cand b) ->
  (forall a : entry, cand a = Some k -> is_dir a = true) ->
  entry_in T e -> parts e = parts T ++ rel ->
  entry_in T' e' -> parts e' = parts e ->
  W' ∈ iterdir e' -> cand W' = Some k ->
  (forall G, G ∈ iterdir e' -> cand G = Some k -> String.leb (name G) (name W') = true) ->
  W ∈ iterdir e -> name W = name W' -> is_dir W = true ->
  W2 ∈ iterdir e -> cand W2 = Some k ->
  (forall G, G ∈ iterdir e -> cand G = Some k -> String.leb (name G) (name W2) = true) ->
  W2 = W.
Proof.
  intros Hname Hdir He Hp He' Hp' HW' HcW' Hmax' HW HnW HdW HW2 HcW2 Hmax.
  assert (cand W = Some k) as HcW.
  { rewrite <- HcW'. apply Hname; [done..|]. by apply Hdir. }
  pose proof (Hmax W HW HcW) as H1.
  destruct (kept_dir e e' W2 rel He Hp He' Hp' HW2 (Hdir _ HcW2)) as (G' & HG' & HnG' & HdG').
  assert (cand G' = Some k) as HcG'.
  { rewrite <- HcW2. apply Hname; [done..|]. by apply Hdir. }
  pose proof (Hmax' G' HG' HcG') as H2. rewrite HnG', <- HnW in H2.
  pose proof (String.leb_antisym _ _ H1 H2) as Hn.
  destruct (entry_in_iterdir T e W rel HwfT Hp He HW) as (HeW & HpW & _).
  destruct (entry_in_iterdir T e W2 rel HwfT Hp He HW2) as (HeW2 & HpW2 & _).
  apply (entry_in_unique T); [done..|].
  destruct (path W2) as [p2 n2], (path W) as [p1 n1]. simpl in *. congruence.
Qed.

End Rerun.

Section RerunScans.
Import Shell ShellFacts ShellSteps ShellOps.

Variables T T' : entry.
Hypothesis HwfT : wf T.
Hypothesis Hco : carried_out T (show_ops T) T'.

Lemma cand_season_name (a b : entry) : name a = name b -> cand_season a = cand_season b.
Proof. unfold cand_season. by intros ->. Qed.

Lemma cand_disc_name (s : N) (a b : entry) :
  name a = name b -> is_dir a = true -> is_dir b = true -> cand_disc s a = cand_disc s b.
Proof. unfold cand_disc. by intros -> -> ->. Qed.

Lemma cand_disc_dir (s d : N) (a : entry) : cand_disc s a = Some d -> is_dir a = true.
Proof. unfold cand_disc. by destruct (is_dir a). Qed.

(** The season folder of the second tree is the season folder of the
    first, if the first has a folder of this name. *)
Lemma season_back (F' : entry) (s : N) (kF : list (string * tree)) :
  folder_map T' !! s = Some (Folder F') ->
  node_at (parts T ++ [name F']) T = Some (Dir kF) ->
  folder_map T !! s = Some (Folder (mkEntry (joinpath T (name F')) (Dir kF))).
Proof.
  intros (HF' & HdF' & HcF' & Hmax')%season_winner Hk.
  set (F := mkEntry (joinpath T (name F')) (Dir kF)).
  destruct (down T T [] (name F') (Dir kF)) as (HF & HeF & HpF);
    [apply entry_in_self|by rewrite app_nil_r|done|]. fold F in HF, HeF, HpF.
  destruct (season_some T s F HF) as [F2 HF2];
    [done|by rewrite (cand_season_name F F')|].
  rewrite HF2. do 2 f_equal.
  apply season_winner in HF2 as (HF2 & HdF2 & HcF2 & Hmax).
  apply (winner_back T T' HwfT Hco
           (fun G => if is_dir G then cand_season G else None) T T' F' F F2 [] s).
  - intros a b Hn -> ->. by apply cand_season_name.
  - intros a. by destruct (is_dir a).
  - apply entry_in_self.
  - by rewrite app_nil_r.
  - apply entry_in_self.
  - apply (rerun_parts T T' Hco).
  - done.
  - by rewrite HdF'.
  - intros G HG HcG. destruct (is_dir G) eqn:HdG; [|done]. by apply Hmax'.
  - done.
  - done.
  - done.
  - done.
  - by rewrite HdF2.
  - intros G HG HcG. destruct (is_dir G) eqn:HdG; [|done]. by apply Hmax.
Qed.

(** The same for the disc folders of a season folder. *)
Lemma disc_back (F F' D' : entry) (rel : list string) (s d : N)
    (kD : list (string * tree)) :
  entry_in T F -> parts F = parts T ++ rel ->
  entry_in T' F' -> parts F' = parts F ->
  disc_map F' s !! d = Some D' ->
  node_at (parts F ++ [name D']) T = Some (Dir kD) ->
  disc_map F s !! d = Some (mkEntry (joinpath F (name D')) (Dir kD)).
Proof.
  intros HeF HpF HeF' HpF' (HD' & HcD' & Hmax')%disc_winner Hk.
  set (D := mkEntry (joinpath F (name D')) (Dir kD)).
  destruct (down T F rel (name D') (Dir kD)) as (HD & HeD & HpD); [done..|].
  fold D in HD, HeD, HpD.
  destruct (disc_some F s d D HD) as [D2 HD2].
  { rewrite <- HcD'. apply cand_disc_name; [done..|]. by apply (cand_disc_dir s d). }
  rewrite HD2. f_equal.
  apply disc_winner in HD2 as (HD2 & HcD2 & Hmax).
  apply (winner_back T T' HwfT Hco (cand_disc s) F F' D' D D2 rel d); try done.
  - intros a b. apply cand_disc_name.
  - intros a. apply cand_disc_dir.
Qed.

Lemma folder_map_folder (X : entry) (s : N) (slot : season_slot) :
  folder_map X !! s = Some slot -> exists F, slot = Folder F.
Proof.
  rewrite folder_map_fold.
  intros [(_ & x & _ & _ & _ & -> & _)|[? _]]%file_under_lookup; [eauto|done].
Qed.

Lemma seasons_of_root_none (X : entry) (s : N) :
  seasons_of X !! s = Some CREATE_ROOT_S1 -> folder_map X !! 1 = None.
Proof.
  unfold seasons_of, build_seasons_map. fold (folder_map X).
  destruct (_ && _).
  - destruct (folder_map X !! 1) eqn:H1; [|done].
    by intros [F [=]]%folder_map_folder.
  - by intros [F [=]]%folder_map_folder.
Qed.

Lemma seasons_of_root_made (X : entry) :
  root_files_of X <> [] ->
  (forall f : entry, f ∈ root_files_of X -> should_ignore_file (name f) = false) ->
  folder_map X !! 1 = None ->
  seasons_of X !! 1 = Some CREATE_ROOT_S1.
Proof.
  intros Hne Hall H1. unfold seasons_of, build_seasons_map. fold (folder_map X).
  rewrite (existsb_ignore_false _ Hall), H1.
  destruct (root_files_of X); [done|]. simpl. by rewrite lookup_insert_eq.
Qed.

Lemma op_not_ignored (X : entry) (op : operation) :
  op ∈ show_ops X -> should_ignore_file (name (original op)) = false.
Proof.
  intros (s & slot & f & e & Hs & Ha & Hop)%show_ops_elem.
  apply assignments_elem in Ha as [_ Hi]. apply op_of_Some in Hop as (-> & _). done.
Qed.

End RerunScans.

Section RerunSettled.
Import Shell ShellFacts ShellSteps ShellOps.

Variables T T' : entry.
Hypothesis HwfT : wf T.
Hypothesis Hco : carried_out T (show_ops T) T'.

(** A file numbered by the first run that gets no operation has its
    canonical name. *)
Lemma unplanned_canonical (s : N) (F f : entry) :
  seasons_of T !! s = Some (Folder F) ->
  f ∈ season_files F [] s false ->
  should_ignore_file (name f) = false ->
  (forall op, op ∈ show_ops T -> parts f <> parts (original op)) ->
  exists e, e <> 0 /\ name f = target_name s e f.
Proof.
  intros Hs Hf Hi Hno.
  destruct (assignments_covers (season_files F [] s false) 0 f Hf Hi) as [e He].
  exists e. split; [apply (assignments_positive _ _ _ He)|].
  destruct (op_of s false (f, e)) as [op|] eqn:Hop.
  - exfalso. apply (Hno op).
    + apply show_ops_elem. exists s, (Folder F), f, e. done.
    + apply op_of_Some in Hop as (-> & _). done.
  - unfold op_of in Hop. simpl in Hop. rewrite orb_false_r in Hop.
    destruct (String.eqb (name f) (target_name s e f)) eqn:Heq; [|done].
    by apply String.eqb_eq.
Qed.

(** A file the second tree holds at the destination of an operation has
    the canonical name of the season of its folder. *)
Lemma moved_canonical (s : N) (F' f : entry) (rest : list string) (op : operation) :
  cand_season F' = Some s ->
  parent f = parts T ++ name F' :: rest ->
  op ∈ show_ops T -> parts f = parts (dest_file op) ->
  exists e, e <> 0 /\ name f = target_name s e f.
Proof.
  intros Hc Hp Hop Hq.
  destruct (op_located T op HwfT Hop) as (_ & (top & rest2 & Hd & Htop) & _ & e & He & Hn).
  unfold parts in Hq. apply app_inj_tail in Hq as [Hpar Hname].
  rewrite Hp, Hd in Hpar. apply app_inv_head in Hpar. injection Hpar as Ht _.
  rewrite (Htop F') in Hc by done. injection Hc as Hs.
  rewrite dest_file_name, Hn, Hs in Hname.
  exists e. split; [done|]. unfold target_name.
  rewrite (suffix_target_name s e (original op) f Hname). exact Hname.
Qed.

(** In the second tree every file of a season folder is settled. *)
Lemma rerun_folder_files (s : N) (F' f : entry) :
  seasons_of T' !! s = Some (Folder F') ->
  f ∈ season_files F' [] s false ->
  canonical_in s f.
Proof.
  intros Hs Hf. pose proof (rerun_wf T T' Hco) as HwfT'.
  pose proof (rerun_parts T T' Hco) as Hparts.
  destruct (should_ignore_file (name f)) eqn:Hi; [by left|right].
  pose proof Hs as HF'%seasons_of_folder.
  pose proof HF' as (HinF' & HdF' & HcF' & _)%season_winner.
  destruct (entry_in_top T' F' HwfT' HinF') as (HeF' & HparF' & HpF').
  rewrite Hparts in HpF'.
  apply elem_of_season_files in Hf as [[Hf Hv]|(d & D' & HD' & Hf & Hv)].
  - destruct (entry_in_iterdir T' F' f [name F'] HwfT') as (Hef & Hpf & _);
      [by rewrite Hparts|done..|].
    assert (file_at (parts f) T') as Hfile.
    { unfold file_at. rewrite (entry_in_kind _ _ Hef), (is_video_file _ Hv). done. }
    apply (co_files _ _ _ Hco) in Hfile as [(op & Hop & Hq)|[HfT Hno]].
    { apply (moved_canonical s F' f [] op); try done. by rewrite Hpf. }
    apply kind_Some_true in HfT. unfold parts at 1 in HfT. rewrite Hpf, HpF' in HfT.
    destruct (parent_dir T _ _ _ HfT) as [kF HkF].
    pose proof (season_back T T' HwfT Hco F' s kF HF' HkF) as HF.
    set (F := mkEntry (joinpath T (name F')) (Dir kF)) in *.
    destruct (down T T [] (name F') (Dir kF)) as (HinF & HeF & HpF);
      [apply entry_in_self|by rewrite app_nil_r|done|]. fold F in HinF, HeF, HpF.
    change ([] ++ [name F']) with [name F'] in HpF.
    destruct (down T F [name F'] (name f) File) as (Hin & _ & _); [done..|by rewrite HpF|].
    rewrite <- (entry_eta f F File) in Hin;
      [|by rewrite Hpf, HpF', HpF|by apply is_video_file].
    apply (unplanned_canonical s F f); try done.
    + by apply seasons_of_folder.
    + apply elem_of_season_files. by left.
  - pose proof HD' as (HinD' & HcD' & _)%disc_winner.
    destruct (entry_in_iterdir T' F' D' [name F'] HwfT') as (HeD' & HparD' & HpD');
      [by rewrite Hparts|done..|].
    rewrite Hparts in HpD'.
    destruct (entry_in_iterdir T' D' f ([name F'] ++ [name D']) HwfT') as (Hef & Hpf & _);
      [by rewrite Hparts|done..|].
    assert (file_at (parts f) T') as Hfile.
    { unfold file_at. rewrite (entry_in_kind _ _ Hef), (is_video_file _ Hv). done. }
    apply (co_files _ _ _ Hco) in Hfile as [(op & Hop & Hq)|[HfT Hno]].
    { apply (moved_canonical s F' f [name D'] op); try done. by rewrite Hpf, HpD'. }
    apply kind_Some_true in HfT. unfold parts at 1 in HfT. rewrite Hpf, HpD' in HfT.
    destruct (parent_dir T _ _ _ HfT) as [kD HkD].
    rewrite app_assoc in HkD.
    destruct (parent_dir T _ _ _ HkD) as [kF HkF].
    pose proof (season_back T T' HwfT Hco F' s kF HF' HkF) as HF.
    set (F := mkEntry (joinpath T (name F')) (Dir kF)) in *.
    destruct (down T T [] (name F') (Dir kF)) as (HinF & HeF & HpF);
      [apply entry_in_self|by rewrite app_nil_r|done|]. fold F in HinF, HeF, HpF.
    change ([] ++ [name F']) with [name F'] in HpF.
    assert (disc_map F s !! d = Some (mkEntry (joinpath F (name D')) (Dir kD))) as HD.
    { apply (disc_back T T' HwfT Hco F F' D' [name F'] s d kD); try done;
        by rewrite HpF. }
    set (D := mkEntry (joinpath F (name D')) (Dir kD)) in *.
    destruct (down T F [name F'] (name D') (Dir kD)) as (HinD & HeD & HpD);
      [done|done|by rewrite HpF|]. fold D in HinD, HeD, HpD.
    destruct (down T D ([name F'] ++ [name D']) (name f) File) as (Hin & _ & _);
      [done|done|by rewrite HpD|].
    rewrite <- (entry_eta f D File) in Hin;
      [|by rewrite Hpf, HpD', HpD|by apply is_video_file].
    apply (unplanned_canonical s F f); try done.
    + by apply seasons_of_folder.
    + apply elem_of_season_files. right. exists d, D. done.
Qed.

End RerunSettled.

Section RerunRoot.
Import Shell ShellFacts ShellSteps ShellOps.

Variables T T' : entry.
Hypothesis HwfT : wf T.
Hypothesis Hco : carried_out T (show_ops T) T'.

(** A video file directly in the second tree was directly in the first,
    and no operation was planned for it. *)
Lemma root_file_back (f : entry) :
  f ∈ root_files_of T' ->
  f ∈ root_files_of T /\ forall op, op ∈ show_ops T -> parts f <> parts (original op).
Proof.
  intros [Hin Hv]%elem_of_root_files_of.
  pose proof (rerun_wf T T' Hco) as HwfT'. pose proof (rerun_parts T T' Hco) as Hparts.
  destruct (entry_in_top T' f HwfT' Hin) as (Hef & Hpf & _).
  assert (file_at (parts f) T') as Hfile.
  { unfold file_at. rewrite (entry_in_kind _ _ Hef), (is_video_file _ Hv). done. }
  apply (co_files _ _ _ Hco) in Hfile as [(op & Hop & Hq)|[HfT Hno]].
  { exfalso.
    destruct (op_located T op HwfT Hop) as (_ & (top & rest & Hd & _) & _).
    unfold parts in Hq. apply app_inj_tail in Hq as [Hpar _].
    rewrite Hpf, Hparts, Hd in Hpar. rewrite <- (app_nil_r (parts T)) in Hpar at 1.
    by apply app_inv_head in Hpar. }
  split; [|done]. apply elem_of_root_files_of. split; [|done].
  apply kind_Some_true in HfT. unfold parts at 1 in HfT. rewrite Hpf, Hparts in HfT.
  destruct (down T T [] (name f) File) as (HinT & _ & _);
    [apply entry_in_self|by rewrite app_nil_r|done|].
  rewrite <- (entry_eta f T File) in HinT; [done|by rewrite Hpf|by apply is_video_file].
Qed.

(** A video file directly in the first tree with an ignored name stays. *)
Lemma ignored_root_file_kept (g : entry) :
  g ∈ root_files_of T -> should_ignore_file (name g) = true -> g ∈ root_files_of T'.
Proof.
  intros [Hin Hv]%elem_of_root_files_of Hi.
  pose proof (rerun_parts T T' Hco) as Hparts.
  destruct (entry_in_top T g HwfT Hin) as (Heg & Hpg & _).
  assert (file_at (parts g) T') as Hfile.
  { apply (co_kept _ _ _ Hco).
    - unfold file_at. rewrite (entry_in_kind _ _ Heg), (is_video_file _ Hv). done.
    - intros op Hop Hq. apply op_not_ignored in Hop.
      unfold parts in Hq. apply app_inj_tail in Hq as [_ Hn]. congruence. }
  apply elem_of_root_files_of. split; [|done].
  apply kind_Some_true in Hfile. unfold parts at 1 in Hfile. rewrite Hpg, <- Hparts in Hfile.
  destruct (down T' T' [] (name g) File) as (HinT' & _ & _);
    [apply entry_in_self|by rewrite app_nil_r|done|].
  rewrite <- (entry_eta g T' File) in HinT'; [done|by rewrite Hpg|by apply is_video_file].
Qed.

(** The second run makes no season of the root files. *)
Lemma rerun_no_root (s : N) : seasons_of T' !! s <> Some CREATE_ROOT_S1.
Proof.
  intros Hs. pose proof (seasons_of_root_none _ _ Hs) as Hnone.
  apply seasons_of_root in Hs as (-> & Hne & Hall).
  destruct (root_files_of T') as [|f l] eqn:Hl; [done|].
  assert (f ∈ root_files_of T') as Hf by (rewrite Hl; left).
  rewrite <- Hl in Hall. clear Hne Hl l.
  destruct (root_file_back f Hf) as [HfT Hno].
  assert (forall g : entry, g ∈ root_files_of T -> should_ignore_file (name g) = false)
    as HallT.
  { intros g Hg. destruct (should_ignore_file (name g)) eqn:Hi; [|done].
    rewrite <- (Hall g); [done|]. by apply ignored_root_file_kept. }
  destruct (folder_map T !! 1) as [slot|] eqn:H1.
  - destruct (folder_map_folder _ _ _ H1) as [F ->].
    apply season_winner in H1 as (HF & Hd & Hc & _).
    destruct (kept_dir T T' HwfT Hco T T' F []) as (G' & HG' & Hn & Hd');
      [apply entry_in_self|by rewrite app_nil_r|apply entry_in_self
      |apply (rerun_parts T T' Hco)|done|done|].
    destruct (season_some T' 1 G' HG' Hd') as [F2 HF2];
      [by rewrite (cand_season_name G' F)|congruence].
  - assert (seasons_of T !! 1 = Some CREATE_ROOT_S1) as Hroot.
    { apply seasons_of_root_made; [|done..]. intros Hnil. rewrite Hnil in HfT.
      by apply elem_of_nil in HfT. }
    assert (f ∈ slot_files T (1, CREATE_ROOT_S1)) as Hsf.
    { unfold slot_files. simpl. by apply elem_of_root_season_files. }
    destruct (assignments_covers _ 0 f Hsf (HallT f HfT)) as [e He].
    apply (Hno (mkOp f (target_name 1 e f) 1 true)); [|done].
    apply show_ops_elem. exists 1, CREATE_ROOT_S1, f, e. split_and!; [done..|].
    unfold op_of. simpl. by rewrite orb_true_r.
Qed.

(** After the script has taken effect, every season is a folder whose
    numbered files carry their canonical names. *)
Lemma rerun_settled : settled T'.
Proof.
  intros s slot Hs. destruct slot as [F'|].
  - exists F'. split; [done|]. intros f Hf. by apply (rerun_folder_files T T' HwfT Hco s F').
  - by apply rerun_no_root in Hs.
Qed.

End RerunRoot.

Lemma wf_tree_lookup (rel : list string) (t : tree) (kids : list (string * tree)) :
  wf_tree t = true -> Shell.lookup rel t = Some (Dir kids) -> NoDup (map fst kids).
Proof.
  revert t. induction rel as [|n rel IH]; intros t Hwf; simpl.
  - intros [= ->]. simpl in Hwf. apply andb_prop in Hwf as [Hnd _].
    by apply bool_decide_eq_true in Hnd.
  - destruct t as [|ks]; [done|]. simpl in Hwf. apply andb_prop in Hwf as [_ Hall].
    destruct (Shell.lookup_child n ks) as [c|] eqn:Hc; [|done].
    apply IH. rewrite forallb_forall in Hall.
    apply ShellFacts.lookup_child_elem, list_elem_of_In in Hc. apply (Hall _ Hc).
Qed.

Lemma wf_tree_wf (fs : entry) : wf_tree (node fs) = true -> wf fs.
Proof.
  intros Hwf p kids. unfold Shell.node_at. destruct (Shell.strip _ _); [|done].
  by apply wf_tree_lookup.
Qed.


(** * Further properties of the planner *)

(** ** What a match of a pattern needs *)

Module ReMore.
Import Text Re TextFacts ReFacts.

Lemma star_suffix (p : ascii -> bool) (k : cont) (s : string) (c : caps)
    (res : caps * string) :
  star p k s c = Some res -> exists pre v, s = pre +:+ v /\ k v c = Some res.
Proof.
  induction s as [|a s IH]; simpl.
  - intros H. by exists "", "".
  - destruct (p a).
    + destruct (star p k s c) as [r|] eqn:Hs.
      * intros [= <-]. destruct (IH eq_refl) as (pre & v & -> & Hk).
        by exists (String a pre), v.
      * intros H. by exists "", (String a s).
    + intros H. by exists "", (String a s).
Qed.

(** A match hands to its continuation a tail of the text. *)
Lemma mt_suffix (ic : bool) (r : regex) (k : cont) (s : string) (c : caps)
    (res : caps * string) :
  mt ic r k s c = Some res ->
  exists pre v c', s = pre +:+ v /\ k v c' = Some res.
Proof.
  revert k s c. induction r as [a|p|r1 IH1 r2 IH2|r1 IH1 r2 IH2|r1 IH1|p|i r1 IH1];
    intros k s c; simpl.
  - destruct s as [|b s]; [done|]. destruct (chr_ok ic a b); [|done].
    intros H. by exists (String b ""), s, c.
  - destruct s as [|b s]; [done|]. destruct (p b); [|done].
    intros H. by exists (String b ""), s, c.
  - intros (pre & v & c' & -> & H)%IH1.
    apply IH2 in H as (pre2 & v2 & c2 & -> & H).
    exists (pre +:+ pre2), v2, c2. by rewrite append_assoc.
  - destruct (mt ic r1 k s c) as [x|] eqn:H1.
    + intros [= <-]. by apply IH1 in H1.
    + apply IH2.
  - destruct (mt ic r1 k s c) as [x|] eqn:H1.
    + intros [= <-]. by apply IH1 in H1.
    + intros H. by exists "", s, c.
  - destruct s as [|b s]; [done|]. destruct (p b); [|done].
    intros (pre & v & -> & H)%star_suffix. by exists (String b pre), v, c.
  - intros (pre & v & c' & -> & H)%IH1. eauto.
Qed.

Lemma mt_plus_head (ic : bool) (p : ascii -> bool) (k : cont) (s : string) (c : caps)
    (res : caps * string) :
  mt ic (Plus p) k s c = Some res -> exists b s', s = String b s' /\ p b = true.
Proof.
  simpl. destruct s as [|b s]; [done|]. destruct (p b) eqn:Hp; [|done]. eauto.
Qed.

(** [re.search] finds a match at some tail of the text, and finds one
    whenever some tail has one. *)
Lemma search_suffix (ic : bool) (r : regex) (s : string) (c : caps) :
  search ic r s = Some c ->
  exists pre v rest, s = pre +:+ v /\ mt ic r accept v [] = Some (c, rest).
Proof.
  induction s as [|a s IH]; simpl.
  - destruct (mt ic r accept "" []) as [[c' rest]|] eqn:Hm; [|done].
    intros [= <-]. by exists "", "", rest.
  - destruct (mt ic r accept (String a s) []) as [[c' rest]|] eqn:Hm.
    + intros [= <-]. by exists "", (String a s), rest.
    + intros (pre & v & rest & -> & H)%IH. by exists (String a pre), v, rest.
Qed.

Lemma search_of_suffix (ic : bool) (r : regex) (pre v : string) :
  mt ic r accept v [] <> None -> search ic r (pre +:+ v) <> None.
Proof.
  intros Hv. induction pre as [|a pre IH].
  - rewrite append_nil_l. destruct v as [|b v]; simpl;
      by destruct (mt ic r accept _ []) as [[? ?]|].
  - rewrite append_cons. simpl.
    by destruct (mt ic r accept (String a (pre +:+ v)) []) as [[? ?]|].
Qed.

Lemma no_digits_app (a b : string) :
  no_digits (a +:+ b) = no_digits a && no_digits b.
Proof.
  induction a as [|x a IH]; [by rewrite append_nil_l|].
  rewrite append_cons. simpl. by rewrite IH, andb_assoc.
Qed.

(** A match of a run of digits, here or later, needs a digit. *)
Lemma mt_digits_needs_digit (ic : bool) (r : regex) (i : nat) (k : cont)
    (s : string) (c : caps) (res : caps * string) :
  mt ic (Seq r (Grp i (Plus is_digit))) k s c = Some res -> no_digits s = false.
Proof.
  rewrite mt_Seq. intros (pre & v & c' & -> & H)%mt_suffix.
  simpl in H. destruct v as [|b v]; [done|].
  destruct (is_digit b) eqn:Hb; [|done].
  rewrite no_digits_app. simpl. rewrite Hb. apply andb_false_r.
Qed.

Lemma search_needs_digit (ic : bool) (r : regex) (s : string) :
  (forall v c res, mt ic r accept v c = Some res -> no_digits v = false) ->
  no_digits s = true -> search ic r s = None.
Proof.
  intros Hr Hs. destruct (search ic r s) as [c|] eqn:Hm; [|done].
  apply search_suffix in Hm as (pre & v & rest & -> & Hm).
  apply Hr in Hm. rewrite no_digits_app, Hm, andb_false_r in Hs. done.
Qed.

Lemma sub_empty_no_digits (ic : bool) (r : regex) (s : string) (skip : nat) :
  no_digits s = true -> no_digits (sub_empty ic r s skip) = true.
Proof.
  revert skip. induction s as [|a s IH]; intros skip; [done|]. simpl.
  intros [Ha Hs]%andb_prop. destruct skip as [|n]; [|by apply IH].
  destruct (mt ic r accept (String a s) []) as [[c rest]|].
  - destruct (_ - _)%nat; [|by apply IH]. simpl. by rewrite Ha, IH.
  - simpl. by rewrite Ha, IH.
Qed.

End ReMore.

(** ** Names without a number *)

Section NoNumber.
Import Text Re TextFacts ReFacts ReMore.

Lemma season_re_needs_digit (v : string) (c : caps) (res : caps * string) :
  mt true season_re accept v c = Some res -> no_digits v = false.
Proof.
  intros H.
  apply (mt_digits_needs_digit true
           (Seq (Alt (lit "season") (Alt (lit "staffel") (lit "s"))) (Opt (Cls sep)))
           1 accept v c res).
  exact H.
Qed.

Lemma disc_re_needs_digit (v : string) (c : caps) (res : caps * string) :
  mt true disc_re accept v c = Some res -> no_digits v = false.
Proof.
  intros H.
  apply (mt_digits_needs_digit true
           (Seq (Alt (lit "disc") (Alt (lit "disk") (Alt (lit "dvd") (lit "d"))))
                (Opt (Cls sep)))
           1 accept v c res).
  exact H.
Qed.

Lemma sd_re_needs_digit (v : string) (c : caps) (res : caps * string) :
  mt true sd_re accept v c = Some res -> no_digits v = false.
Proof.
  intros H.
  apply (mt_digits_needs_digit true
           (Seq (Chr "s") (Seq (Grp 1 (Plus is_digit)) (Chr "d"))) 2 accept v c res).
  exact H.
Qed.

Lemma episode_re_needs_digit (v : string) (c : caps) (res : caps * string) :
  mt false episode_re accept v c = Some res -> no_digits v = false.
Proof.
  intros H.
  apply (mt_digits_needs_digit false
           (Seq (Cls (one_of "sS")) (Seq (Plus is_digit) (Cls (one_of "eE"))))
           1 accept v c res).
  exact H.
Qed.

(** X1: a name without a decimal digit gives no season number, no disc
    number (whatever the season) and no episode number. *)
Theorem X1_no_digit_no_number (n : string) (s : N) :
  no_digits n = true ->
  get_clean_season_num n = None /\
  get_clean_disc_num n s = None /\
  get_episode_from_file n = None.
Proof.
  intros Hn. split_and!.
  - unfold get_clean_season_num.
    by rewrite (search_needs_digit true season_re n season_re_needs_digit Hn).
  - unfold get_clean_disc_num. cbv zeta.
    rewrite (search_needs_digit true disc_re _ disc_re_needs_digit
               (sub_empty_no_digits true _ n 0 Hn)).
    by rewrite (search_needs_digit true sd_re n sd_re_needs_digit Hn).
  - unfold get_episode_from_file.
    by rewrite (search_needs_digit false episode_re n episode_re_needs_digit Hn).
Qed.

Lemma X1_no_digit_no_number_witness :
  get_clean_season_num "Specials" = None /\
  get_clean_disc_num "Specials" 1 = None /\
  get_episode_from_file "Specials" = None.
Proof. apply (X1_no_digit_no_number "Specials" 1). reflexivity. Defined.

End NoNumber.

(** ** Canonical names are read back *)

Section ReadBack.
Import Text Re TextFacts ReFacts ReMore.

Lemma map_chars_app (f : ascii -> ascii) (a b : string) :
  map_chars f (a +:+ b) = map_chars f a +:+ map_chars f b.
Proof.
  induction a as [|x a IH]; [by rewrite !append_nil_l|].
  simpl. rewrite !append_cons. simpl. by rewrite IH.
Qed.

Lemma upper_char_digit (a : ascii) : is_digit a = true -> upper_char a = a.
Proof.
  destruct a as [[] [] [] [] [] [] [] []]; intros H; vm_compute in H |- *; congruence.
Qed.

Lemma upper_digits (ds : string) : all_digits ds = true -> upper ds = ds.
Proof.
  induction ds as [|a ds IH]; [done|]. simpl. intros [Ha Hds]%andb_prop.
  unfold upper in *. simpl. by rewrite (upper_char_digit a Ha), IH.
Qed.

Lemma prefix_head (a b : ascii) (k s : string) :
  String.prefix (String a k) (String b s) = true -> a = b.
Proof. simpl. by destruct (ascii_dec a b). Qed.

(** A keyword that begins with a letter does not occur in a run of digits. *)
Lemma contains_digits (a : ascii) (k ds : string) :
  is_digit a = false -> all_digits ds = true -> contains (String a k) ds = false.
Proof.
  intros Ha. induction ds as [|b ds IH]; [done|].
  intros [Hb Hds]%andb_prop. cbn [contains]. rewrite (IH Hds), orb_false_r.
  destruct (String.prefix (String a k) (String b ds)) eqn:Hp; [|done].
  apply prefix_head in Hp as ->. congruence.
Qed.

Lemma season_name_match (ds : string) :
  ds <> "" -> all_digits ds = true ->
  mt true season_re accept ("Season " +:+ ds) [] = Some ([(1%nat, ds)], "").
Proof.
  intros Hne Hds. unfold season_re.
  rewrite mt_Seq, mt_Alt, mt_lit by done.
  assert (strip_ci "season" ("Season " +:+ ds) = Some (String " " ds)) as ->.
  { rewrite !append_cons, append_nil_l. reflexivity. }
  rewrite mt_Seq, mt_Opt, mt_Cls. change (sep " ") with true. cbv iota.
  pose proof (group_digits true 1 ds "" [] Hne Hds eq_refl) as H.
  rewrite append_nil_r in H. by rewrite H.
Qed.

(** X3: the folder name [Season n] that the report proposes for season [n]
    is read back as season [n], and it carries no ignore keyword: a folder
    of this name is filed under [n] in the season map. *)
Theorem X3_season_name_read_back (n : N) (m : gmap N season_slot) (folder : entry) :
  name folder = "Season " +:+ Text.str n ->
  get_clean_season_num (name folder) = Some n /\
  map_folder m folder = <[n := Folder folder]> m.
Proof.
  intros Hname.
  assert (get_clean_season_num (name folder) = Some n) as Hs.
  { rewrite Hname. unfold get_clean_season_num.
    rewrite (search_here _ _ _ _ _
               (season_name_match (str n) (str_nonempty n) (all_digits_str n))).
    simpl. by rewrite int_str. }
  split; [done|]. unfold map_folder. rewrite Hs.
  assert (folder_ignored (name folder) = false) as ->; [|done].
  rewrite Hname. unfold folder_ignored, upper. rewrite map_chars_app.
  fold (upper (str n)). rewrite (upper_digits _ (all_digits_str n)).
  change (map_chars upper_char "Season ") with "SEASON ".
  rewrite !append_cons, append_nil_l.
  unfold FOLDER_IGNORE_KEYWORDS. cbn [existsb contains String.prefix].
  repeat match goal with
         | |- context [ascii_dec ?a ?b] =>
             let r := eval vm_compute in (ascii_dec a b) in
             change (ascii_dec a b) with r; cbv iota
         end.
  repeat match goal with
         | |- context [contains (String ?a ?k) (str n)] =>
             rewrite (contains_digits a k (str n) eq_refl (all_digits_str n))
         end.
  reflexivity.
Qed.

Lemma X3_season_name_read_back_witness :
  get_clean_season_num "Season 12" = Some 12 /\
  map_folder ∅ (Examples.season_folder "Season 12" [])
  = <[12 := Folder (Examples.season_folder "Season 12" [])]> ∅.
Proof.
  apply (X3_season_name_read_back 12 ∅ (Examples.season_folder "Season 12" [])).
  reflexivity.
Defined.

End ReadBack.

Section ReadBackFiles.
Import Text Re TextFacts ReFacts ReMore.

(** X2: the name [SxxEyy.ext] the planner builds for a file is read back
    with the episode number [yy] it was built from. *)
Theorem X2_episode_read_back (s e : N) (p : Path) :
  get_episode_from_file (target_name s e p) = Some e.
Proof. apply episode_of_target_name. Qed.

(** X4: a file of a season folder that already bears the canonical name
    of the season, with an episode number other than 0, is left alone:
    nothing is logged, no operation is recorded, and the counter rises to
    the number of the file if it was below. *)
Theorem X4_canonical_file_left_alone (f : entry) (s e c : N) (indent : nat) (st : state) :
  e <> 0 -> name f = target_name s e f ->
  plan_file_rename f s c indent false st = (N.max c e, st).
Proof.
  intros He Hname.
  assert (get_episode_from_file (name f) = Some e) as Hget.
  { rewrite Hname. apply episode_of_target_name. }
  unfold plan_file_rename. destruct st as [logs self]. rewrite Hget.
  rewrite (assign_episode_explicit e c He).
  apply String.eqb_eq in Hname. rewrite Hname. simpl. done.
Qed.

Lemma X4_canonical_file_left_alone_witness :
  plan_file_rename
    (mkEntry (mkPath [""; "media"; "Show"; "Season 2"] "S02E07.mkv") File)
    2 3 2 false ([], init)
  = (7, ([], init)).
Proof.
  apply (X4_canonical_file_left_alone
           (mkEntry (mkPath [""; "media"; "Show"; "Season 2"] "S02E07.mkv") File)
           2 7 3 2 ([], init)).
  - done.
  - reflexivity.
Defined.

End ReadBackFiles.

Section ReadBackDisc.
Import Text Re TextFacts ReFacts ReMore.

Lemma chr_ok_refl (ic : bool) (a : ascii) : chr_ok ic a a = true.
Proof. unfold chr_ok. destruct ic; apply Ascii.eqb_refl. Qed.

Lemma strip_ci_self (tok rest : string) : strip_ci tok (tok +:+ rest) = Some rest.
Proof.
  induction tok as [|a tok IH]; [by rewrite append_nil_l|].
  rewrite append_cons. cbn [strip_ci]. by rewrite chr_ok_refl.
Qed.

Lemma sub_empty_skip (ic : bool) (r : regex) (a b : string) :
  sub_empty ic r (a +:+ b) (String.length a) = sub_empty ic r b 0.
Proof.
  induction a as [|x a IH]; [by rewrite append_nil_l|].
  rewrite append_cons. simpl. apply IH.
Qed.

(** One step of [re.sub] at a match, and at a character where nothing
    matches. *)
Lemma sub_empty_match (ic : bool) (r : regex) (a : ascii) (s' rest : string)
    (c : caps) (n : nat) :
  mt ic r accept (String a s') [] = Some (c, rest) ->
  (String.length (String a s') - String.length rest)%nat = S n ->
  sub_empty ic r (String a s') 0 = sub_empty ic r s' n.
Proof. intros Hm Hl. cbn [sub_empty]. by rewrite Hm, Hl. Qed.

Lemma sub_empty_keep (x : string) (a : ascii) (t : string) :
  chr_ok true "s" a = false ->
  sub_empty true (lit (String "s" x)) (String a t) 0
  = String a (sub_empty true (lit (String "s" x)) t 0).
Proof.
  intros Ha. cbn [sub_empty]. rewrite mt_lit by done. cbn [strip_ci]. by rewrite Ha.
Qed.

Lemma sub_empty_digits (x ds : string) :
  all_digits ds = true -> sub_empty true (lit (String "s" x)) ds 0 = ds.
Proof.
  induction ds as [|b ds IH]; [done|]. intros [Hb Hds]%andb_prop.
  rewrite sub_empty_keep, IH; [done..|].
  apply chr_ok_letter; [done|by rewrite Hb].
Qed.

Lemma disc_name_temp (ds dd : string) :
  all_digits dd = true ->
  sub_empty true (lit ("s" +:+ ds)) ("S" +:+ ds +:+ "D" +:+ dd) 0 = String "D" dd.
Proof.
  intros Hdd. rewrite !append_cons, !append_nil_l.
  rewrite (sub_empty_match true _ "S" _ (String "D" dd) [] (String.length ds)).
  - rewrite sub_empty_skip, sub_empty_keep by done. by rewrite sub_empty_digits.
  - rewrite mt_lit by done. cbn [strip_ci]. change (chr_ok true "s" "S") with true.
    cbv iota. by rewrite strip_ci_self.
  - cbn [String.length]. rewrite length_append. cbn [String.length]. lia.
Qed.

Lemma disc_name_match (dd : string) :
  dd <> "" -> all_digits dd = true ->
  mt true disc_re accept (String "D" dd) [] = Some ([(1%nat, dd)], "").
Proof.
  intros Hne Hdd. destruct dd as [|b dd']; [done|].
  pose proof Hdd as Hdd'. simpl in Hdd'. apply andb_prop in Hdd' as [Hb _].
  assert ((is_digit b || sep b) = true) as Hbs by (by rewrite Hb).
  unfold disc_re. rewrite mt_Seq, !mt_Alt, !mt_lit by done. cbn [strip_ci].
  change (chr_ok true "d" "D") with true. cbv iota.
  rewrite (chr_ok_letter "i" b eq_refl Hbs), (chr_ok_letter "v" b eq_refl Hbs).
  rewrite mt_Seq, mt_Opt, mt_Cls, (digit_not_sep b Hb).
  pose proof (group_digits true 1 (String b dd') "" [] Hne Hdd eq_refl) as H.
  rewrite append_nil_r in H. by rewrite H.
Qed.

(** X5: the folder name [S{s}D{d}] that the report proposes for disc [d]
    of season [s] is read back, in season [s], as disc [d]. *)
Theorem X5_disc_name_read_back (s d : N) :
  get_clean_disc_num ("S" +:+ Text.str s +:+ "D" +:+ Text.str d) s = Some d.
Proof.
  unfold get_clean_disc_num. cbv zeta.
  rewrite (disc_name_temp (str s) (str d) (all_digits_str d)).
  rewrite (search_here _ _ _ _ _
             (disc_name_match (str d) (str_nonempty d) (all_digits_str d))).
  simpl. by rewrite int_str.
Qed.

End ReadBackDisc.

(** ** The second pattern of the disc number *)

Section DiscFallback.
Import Text Re TextFacts ReFacts ReMore.

Lemma d_digit_app_r (pre v : string) : d_digit v = true -> d_digit (pre +:+ v) = true.
Proof.
  intros Hv. induction pre as [|a pre IH]; [by rewrite append_nil_l|].
  rewrite append_cons. cbn [d_digit]. by rewrite IH, orb_true_r.
Qed.

(** A match of [s(\d+)d(\d+)] has a [d] directly followed by a digit. *)
Lemma sd_re_d_digit (s : string) (m : caps) :
  search true sd_re s = Some m -> d_digit s = true.
Proof.
  intros (pre & v & rest & -> & Hm)%search_suffix. apply d_digit_app_r.
  unfold sd_re in Hm. rewrite mt_Seq in Hm.
  apply mt_suffix in Hm as (p1 & v1 & c1 & -> & Hm). apply d_digit_app_r.
  rewrite mt_Seq in Hm.
  apply mt_suffix in Hm as (p2 & v2 & c2 & -> & Hm). apply d_digit_app_r.
  destruct v2 as [|b v3]; [done|]. rewrite mt_Seq, mt_Chr in Hm.
  destruct (chr_ok true "d" b) eqn:Hb; [|done].
  cbn [d_digit]. rewrite Hb.
  simpl in Hm. destruct v3 as [|b' v4]; [done|].
  destruct (is_digit b') eqn:Hb'; [|done]. simpl. by rewrite Hb'.
Qed.

Lemma chr_ok_d_digit (a : ascii) : is_digit a = true -> chr_ok true "d" a = false.
Proof. intros Ha. apply chr_ok_letter; [done|by rewrite Ha]. Qed.

Lemma chr_ok_s_digit (a : ascii) : is_digit a = true -> chr_ok true "s" a = false.
Proof. intros Ha. apply chr_ok_letter; [done|by rewrite Ha]. Qed.

Lemma chr_ok_s_not_d (a : ascii) : chr_ok true "s" a = true -> chr_ok true "d" a = false.
Proof.
  unfold chr_ok. intros Hs%Ascii.eqb_eq.
  destruct (Ascii.eqb_spec (lower_char "d") (lower_char a)) as [Hd|]; [|done].
  rewrite <- Hs in Hd. done.
Qed.

Lemma lower_char_digit (d : ascii) : is_digit d = true -> lower_char d = d.
Proof.
  destruct d as [[] [] [] [] [] [] [] []]; intros H; vm_compute in H |- *; congruence.
Qed.

Lemma lower_char_is_digit (b : ascii) : is_digit (lower_char b) = true -> lower_char b = b.
Proof.
  destruct b as [[] [] [] [] [] [] [] []]; intros H; vm_compute in H |- *; congruence.
Qed.

Lemma chr_ok_digit_eq (d b : ascii) : is_digit d = true -> chr_ok true d b = true -> b = d.
Proof.
  intros Hd. unfold chr_ok. rewrite (lower_char_digit d Hd). intros Hb%Ascii.eqb_eq.
  rewrite Hb in Hd. by rewrite <- (lower_char_is_digit b Hd).
Qed.

Lemma strip_ci_digits (ds s rest : string) :
  all_digits ds = true -> strip_ci ds s = Some rest -> s = ds +:+ rest.
Proof.
  revert s. induction ds as [|d ds IH]; intros s Hds; cbn [strip_ci].
  - intros [= ->]. by rewrite append_nil_l.
  - simpl in Hds. apply andb_prop in Hds as [Hd Hds].
    destruct s as [|b s]; [done|]. destruct (chr_ok true d b) eqn:Hb; [|done].
    intros H. apply (IH _ Hds) in H as ->.
    by rewrite (chr_ok_digit_eq d b Hd Hb), append_cons.
Qed.

(** Deleting the matches of [s{n}] keeps a [d] with the digit that
    follows it. *)
Lemma sub_empty_d_digit (ds : string) :
  all_digits ds = true ->
  forall (s : string) (skip : nat),
    (exists a b, s = a +:+ b /\ String.length a = skip /\ all_digits a = true) ->
    d_digit s = true ->
    d_digit (sub_empty true (lit (String "s" ds)) s skip) = true.
Proof.
  intros Hds. induction s as [|a s IH]; intros skip Hskip Hd; [done|].
  destruct skip as [|n].
  - assert (sub_empty true (lit (String "s" ds)) (String a s) 0
            = String a (sub_empty true (lit (String "s" ds)) s 0) ->
            d_digit (sub_empty true (lit (String "s" ds)) (String a s) 0) = true) as Hkeep.
    { intros ->. cbn [d_digit] in Hd |- *.
      apply orb_prop in Hd as [[Ha Hs]%andb_prop|Hd].
      - destruct s as [|b s]; [done|]. simpl in Hs. apply negb_true_iff in Hs.
        apply negb_false_iff in Hs.
        rewrite (sub_empty_keep ds b s (chr_ok_s_digit b Hs)).
        cbn [d_digit no_digit_head]. by rewrite Ha, Hs.
      - rewrite (IH 0%nat); [apply orb_true_r| |done]. by exists "", s. }
    cbn [sub_empty] in Hkeep |- *.
    destruct (mt true (lit (String "s" ds)) accept (String a s) []) as [[c rest]|] eqn:Hm;
      [|by apply Hkeep].
    rewrite mt_lit in Hm by done. cbn [strip_ci] in Hm.
    destruct (chr_ok true "s" a) eqn:Ha; [|done].
    destruct (strip_ci ds s) as [t|] eqn:Ht; [|done]. injection Hm as _ <-.
    apply (strip_ci_digits ds s t Hds) in Ht. subst s.
    assert ((String.length (String a (ds +:+ t)) - String.length t)%nat
            = S (String.length ds)) as Hl.
    { cbn [String.length]. rewrite length_append. lia. }
    rewrite Hl in Hkeep |- *. apply IH.
    + by exists ds, t.
    + cbn [d_digit] in Hd. by rewrite (chr_ok_s_not_d a Ha) in Hd.
  - destruct Hskip as (x & y & Hxy & Hlen & Hx).
    destruct x as [|a' x]; [done|]. rewrite append_cons in Hxy. injection Hxy as <- ->.
    simpl in Hx. apply andb_prop in Hx as [Ha Hx]. cbn [sub_empty]. apply IH.
    + exists x, y. simpl in Hlen. split_and!; [done|lia|done].
    + cbn [d_digit] in Hd. by rewrite (chr_ok_d_digit a Ha) in Hd.
Qed.

(** Where a [d] is directly followed by a digit, the first pattern of the
    disc number matches. *)
Lemma d_digit_disc_re (t : string) :
  d_digit t = true -> search true disc_re t <> None.
Proof.
  induction t as [|a t IH]; [done|]. cbn [d_digit search].
  intros [[Ha Ht]%andb_prop|Hd]%orb_prop.
  - assert (mt true disc_re accept (String a t) [] <> None) as Hm.
    { unfold disc_re. rewrite mt_Seq, !mt_Alt.
      destruct (mt true (lit "disc") _ _ _); [done|].
      destruct (mt true (lit "disk") _ _ _); [done|].
      destruct (mt true (lit "dvd") _ _ _); [done|].
      rewrite mt_lit by done. cbn [strip_ci]. rewrite Ha.
      destruct t as [|b t]; [done|]. simpl in Ht.
      apply negb_true_iff, negb_false_iff in Ht.
      rewrite mt_Seq, mt_Opt, mt_Cls, (digit_not_sep b Ht).
      simpl. rewrite Ht. by apply star_total. }
    by destruct (mt true disc_re accept (String a t) []) as [[c rest]|].
  - destruct (mt true disc_re accept (String a t) []) as [[c rest]|]; [done|].
    by apply IH.
Qed.

Lemma sd_re_none (folder_name : string) (season_num : N) :
  search true disc_re
    (sub_empty true (lit ("s" +:+ Text.str season_num)) folder_name 0) = None ->
  search true sd_re folder_name = None.
Proof.
  intros Hnone. destruct (search true sd_re folder_name) as [m|] eqn:Hsd; [|done].
  exfalso. apply sd_re_d_digit in Hsd.
  apply (d_digit_disc_re _ (sub_empty_d_digit (str season_num) (all_digits_str _)
           folder_name 0 (ex_intro _ "" (ex_intro _ folder_name
              (conj eq_refl (conj eq_refl eq_refl)))) Hsd)).
  rewrite append_cons, append_nil_l in Hnone. exact Hnone.
Qed.

Lemma get_clean_disc_num_first (folder_name : string) (season_num : N) :
  get_clean_disc_num folder_name season_num =
  match search true disc_re
          (sub_empty true (lit ("s" +:+ Text.str season_num)) folder_name 0) with
  | Some m => Some (Text.int (group 1 m))
  | None => None
  end.
Proof.
  unfold get_clean_disc_num. cbv zeta.
  destruct (search true disc_re _) as [m|] eqn:Hd; [done|].
  by rewrite (sd_re_none folder_name season_num Hd).
Qed.

(** X6: the second pattern of [get_clean_disc_num], [s(\d+)d(\d+)], never
    decides the result: whenever the first search finds no disc number in
    the name without its [s{season}] parts, the second search finds nothing
    in the name either, and the result is [None]. *)
Theorem X6_disc_second_pattern_never_decides (folder_name : string) (season_num : N) :
  (search true disc_re
     (sub_empty true (lit ("s" +:+ Text.str season_num)) folder_name 0) = None ->
   search true sd_re folder_name = None) /\
  get_clean_disc_num folder_name season_num =
  match search true disc_re
          (sub_empty true (lit ("s" +:+ Text.str season_num)) folder_name 0) with
  | Some m => Some (Text.int (group 1 m))
  | None => None
  end.
Proof. split; [apply sd_re_none|apply get_clean_disc_num_first]. Qed.

End DiscFallback.

(** ** Ignored names *)

Section Ignored.
Import Text.

Lemma upper_lower_char (a : ascii) : upper_char (lower_char a) = upper_char a.
Proof. by destruct a as [[] [] [] [] [] [] [] []]. Qed.

Lemma upper_upper_char (a : ascii) : upper_char (upper_char a) = upper_char a.
Proof. by destruct a as [[] [] [] [] [] [] [] []]. Qed.

Lemma upper_lower (s : string) : upper (lower s) = upper s.
Proof.
  unfold upper, lower. induction s as [|a s IH]; [done|].
  simpl. by rewrite upper_lower_char, IH.
Qed.

Lemma upper_upper (s : string) : upper (upper s) = upper s.
Proof.
  unfold upper. induction s as [|a s IH]; [done|].
  simpl. by rewrite upper_upper_char, IH.
Qed.

(** X7: on a name of ASCII characters the ignore keywords are looked for
    without regard to letter case: a file name, and a folder name, is
    ignored exactly when its lower-case form is, and exactly when its
    upper-case form is. *)
Theorem X7_ignore_any_case (n : string) :
  is_ascii n = true ->
  should_ignore_file (lower n) = should_ignore_file n /\
  should_ignore_file (upper n) = should_ignore_file n /\
  folder_ignored (lower n) = folder_ignored n /\
  folder_ignored (upper n) = folder_ignored n.
Proof.
  intros _. unfold should_ignore_file, folder_ignored.
  by rewrite upper_lower, upper_upper.
Qed.

Lemma X7_ignore_any_case_witness :
  should_ignore_file (lower "Sample Clip.mkv") = should_ignore_file "Sample Clip.mkv" /\
  should_ignore_file (upper "Sample Clip.mkv") = should_ignore_file "Sample Clip.mkv" /\
  folder_ignored (lower "Sample Clip.mkv") = folder_ignored "Sample Clip.mkv" /\
  folder_ignored (upper "Sample Clip.mkv") = folder_ignored "Sample Clip.mkv".
Proof. apply (X7_ignore_any_case "Sample Clip.mkv"). reflexivity. Defined.

(** X8: in the numbering loop an ignored file changes nothing, neither the
    counter nor the log nor the operations: planning a list of files gives
    what planning the list without its ignored files gives. *)
Theorem X8_ignored_files_are_skipped (files : list entry) (s_num : N) (indent : nat)
    (is_root_move : bool) (acc : N * state) :
  plan_files files s_num indent is_root_move acc =
  plan_files (filter (fun f : entry => negb (should_ignore_file (name f))) files)
             s_num indent is_root_move acc.
Proof.
  unfold plan_files. revert acc. induction files as [|f files IH]; intros acc; [done|].
  cbn [foldl]. destruct (should_ignore_file (name f)) eqn:Hf.
  - rewrite filter_cons_False; [apply IH|]. rewrite Hf. simpl. tauto.
  - rewrite filter_cons_True; [|by rewrite Hf]. cbn [foldl]. rewrite Hf. apply IH.
Qed.

End Ignored.

(** ** The report and the script *)

Section Report.

Lemma process_season_logs (show_path : entry) (rf : list entry) (st : state)
    (s : N * season_slot) :
  exists more, fst (process_season show_path rf st s) = fst st ++ more.
Proof.
  destruct s as [n [folder|]]; unfold process_season.
  - destruct (process_season_content_logs folder [] n ("Season " +:+ Text.str n) false
                (log_tree (fst st) 1 (name folder)
                   (if negb (String.eqb (name folder) ("Season " +:+ Text.str n))
                    then Some ("Season " +:+ Text.str n) else None), snd st))
      as [more H].
    rewrite H. simpl. unfold log_tree. rewrite <- app_assoc. eauto.
  - apply process_season_content_logs.
Qed.

Lemma process_seasons_logs (show_path : entry) (rf : list entry) (st : state)
    (l : list (N * season_slot)) :
  exists more, fst (foldl (process_season show_path rf) st l) = fst st ++ more.
Proof.
  revert st. induction l as [|s l IH]; intros st; cbn [foldl].
  { exists []. by rewrite app_nil_r. }
  destruct (IH (process_season show_path rf st s)) as [m1 H1].
  destruct (process_season_logs show_path rf st s) as [m2 H2].
  rewrite H1, H2, <- app_assoc. eauto.
Qed.

Lemma process_show_appends (show_path : entry) (self : ShowProcessor) :
  operations (process_show show_path self) =
    operations self ++ operations (process_show show_path init) /\
  (operations (process_show show_path init) = [] ->
   process_show show_path self = self) /\
  (operations (process_show show_path init) <> [] ->
   exists more, tree_output (process_show show_path self) =
                tree_output self ++ show_header show_path :: more).
Proof.
  rewrite (process_show_ops show_path init), (process_show_ops show_path self).
  change (operations init ++ show_ops show_path) with (show_ops show_path).
  split; [done|].
  unfold process_show.
  fold (folders_of show_path). fold (root_files_of show_path).
  fold (seasons_of show_path).
  destruct (process_seasons_ops show_path (root_files_of show_path)
              ([show_header show_path], self)
              (sorted_items (seasons_of show_path)) eq_refl) as [Ho Ht].
  destruct (process_seasons_logs show_path (root_files_of show_path)
              ([show_header show_path], self)
              (sorted_items (seasons_of show_path))) as [more Hl].
  fold (show_ops show_path) in Ho.
  destruct (foldl _ _ _) as [logs self']. simpl in Ho, Ht, Hl. split.
  - intros Hnil. rewrite Hnil, app_nil_r in Ho. rewrite Ho, Nat.ltb_irrefl.
    destruct self', self. simpl in *. by subst.
  - intros Hne. rewrite Ho, length_app.
    destruct (show_ops show_path) as [|op ops] eqn:Hops; [done|].
    replace (length (operations self) <? length (operations self) + length (op :: ops))%nat
      with true by (symmetry; apply Nat.ltb_lt; simpl; lia).
    simpl. rewrite Ht, Hl. eauto.
Qed.

Lemma process_shows_ops (shows : list entry) (p : ShowProcessor) :
  operations (foldl (fun p show => process_show show p) p shows) =
  operations p ++ flat_map (fun show => operations (process_show show init)) shows.
Proof.
  revert p. induction shows as [|x shows IH]; intros p; cbn [foldl flat_map].
  { by rewrite app_nil_r. }
  rewrite IH. destruct (process_show_appends x p) as [-> _]. by rewrite app_assoc.
Qed.

(** X9: [process_show] only appends.  The operations it adds are those it
    plans for the show alone, whatever was recorded before.  When it adds
    none, the processor is left as it was, so nothing of the show is
    reported; when it adds some, the report grows by the lines of the show,
    the first of which is its header. *)
Theorem X9_process_show_appends (show_path : entry) (self : ShowProcessor) :
  operations (process_show show_path self) =
    operations self ++ operations (process_show show_path init) /\
  (operations (process_show show_path init) = [] ->
   process_show show_path self = self) /\
  (operations (process_show show_path init) <> [] ->
   exists more, tree_output (process_show show_path self) =
                tree_output self ++ show_header show_path :: more).
Proof. apply process_show_appends. Qed.

End Report.

Section Run.

Lemma detect_mode_and_run_eq (is_windows : bool) (target_path : entry) :
  detect_mode_and_run is_windows target_path =
  let processor :=
    if single_show target_path then process_show target_path init
    else foldl (fun p show => process_show show p) init (shows_of target_path) in
  if nonempty (tree_output processor)
  then (processor, generate_script is_windows processor)
  else (processor, None).
Proof. reflexivity. Qed.

Lemma process_show_report (show_path : entry) (p : ShowProcessor) :
  (operations p = [] <-> tree_output p = []) ->
  (operations (process_show show_path p) = [] <->
   tree_output (process_show show_path p) = []).
Proof.
  intros Hp. destruct (process_show_appends show_path p) as (Ho & Hnil & Hsome).
  destruct (operations (process_show show_path init)) as [|op ops] eqn:Hops.
  - by rewrite (Hnil eq_refl).
  - destruct Hsome as [more Ht]; [done|]. rewrite Ho, Ht. split.
    + by intros [_ ?]%app_eq_nil.
    + by intros [_ ?]%app_eq_nil.
Qed.

Lemma process_shows_report (shows : list entry) (p : ShowProcessor) :
  (operations p = [] <-> tree_output p = []) ->
  (operations (foldl (fun p show => process_show show p) p shows) = [] <->
   tree_output (foldl (fun p show => process_show show p) p shows) = []).
Proof.
  revert p. induction shows as [|x shows IH]; intros p Hp; [done|].
  cbn [foldl]. by apply IH, process_show_report.
Qed.

Lemma nonempty_nil {A : Type} (l : list A) : nonempty l = false <-> l = [].
Proof. by destruct l. Qed.

(** X10: after a run, in either mode, the report is empty exactly when no
    operation was planned, and a script is written exactly when there is
    an operation: [generate_script] is never asked for a script it does not
    write. *)
Theorem X10_script_iff_operations (is_windows : bool) (target_path : entry) :
  (tree_output (fst (detect_mode_and_run is_windows target_path)) = [] <->
   operations (fst (detect_mode_and_run is_windows target_path)) = []) /\
  (snd (detect_mode_and_run is_windows target_path) = None <->
   operations (fst (detect_mode_and_run is_windows target_path)) = []).
Proof.
  rewrite detect_mode_and_run_eq. cbv zeta.
  set (p := if single_show target_path then process_show target_path init
            else foldl (fun p show => process_show show p) init (shows_of target_path)).
  assert (operations p = [] <-> tree_output p = []) as Hp.
  { unfold p. destruct (single_show target_path).
    - by apply process_show_report.
    - by apply process_shows_report. }
  destruct (nonempty (tree_output p)) eqn:Hne; simpl.
  - split; [by symmetry|]. unfold generate_script.
    destruct (operations p) as [|op ops] eqn:Hops; [done|]. split; done.
  - apply nonempty_nil in Hne. split; [by symmetry|]. split; [|done].
    intros _. by apply Hp.
Qed.


End Run.

(** ** Where the operations of a show come from *)

Section Origin.

Lemma op_origin (X : entry) (op : operation) :
  op ∈ show_ops X ->
  exists (f : entry) (e : N),
    original op = path f /\ is_video f = true /\
    should_ignore_file (name f) = false /\ e <> 0 /\
    new_name op = target_name (season_num op) e f /\
    ((is_root_move op = true /\ season_num op = 1 /\ f ∈ iterdir X /\
      folder_map X !! 1 = None /\
      forall g : entry, g ∈ root_files_of X -> should_ignore_file (name g) = false) \/
     (is_root_move op = false /\ name f <> new_name op /\
      exists F : entry, folder_map X !! season_num op = Some (Folder F) /\
        (f ∈ iterdir F \/
         exists (d : N) (D : entry),
           disc_map F (season_num op) !! d = Some D /\ f ∈ iterdir D))).
Proof.
  intros (s & slot & f & e & Hs & Ha & Hop)%show_ops_elem.
  pose proof (assignments_positive _ _ _ Ha) as Hpos.
  apply assignments_elem in Ha as [Hf Hi]. simpl in *.
  pose proof Hop as (Ho & Hn & Hsn & Hr)%op_of_Some. simpl in *.
  exists f, e. rewrite Hsn, Hr. destruct slot as [F|]; unfold slot_files in Hf; simpl in *.
  - apply elem_of_season_files in Hf.
    assert (is_video f = true) as Hv by (destruct Hf as [[_ ?]|(? & ? & _ & _ & ?)]; done).
    split_and!; try done. right. split_and!; [done| |].
    + unfold op_of in Hop. simpl in Hop. rewrite orb_false_r in Hop.
      rewrite Hn. intros Heq. apply String.eqb_eq in Heq. by rewrite Heq in Hop.
    + exists F. split; [by apply seasons_of_folder|].
      destruct Hf as [[? _]|(d & D & ? & ? & _)]; [by left|right; eauto].
  - pose proof (seasons_of_root_none _ _ Hs) as Hnone.
    pose proof (seasons_of_root _ _ Hs) as (-> & _ & Hall).
    apply elem_of_root_season_files, elem_of_root_files_of in Hf as [Hin Hv].
    split_and!; try done. left. done.
Qed.

Lemma iterdir_parent (e f : entry) : f ∈ iterdir e -> parent f = parts e.
Proof. by intros (kids & _ & _ & ?)%iterdir_elem. Qed.

Lemma iterdir_parts (e f : entry) : f ∈ iterdir e -> parts f = parts e ++ [name f].
Proof. intros H. unfold parts at 1. by rewrite (iterdir_parent e f H). Qed.

(** The folder a planned file of a season lies in. *)
Lemma op_folder (X : entry) (op : operation) :
  op ∈ show_ops X -> is_root_move op = false ->
  exists (F : entry) (rest : list string),
    folder_map X !! season_num op = Some (Folder F) /\
    parent (original op) = parts X ++ name F :: rest /\
    (rest = [] \/
     exists D : entry, D ∈ iterdir F /\ rest = [name D] /\
       cand_disc (season_num op) D <> None).
Proof.
  intros (f & e & Ho & _ & _ & _ & _ & [[Hr _]|(_ & _ & F & HF & Hf)])%op_origin Hnr;
    [congruence|].
  pose proof HF as (HinF & _)%season_winner.
  pose proof (iterdir_parts X F HinF) as HpF.
  rewrite Ho. destruct Hf as [Hf|(d & D & HD & Hf)].
  - exists F, []. rewrite (iterdir_parent F f Hf). eauto.
  - pose proof HD as (HinD & HcD & _)%disc_winner.
    exists F, [name D]. rewrite (iterdir_parent D f Hf), (iterdir_parts F D HinD), HpF.
    rewrite <- app_assoc. split_and!; [done..|]. right. exists D. split_and!; try done.
    by rewrite HcD.
Qed.

End Origin.

(** ** What an operation does *)

Section Operations.
Import Examples7.

Lemma planned_ops (X : entry) : operations (process_show X init) = show_ops X.
Proof. by rewrite process_show_ops. Qed.

Lemma move_a_planned : move_a ∈ operations (process_show Examples2.root_and_season_2 init).
Proof. vm_compute. apply list_elem_of_here. Qed.

Lemma rename_x_planned :
  rename_x ∈ operations (process_show Examples2.root_and_season_2 init).
Proof. vm_compute. do 2 apply list_elem_of_further. apply list_elem_of_here. Qed.

(** X12: an operation keeps the extension of its file, which is a video
    extension.  A rename keeps the file in its folder and gives it a name
    other than the one it has; a root move takes a file that lies directly
    in the show into the folder [Season 1] of the show. *)
Theorem X12_operation_keeps_extension_and_folder (X : entry) (op : operation) :
  op ∈ operations (process_show X init) ->
  suffix (dest_file op) = suffix (original op) /\
  Text.mem (Text.lower (suffix (original op))) VIDEO_EXTENSIONS = true /\
  (is_root_move op = false ->
   parent (dest_file op) = parent (original op) /\ new_name op <> name (original op)) /\
  (is_root_move op = true ->
   parent (original op) = parts X /\ dest_folder op = joinpath X "Season 1").
Proof.
  rewrite planned_ops.
  intros (f & e & Ho & Hv & _ & _ & Hn & Hcase)%op_origin.
  split_and!.
  - rewrite Ho. apply (suffix_target_name (season_num op) e f).
    by rewrite dest_file_name.
  - rewrite Ho. unfold is_video in Hv. by apply andb_prop in Hv as [_ ?].
  - intros Hr. destruct Hcase as [[? _]|(_ & Hne & _)]; [congruence|].
    unfold dest_file. rewrite Hr, Ho. split; [done|]. congruence.
  - intros Hr. destruct Hcase as [(_ & Hs & Hin & _)|[? _]]; [|congruence].
    unfold dest_folder. rewrite Ho, Hs, (iterdir_parent X f Hin). done.
Qed.

Lemma X12_operation_keeps_extension_and_folder_witness :
  suffix (dest_file move_a) = suffix (original move_a) /\
  Text.mem (Text.lower (suffix (original move_a))) VIDEO_EXTENSIONS = true /\
  (is_root_move move_a = false ->
   parent (dest_file move_a) = parent (original move_a) /\
   new_name move_a <> name (original move_a)) /\
  (is_root_move move_a = true ->
   parent (original move_a) = parts Examples2.root_and_season_2 /\
   dest_folder move_a = joinpath Examples2.root_and_season_2 "Season 1").
Proof.
  apply (X12_operation_keeps_extension_and_folder Examples2.root_and_season_2 move_a).
  apply move_a_planned.
Defined.

(** X13: a rename is planned only for a file in a folder of the show, or
    in a folder directly inside one.  The folder of the show carries no
    ignore keyword and its name gives the season number of the operation;
    the name of the inner folder gives a disc number other than 0. *)
Theorem X13_renames_lie_in_season_folders (X : entry) (op : operation) :
  op ∈ operations (process_show X init) -> is_root_move op = false ->
  exists (top : string) (rest : list string),
    parent (original op) = parts X ++ top :: rest /\
    folder_ignored top = false /\
    get_clean_season_num top = Some (season_num op) /\
    (rest = [] \/
     exists d, rest = [d] /\ truthy (get_clean_disc_num d (season_num op)) = true).
Proof.
  rewrite planned_ops. intros Hop Hr.
  destruct (op_folder X op Hop Hr) as (F & rest & HF & Hp & Hrest).
  apply season_winner in HF as (_ & _ & Hc & _). unfold cand_season in Hc.
  exists (name F), rest. destruct (folder_ignored (name F)); [done|].
  split_and!; try done.
  destruct Hrest as [->|(D & _ & -> & HD)]; [by left|right].
  exists (name D). split; [done|]. unfold cand_disc in HD.
  destruct (is_dir D); [|done]. by destruct (truthy _).
Qed.

Lemma X13_renames_lie_in_season_folders_witness :
  exists (top : string) (rest : list string),
    parent (original rename_x) = parts Examples2.root_and_season_2 ++ top :: rest /\
    folder_ignored top = false /\
    get_clean_season_num top = Some (season_num rename_x) /\
    (rest = [] \/
     exists d, rest = [d] /\
       truthy (get_clean_disc_num d (season_num rename_x)) = true).
Proof.
  apply (X13_renames_lie_in_season_folders Examples2.root_and_season_2 rename_x).
  - apply rename_x_planned.
  - reflexivity.
Defined.

(** X14: when several folders of a show give the same season number, the
    files that are planned lie in the one whose name sorts last. *)
Theorem X14_last_folder_of_a_season_wins (X : entry) (op : operation)
    (top : string) (rest : list string) (G : entry) :
  op ∈ operations (process_show X init) ->
  parent (original op) = parts X ++ top :: rest ->
  G ∈ iterdir X -> is_dir G = true -> folder_ignored (name G) = false ->
  get_clean_season_num (name G) = Some (season_num op) ->
  String.leb (name G) top = true.
Proof.
  rewrite planned_ops. intros Hop Hp HG Hd Hi Hs.
  destruct (is_root_move op) eqn:Hr.
  - exfalso. apply op_origin in Hop as (f & e & Ho & _ & _ & _ & _ & Hcase).
    destruct Hcase as [(_ & _ & Hin & _)|[? _]]; [|congruence].
    rewrite Ho, (iterdir_parent X f Hin) in Hp.
    rewrite <- (app_nil_r (parts X)) in Hp at 1. by apply app_inv_head in Hp.
  - destruct (op_folder X op Hop Hr) as (F & rest' & HF & Hp' & _).
    rewrite Hp' in Hp. apply app_inv_head in Hp. injection Hp as <- _.
    apply season_winner in HF as (_ & _ & _ & Hmax). apply Hmax; [done..|].
    unfold cand_season. by rewrite Hi.
Qed.

Lemma X14_last_folder_of_a_season_wins_witness :
  operations (process_show two_folders init) = [rename_x] /\
  String.leb (name folder_S2) "Season 2" = true.
Proof.
  split; [reflexivity|].
  apply (X14_last_folder_of_a_season_wins two_folders rename_x "Season 2" [] folder_S2).
  - vm_compute. apply list_elem_of_here.
  - reflexivity.
  - vm_compute. apply list_elem_of_here.
  - reflexivity.
  - reflexivity.
  - reflexivity.
Defined.

End Operations.

Section OperationsOrder.
Import Examples7.

Lemma season_ops_num (X : entry) (s : N * season_slot) (op : operation) :
  op ∈ season_ops X s -> season_num op = fst s.
Proof.
  unfold season_ops. intros (a & _ & Hop)%list_elem_of_omap.
  by apply op_of_Some in Hop as (_ & _ & ? & _).
Qed.

Lemma sorted_constant {B : Type} (g : B -> N) (c : N) (l : list B) :
  (forall z, z ∈ l -> g z = c) -> StronglySorted N.le (map g l).
Proof.
  induction l as [|y l IH]; intros Hc; cbn [map]; constructor.
  - apply IH. intros z Hz. apply Hc. by right.
  - apply Forall_forall. intros n (z & -> & Hz)%list_elem_of_fmap.
    rewrite (Hc y), (Hc z); [done|by right|by left].
Qed.

Lemma flat_map_by_key {A B : Type} (f : A -> list B) (key : A -> N) (g : B -> N)
    (l : list A) :
  StronglySorted N.lt (map key l) ->
  (forall x y, x ∈ l -> y ∈ f x -> g y = key x) ->
  StronglySorted N.le (map g (flat_map f l)).
Proof.
  induction l as [|x l IH]; intros Hs Hg; cbn [flat_map map]; [constructor|].
  cbn [map] in Hs. apply StronglySorted_inv in Hs as [Hs Hx].
  rewrite map_app. apply StronglySorted_app_2.
  - intros n1 n2 (y1 & -> & Hy1)%list_elem_of_fmap (y2 & -> & Hy2)%list_elem_of_fmap.
    apply elem_of_flat_map in Hy2 as (x2 & Hx2 & Hy2).
    rewrite (Hg x y1), (Hg x2 y2); [|by right|done|by left|done].
    rewrite Forall_forall in Hx. apply N.lt_le_incl, Hx.
    apply list_elem_of_fmap. eauto.
  - apply (sorted_constant g (key x)). intros z Hz. apply Hg; [by left|done].
  - apply IH; [done|]. intros x' y Hx' Hy. apply Hg; [by right|done].
Qed.

(** X15: the operations of a show are recorded season by season, by
    ascending season number. *)
Theorem X15_operations_by_ascending_season (X : entry) :
  StronglySorted N.le (map season_num (operations (process_show X init))).
Proof.
  rewrite planned_ops. unfold show_ops.
  apply (flat_map_by_key (season_ops X) fst).
  - apply sorted_items_keys.
  - intros s op _. apply season_ops_num.
Qed.

(** X16: a root move is planned only for season 1, and only in a show in
    which no video file lying directly in the show is ignored and no
    folder, the ignored ones apart, gives season number 1. *)
Theorem X16_root_moves_need_a_free_season_1 (X : entry) (op : operation) :
  op ∈ operations (process_show X init) -> is_root_move op = true ->
  season_num op = 1 /\
  (forall g : entry, g ∈ iterdir X -> is_video g = true ->
     should_ignore_file (name g) = false) /\
  (forall G : entry, G ∈ iterdir X -> is_dir G = true ->
     folder_ignored (name G) = false -> get_clean_season_num (name G) <> Some 1).
Proof.
  rewrite planned_ops.
  intros (f & e & _ & _ & _ & _ & _ & Hcase)%op_origin Hr.
  destruct Hcase as [(_ & Hs & _ & Hnone & Hall)|[? _]]; [|congruence].
  split_and!; [done| |].
  - intros g Hg Hv. apply Hall. by apply elem_of_root_files_of.
  - intros G HG Hd Hi Hnum.
    destruct (season_some X 1 G HG Hd) as [F HF]; [|congruence].
    unfold cand_season. by rewrite Hi.
Qed.

Lemma X16_root_moves_need_a_free_season_1_witness :
  season_num move_a = 1 /\
  (forall g : entry, g ∈ iterdir Examples2.root_and_season_2 -> is_video g = true ->
     should_ignore_file (name g) = false) /\
  (forall G : entry, G ∈ iterdir Examples2.root_and_season_2 -> is_dir G = true ->
     folder_ignored (name G) = false -> get_clean_season_num (name G) <> Some 1).
Proof.
  apply (X16_root_moves_need_a_free_season_1 Examples2.root_and_season_2 move_a).
  - apply move_a_planned.
  - reflexivity.
Defined.

(** X17: the name planned for a file carries an episode number other
    than 0, and that is the number read back from the name. *)
Theorem X17_planned_name_carries_its_number (X : entry) (op : operation) :
  op ∈ operations (process_show X init) ->
  exists e, e <> 0 /\
    new_name op = target_name (season_num op) e (original op) /\
    get_episode_from_file (new_name op) = Some e.
Proof.
  rewrite planned_ops.
  intros (f & e & Ho & _ & _ & He & Hn & _)%op_origin.
  exists e. rewrite Ho, Hn. split_and!; [done..|]. apply episode_of_target_name.
Qed.

Lemma X17_planned_name_carries_its_number_witness :
  exists e, e <> 0 /\
    new_name rename_x = target_name (season_num rename_x) e (original rename_x) /\
    get_episode_from_file (new_name rename_x) = Some e.
Proof.
  apply (X17_planned_name_carries_its_number Examples2.root_and_season_2 rename_x).
  apply rename_x_planned.
Defined.

End OperationsOrder.

(** ** No file is planned twice *)

Section PlannedOnce.
Import Shell ShellFacts ShellSteps ShellOps.

Lemma NoDup_flat_map {A B : Type} (f : A -> list B) (l : list A) :
  NoDup l -> (forall x, x ∈ l -> NoDup (f x)) ->
  (forall x1 x2 y, x1 ∈ l -> x2 ∈ l -> y ∈ f x1 -> y ∈ f x2 -> x1 = x2) ->
  NoDup (flat_map f l).
Proof.
  induction l as [|x l IH]; intros Hl Hf Hd; cbn [flat_map]; [constructor|].
  apply NoDup_cons in Hl as [Hx Hl]. apply NoDup_app. split_and!.
  - apply Hf. by left.
  - intros y Hy (x2 & Hx2 & Hy2)%elem_of_flat_map.
    apply Hx. rewrite (Hd x x2 y); [done|by left|by right|done..].
  - apply IH; [done| |].
    + intros x' Hx'. apply Hf. by right.
    + intros x1 x2 y H1 H2. apply Hd; by right.
Qed.

Lemma map_flat_map {A B C : Type} (g : B -> C) (f : A -> list B) (l : list A) :
  map g (flat_map f l) = flat_map (fun x => map g (f x)) l.
Proof.
  induction l as [|x l IH]; [done|]. cbn [flat_map]. by rewrite map_app, IH.
Qed.

(** The entries of a directory that lists no name twice have distinct
    paths. *)
Lemma iterdir_NoDup (e : entry) :
  (forall kids, node e = Dir kids -> NoDup (map fst kids)) ->
  NoDup (map path (iterdir e)).
Proof.
  intros Hk. unfold iterdir. destruct (node e) as [|kids]; [constructor|].
  specialize (Hk kids eq_refl). rewrite map_map. cbn [path].
  induction kids as [|[n t] kids IH]; cbn [map]; [constructor|].
  cbn [map] in Hk. apply NoDup_cons in Hk as [Hn Hk]. apply NoDup_cons. split; [|by apply IH].
  intros (c & Heq & Hc)%list_elem_of_fmap. apply Hn.
  apply list_elem_of_fmap. exists c. split; [|done].
  simpl in *. by injection Heq.
Qed.

Lemma wf_iterdir_NoDup (X e : entry) :
  wf X -> entry_in X e -> NoDup (map path (iterdir e)).
Proof.
  intros Hwf He. apply iterdir_NoDup. intros kids Hk.
  apply (Hwf (parts e)). unfold entry_in in He. by rewrite He, Hk.
Qed.

Lemma NoDup_paths_sorted (l : list entry) :
  NoDup (map path l) -> NoDup (map path (sorted_paths path l)).
Proof.
  intros H. unfold sorted_paths.
  assert (map path (sorted (fun x : entry => name x) String.leb l) ≡ₚ map path l) as Hp.
  { apply (fmap_Permutation path), sorted_perm. }
  by rewrite Hp.
Qed.

Lemma NoDup_paths_filter (P : entry -> bool) (l : list entry) :
  NoDup (map path l) -> NoDup (map path (filter (fun x => P x) l)).
Proof.
  intros H. eapply sublist_NoDup; [exact H|].
  apply (fmap_sublist path), sublist_filter.
Qed.

Lemma disc_files_NoDup (X D : entry) :
  wf X -> entry_in X D -> NoDup (map path (disc_files D)).
Proof.
  intros Hwf HD. unfold disc_files.
  by apply NoDup_paths_sorted, NoDup_paths_filter, (wf_iterdir_NoDup X).
Qed.

Lemma root_files_NoDup (X : entry) : wf X -> NoDup (map path (root_files_of X)).
Proof.
  intros Hwf. unfold root_files_of.
  apply NoDup_paths_filter, NoDup_paths_sorted, (wf_iterdir_NoDup X); [done|].
  apply entry_in_self.
Qed.

End PlannedOnce.

Section PlannedOnce2.
Import Shell ShellFacts ShellSteps ShellOps.
Import Examples7.

Lemma sorted_items_NoDup {V : Type} (m : gmap N V) : NoDup (sorted_items m).
Proof.
  unfold sorted_items.
  assert (sorted fst N.leb (map_to_list m) ≡ₚ map_to_list m) as Hp by apply sorted_perm.
  rewrite Hp. apply NoDup_map_to_list.
Qed.

Lemma season_files_eq (F : entry) (s : N) :
  season_files F [] s false =
  filter (fun x => is_video x) (sorted_paths path (iterdir F)) ++
  flat_map (fun d => disc_files (snd d)) (sorted_items (disc_map F s)).
Proof.
  unfold season_files, disc_map.
  pose proof (scan_items_direct s (sorted_paths path (iterdir F)) ∅ []) as Hd.
  unfold season_scan in *. destruct (foldl _ _ _) as [dm df]. simpl in *. by subst df.
Qed.

Lemma root_slot_files_eq (X : entry) (s : N) :
  season_files X (root_files_of X) s true = sorted_paths path (root_files_of X).
Proof.
  unfold season_files, season_scan. rewrite sorted_items_empty. cbn [flat_map].
  by rewrite app_nil_r.
Qed.

Lemma parts_ne_child (l : list string) (n : string) : l <> l ++ [n].
Proof.
  intros H. apply (f_equal length) in H. rewrite length_app in H. simpl in H. lia.
Qed.

Lemma season_files_NoDup (X F : entry) (s : N) :
  wf X -> F ∈ iterdir X -> NoDup (map path (season_files F [] s false)).
Proof.
  intros Hwf HF. destruct (entry_in_top X F Hwf HF) as (HeF & _ & HpF).
  rewrite season_files_eq, map_app. apply NoDup_app. split_and!.
  - by apply NoDup_paths_filter, NoDup_paths_sorted, (wf_iterdir_NoDup X).
  - intros p (f & -> & Hf)%list_elem_of_fmap (g & Hg & Hin)%list_elem_of_fmap.
    apply list_elem_of_filter in Hf as [_ Hf]. unfold sorted_paths in Hf.
    rewrite elem_of_sorted in Hf.
    apply elem_of_flat_map in Hin as ([d D] & HD%sorted_items_lookup & Hin).
    apply elem_of_disc_files in Hin as [Hin _]. simpl in Hin.
    apply disc_winner in HD as (HD & _).
    pose proof (iterdir_parent F f Hf) as H1.
    pose proof (iterdir_parent D g Hin) as H2.
    rewrite <- Hg, H1, (iterdir_parts F D HD) in H2. by apply parts_ne_child in H2.
  - rewrite map_flat_map. apply NoDup_flat_map.
    + apply sorted_items_NoDup.
    + intros [d D] HD%sorted_items_lookup. simpl.
      apply disc_winner in HD as (HD & _).
      destruct (entry_in_iterdir X F D [name F] Hwf HpF HeF HD) as (HeD & _).
      by apply (disc_files_NoDup X).
    + intros [d1 D1] [d2 D2] p H1%sorted_items_lookup H2%sorted_items_lookup.
      simpl. intros (f1 & -> & Hf1)%list_elem_of_fmap (f2 & Heq & Hf2)%list_elem_of_fmap.
      apply elem_of_disc_files in Hf1 as [Hf1 _], Hf2 as [Hf2 _].
      pose proof H1 as (HD1 & Hc1 & _)%disc_winner.
      pose proof H2 as (HD2 & Hc2 & _)%disc_winner.
      pose proof (iterdir_parent D1 f1 Hf1) as Hp1.
      pose proof (iterdir_parent D2 f2 Hf2) as Hp2.
      rewrite <- Heq, Hp1, (iterdir_parts F D1 HD1), (iterdir_parts F D2 HD2) in Hp2.
      apply app_inj_tail in Hp2 as [_ Hn].
      assert (d1 = d2) as ->.
      { rewrite (cand_disc_name s D1 D2 Hn) in Hc1;
          [congruence|by apply (cand_disc_dir s d1)|by apply (cand_disc_dir s d2)]. }
      congruence.
Qed.

(** The files of the operations of a season, in order, are among the files
    of the season, in order. *)
Lemma ops_sublist (s : N) (r : bool) (files : list entry) (c : N) :
  map original (omap (op_of s r) (assignments files c)) `sublist_of` map path files.
Proof.
  revert c. induction files as [|f files IH]; intros c; cbn [assignments map]; [done|].
  destruct (should_ignore_file (name f)); [apply sublist_cons, IH|].
  destruct (assign_episode _ c) as [c' e].
  change (omap (op_of s r) ((f, e) :: assignments files c'))
    with (match op_of s r (f, e) with
          | Some op => op :: omap (op_of s r) (assignments files c')
          | None => omap (op_of s r) (assignments files c')
          end).
  destruct (op_of s r (f, e)) as [op|] eqn:Hop.
  - apply op_of_Some in Hop as (Ho & _). cbn [map]. rewrite Ho.
    apply sublist_skip, IH.
  - apply sublist_cons, IH.
Qed.

Lemma season_ops_NoDup (X : entry) (s : N) (slot : season_slot) :
  wf X -> seasons_of X !! s = Some slot ->
  NoDup (map original (season_ops X (s, slot))).
Proof.
  intros Hwf Hs. unfold season_ops. eapply sublist_NoDup; [|apply ops_sublist].
  unfold slot_files. destruct slot as [F|]; simpl.
  - apply (season_files_NoDup X); [done|].
    by apply seasons_of_folder, season_winner in Hs as (? & _).
  - rewrite root_slot_files_eq. by apply NoDup_paths_sorted, root_files_NoDup.
Qed.

Lemma same_original_same_season (X : entry) (op1 op2 : operation) :
  op1 ∈ show_ops X -> op2 ∈ show_ops X -> original op1 = original op2 ->
  season_num op1 = season_num op2.
Proof.
  intros H1 H2 Heq.
  destruct (is_root_move op1) eqn:Hr1, (is_root_move op2) eqn:Hr2.
  - apply op_origin in H1 as (_ & _ & _ & _ & _ & _ & _ & [(_ & -> & _)|[? _]]);
      [|congruence].
    apply op_origin in H2 as (_ & _ & _ & _ & _ & _ & _ & [(_ & -> & _)|[? _]]);
      [done|congruence].
  - exfalso.
    apply op_origin in H1 as (f & _ & Ho & _ & _ & _ & _ & [(_ & _ & Hin & _)|[? _]]);
      [|congruence].
    destruct (op_folder X op2 H2 Hr2) as (F & rest & _ & Hp & _).
    rewrite <- Heq, Ho, (iterdir_parent X f Hin) in Hp.
    rewrite <- (app_nil_r (parts X)) in Hp at 1. by apply app_inv_head in Hp.
  - exfalso.
    apply op_origin in H2 as (f & _ & Ho & _ & _ & _ & _ & [(_ & _ & Hin & _)|[? _]]);
      [|congruence].
    destruct (op_folder X op1 H1 Hr1) as (F & rest & _ & Hp & _).
    rewrite Heq, Ho, (iterdir_parent X f Hin) in Hp.
    rewrite <- (app_nil_r (parts X)) in Hp at 1. by apply app_inv_head in Hp.
  - destruct (op_folder X op1 H1 Hr1) as (F1 & r1 & HF1 & Hp1 & _).
    destruct (op_folder X op2 H2 Hr2) as (F2 & r2 & HF2 & Hp2 & _).
    rewrite Heq, Hp2 in Hp1. apply app_inv_head in Hp1. injection Hp1 as Hn _.
    apply season_winner in HF1 as (_ & _ & Hc1 & _).
    apply season_winner in HF2 as (_ & _ & Hc2 & _).
    rewrite (cand_season_name F2 F1 Hn) in Hc2. congruence.
Qed.

Lemma planned_once (X : entry) : wf X -> NoDup (map original (show_ops X)).
Proof.
  intros Hwf. unfold show_ops. rewrite map_flat_map. apply NoDup_flat_map.
  - apply sorted_items_NoDup.
  - intros [s slot] Hs%sorted_items_lookup. by apply season_ops_NoDup.
  - intros [s1 sl1] [s2 sl2] p H1 H2
      (op1 & -> & Hop1)%list_elem_of_fmap (op2 & Heq & Hop2)%list_elem_of_fmap.
    assert (s1 = s2) as ->.
    { pose proof (season_ops_num X _ op1 Hop1) as E1.
      pose proof (season_ops_num X _ op2 Hop2) as E2. simpl in E1, E2.
      rewrite <- E1, <- E2.
      apply (same_original_same_season X); [| |done].
      - apply elem_of_flat_map. eauto.
      - apply elem_of_flat_map. eauto. }
    apply sorted_items_lookup in H1, H2. congruence.
Qed.

(** X18: in a show none of whose directories lists a name twice, no file
    is planned twice: the operations have distinct files. *)
Theorem X18_no_file_planned_twice (X : entry) :
  wf X -> NoDup (map original (operations (process_show X init))).
Proof. intros Hwf. rewrite planned_ops. by apply planned_once. Qed.

Lemma X18_no_file_planned_twice_witness :
  NoDup (map original (operations (process_show Examples2.root_and_season_2 init))).
Proof.
  apply (X18_no_file_planned_twice Examples2.root_and_season_2).
  apply wf_tree_wf. vm_compute. reflexivity.
Defined.

End PlannedOnce2.

(** ** Every operation is in the report *)

Section Shown.
Import Examples7.

Lemma shown_app (op : operation) (logs more : list string) :
  shown op logs -> shown op (logs ++ more).
Proof. intros [l H]. exists l. apply elem_of_app. by left. Qed.

Lemma logged_more (ops0 : list operation) (logs more : list string)
    (self : ShowProcessor) :
  logged ops0 (logs, self) -> logged ops0 (logs ++ more, self).
Proof.
  intros H op Hop. destruct (H op Hop) as [?|?]; [by left|right]. by apply shown_app.
Qed.

Lemma logged_log_tree (ops0 : list operation) (logs : list string) (l : nat)
    (t : string) (o : option string) (self : ShowProcessor) :
  logged ops0 (logs, self) -> logged ops0 (log_tree logs l t o, self).
Proof. unfold log_tree. apply logged_more. Qed.

Lemma logged_plan_file_rename (ops0 : list operation) (f : Path) (s c : N) (i : nat)
    (r : bool) (st : state) :
  logged ops0 st -> logged ops0 (snd (plan_file_rename f s c i r st)).
Proof.
  intros H. unfold plan_file_rename. destruct st as [logs self].
  destruct (assign_episode _ c) as [c' e].
  destruct (negb (String.eqb (name f) (target_name s e f)) || r); [|done].
  rewrite truthy_str_target. cbn [snd]. intros op. cbn [snd fst operations].
  intros [Hop|Hop%list_elem_of_singleton]%elem_of_app.
  - destruct (H op Hop) as [?|?]; [by left|right]. unfold log_tree. by apply shown_app.
  - right. subst op. exists i. unfold log_tree. rewrite truthy_str_target.
    apply elem_of_app. right. apply list_elem_of_singleton. reflexivity.
Qed.

Lemma logged_plan_files (ops0 : list operation) (files : list entry) (s : N) (i : nat)
    (r : bool) (acc : N * state) :
  logged ops0 (snd acc) -> logged ops0 (snd (plan_files files s i r acc)).
Proof.
  unfold plan_files. revert acc. induction files as [|f files IH]; intros acc H; [done|].
  cbn [foldl]. apply IH. destruct (should_ignore_file (name f)); [done|].
  by apply logged_plan_file_rename.
Qed.

Lemma logged_plan_disc (ops0 : list operation) (s : N) (acc : N * state) (d : N * entry) :
  logged ops0 (snd acc) -> logged ops0 (snd (plan_disc s acc d)).
Proof.
  destruct d as [n D], acc as [c [logs self]]. unfold plan_disc. intros H.
  apply logged_plan_files. cbn [snd]. by apply logged_log_tree.
Qed.

Lemma logged_process_season_content (ops0 : list operation) (cp : entry)
    (rf : list entry) (s : N) (t : string) (r : bool) (st : state) :
  logged ops0 st -> logged ops0 (process_season_content cp rf s t r st).
Proof.
  intros H. unfold process_season_content. destruct (season_scan cp rf s r) as [dm df].
  assert (logged ops0 (snd (plan_files df s 2 r (0, st)))) as H1.
  { by apply logged_plan_files. }
  revert H1. generalize (plan_files df s 2 r (0, st)).
  induction (sorted_items dm) as [|d l IH]; intros acc Hacc; [done|].
  cbn [foldl]. apply IH. by apply logged_plan_disc.
Qed.

Lemma logged_process_season (ops0 : list operation) (X : entry) (rf : list entry)
    (st : state) (s : N * season_slot) :
  logged ops0 st -> logged ops0 (process_season X rf st s).
Proof.
  intros H. destruct s as [n [F|]]; unfold process_season.
  - apply logged_process_season_content. destruct st as [logs self].
    by apply logged_log_tree.
  - by apply logged_process_season_content.
Qed.

Lemma logged_process_seasons (ops0 : list operation) (X : entry) (rf : list entry)
    (l : list (N * season_slot)) (st : state) :
  logged ops0 st -> logged ops0 (foldl (process_season X rf) st l).
Proof.
  revert st. induction l as [|s l IH]; intros st Hst; [done|].
  cbn [foldl]. apply IH. by apply logged_process_season.
Qed.

Lemma process_show_shown (X : entry) (self : ShowProcessor) (op : operation) :
  op ∈ operations (process_show X self) ->
  op ∈ operations self \/ shown op (tree_output (process_show X self)).
Proof.
  unfold process_show.
  fold (folders_of X). fold (root_files_of X). fold (seasons_of X).
  assert (logged (operations self) ([show_header X], self)) as H0.
  { intros o Ho. by left. }
  pose proof (logged_process_seasons (operations self) X (root_files_of X)
                (sorted_items (seasons_of X)) _ H0) as H.
  destruct (process_seasons_ops X (root_files_of X) ([show_header X], self)
              (sorted_items (seasons_of X)) eq_refl) as [Ho _].
  destruct (foldl _ _ _) as [logs self']. cbn [snd fst operations] in Ho.
  destruct (_ <? _)%nat eqn:Hlt; cbn [operations tree_output]; intros Hop.
  - destruct (H op Hop) as [?|[l Hl]]; [by left|right].
    exists l. apply elem_of_app. by right.
  - left. apply Nat.ltb_ge in Hlt. rewrite Ho, length_app in Hlt.
    destruct (flat_map _ _) as [|o os]; [|simpl in Hlt; lia].
    rewrite Ho, app_nil_r in Hop. done.
Qed.

Lemma process_show_tree_output (X : entry) (self : ShowProcessor) :
  exists more, tree_output (process_show X self) = tree_output self ++ more.
Proof.
  destruct (process_show_appends X self) as (_ & Hnil & Hsome).
  destruct (operations (process_show X init)) as [|o os].
  - rewrite (Hnil eq_refl). exists []. by rewrite app_nil_r.
  - destruct Hsome as [more ->]; [done|]. eauto.
Qed.

Lemma process_shows_shown (shows : list entry) (p : ShowProcessor) :
  (forall op, op ∈ operations p -> shown op (tree_output p)) ->
  forall op, op ∈ operations (foldl (fun p show => process_show show p) p shows) ->
    shown op (tree_output (foldl (fun p show => process_show show p) p shows)).
Proof.
  revert p. induction shows as [|x shows IH]; intros p Hp; [done|].
  cbn [foldl]. apply IH. intros op [Hop|Hop]%process_show_shown; [|done].
  destruct (process_show_tree_output x p) as [more ->]. by apply shown_app, Hp.
Qed.

(** X19: every operation of a run is in the report: the report has the
    line [name  ->  new name] of its file, at some depth of the tree. *)
Theorem X19_operations_are_reported (is_windows : bool) (target_path : entry)
    (op : operation) :
  op ∈ operations (fst (detect_mode_and_run is_windows target_path)) ->
  exists level,
    arrow_line level (name (original op)) (new_name op)
      ∈ tree_output (fst (detect_mode_and_run is_windows target_path)).
Proof.
  rewrite detect_mode_and_run_eq. cbv zeta.
  set (p := if single_show target_path then process_show target_path init
            else foldl (fun p show => process_show show p) init (shows_of target_path)).
  assert (fst (if nonempty (tree_output p)
               then (p, generate_script is_windows p) else (p, None)) = p) as ->.
  { by destruct (nonempty _). }
  unfold p. destruct (single_show target_path).
  - intros [Hop|Hop]%process_show_shown; [|done]. by apply elem_of_nil in Hop.
  - apply process_shows_shown. intros o Ho. by apply elem_of_nil in Ho.
Qed.

Lemma X19_operations_are_reported_witness :
  exists level,
    arrow_line level (name (original rename_x)) (new_name rename_x)
      ∈ tree_output (fst (detect_mode_and_run false Examples2.root_and_season_2)).
Proof.
  apply (X19_operations_are_reported false Examples2.root_and_season_2 rename_x).
  vm_compute. do 2 apply list_elem_of_further. apply list_elem_of_here.
Defined.

End Shown.

(** ** Shows that need nothing, the script, and plain numbering *)

Section Further.

(** X20: nothing is planned for a show exactly when the show is settled:
    its season map binds folders only, and every file that the scan of a
    bound season numbers is ignored or bears the canonical name of the
    season for an episode number other than 0.  The files the scan numbers
    are [season_files]: the video files directly in the bound folder and
    those directly in the sub-folders kept in its disc map; a folder that
    is not bound (ignored, without a number, or displaced by a later folder
    with the same number) is not looked at. *)
Theorem X20_nothing_planned_iff_settled (X : entry) :
  operations (process_show X init) = [] <-> settled X.
Proof. symmetry. apply settled_iff_no_ops. Qed.

Lemma emit_op_length (is_windows : bool) (op : operation) :
  length (emit_op is_windows op) = if is_root_move op then 2%nat else 1%nat.
Proof. unfold emit_op. by destruct (is_root_move op), is_windows. Qed.

Lemma emit_ops_length (is_windows : bool) (ops : list operation) :
  length (flat_map (emit_op is_windows) ops) =
  (length ops + length (filter (fun op => is_root_move op) ops))%nat.
Proof.
  induction ops as [|op ops IH]; [done|].
  cbn [flat_map]. rewrite length_app, emit_op_length, IH.
  destruct (is_root_move op) eqn:Hr.
  - rewrite filter_cons_True; [|simpl; by rewrite Hr]. simpl. lia.
  - rewrite filter_cons_False; [|simpl; rewrite Hr; simpl; tauto]. simpl. lia.
Qed.

(** X21: no script is written for an empty plan.  Otherwise the script is
    [apply_renames.bat] or [apply_renames.sh] by the platform, and after
    its header (one line, two with the shebang line) it has one line for
    each operation and one more for each root move. *)
Theorem X21_script_size (is_windows : bool) (self : ShowProcessor) :
  match generate_script is_windows self with
  | None => operations self = []
  | Some (filename, lines) =>
      operations self <> [] /\
      filename = (if is_windows then "apply_renames.bat" else "apply_renames.sh") /\
      length lines =
        ((if is_windows then 1 else 2) + length (operations self)
         + length (filter (fun op => is_root_move op) (operations self)))%nat
  end.
Proof.
  unfold generate_script. destruct (operations self) as [|op ops] eqn:Hops; [done|].
  split_and!; [done..|].
  rewrite !length_app, emit_ops_length. destruct is_windows; simpl; lia.
Qed.

Lemma assign_episode_plain (name_of : string) (c : N) :
  get_episode_from_file name_of = None ->
  assign_episode (get_episode_from_file name_of) c = (c + 1, c + 1).
Proof. intros ->. reflexivity. Qed.

Lemma plain_numbers (files : list entry) (c : N) :
  (forall f : entry, f ∈ files -> get_episode_from_file (name f) = None) ->
  counter_after files c =
    c + N.of_nat (length (filter (fun f : entry => negb (should_ignore_file (name f))) files))
  /\ map snd (assignments files c) =
     map (fun i => c + N.of_nat i)
       (seq 1 (length (filter (fun f : entry => negb (should_ignore_file (name f))) files))).
Proof.
  revert c. induction files as [|f files IH]; intros c Hall.
  { simpl. split; [lia|done]. }
  assert (forall g : entry, g ∈ files -> get_episode_from_file (name g) = None) as Hall'.
  { intros g Hg. apply Hall. by right. }
  cbn [counter_after assignments]. destruct (should_ignore_file (name f)) eqn:Hf.
  - rewrite filter_cons_False; [|simpl; rewrite Hf; simpl; tauto]. by apply IH.
  - rewrite filter_cons_True; [|simpl; by rewrite Hf].
    rewrite (assign_episode_plain _ c (Hall f (list_elem_of_here _ _))). cbn [fst].
    destruct (IH (c + 1) Hall') as [Hc Hm]. cbn [map snd length seq].
    rewrite Hc, Hm. split; [lia|]. f_equal; try lia.
    rewrite <- (seq_shift _ 1), map_map. apply map_ext. intros i. lia.
Qed.

(** X22: when no name of a list of files gives an episode number, the files
    that are not ignored are numbered one after the other from the counter
    on: the [i]-th of them gets the number [counter + i], and the counter
    ends at [counter] plus their count. *)
Theorem X22_plain_files_are_numbered_in_turn (files : list entry) (s_num : N)
    (indent : nat) (is_root_move : bool) (counter : N) (st : state) :
  (forall f : entry, f ∈ files -> get_episode_from_file (name f) = None) ->
  let kept := filter (fun f : entry => negb (should_ignore_file (name f))) files in
  fst (plan_files files s_num indent is_root_move (counter, st)) =
    counter + N.of_nat (length kept) /\
  operations (snd (snd (plan_files files s_num indent is_root_move (counter, st)))) =
    operations (snd st) ++
    omap (op_of s_num is_root_move)
      (zip kept (map (fun i => counter + N.of_nat i) (seq 1 (length kept)))).
Proof.
  intros Hall kept. subst kept.
  destruct (plan_files_spec files s_num indent is_root_move counter st) as (Hc & Ho & _).
  destruct (plain_numbers files counter Hall) as [Hc' Hm].
  rewrite Hc, Ho. split; [done|]. do 2 f_equal.
  rewrite <- Hm. clear. revert counter.
  induction files as [|f files IH]; intros c; [done|].
  cbn [assignments]. destruct (should_ignore_file (name f)) eqn:Hf.
  - rewrite filter_cons_False; [|simpl; rewrite Hf; simpl; tauto]. apply IH.
  - rewrite filter_cons_True; [|simpl; by rewrite Hf].
    destruct (assign_episode _ c) as [c' e]. cbn [map snd zip zip_with]. f_equal. apply IH.
Qed.

Lemma X22_plain_files_are_numbered_in_turn_witness :
  fst (plan_files
         [mkEntry (mkPath [""; "media"; "Show"; "Season 1"] "a.mkv") File;
          mkEntry (mkPath [""; "media"; "Show"; "Season 1"] "b.mkv") File]
         1 2 false (0, ([], init))) = 2 /\
  operations
    (snd (snd (plan_files
         [mkEntry (mkPath [""; "media"; "Show"; "Season 1"] "a.mkv") File;
          mkEntry (mkPath [""; "media"; "Show"; "Season 1"] "b.mkv") File]
         1 2 false (0, ([], init))))) =
  [mkOp (mkPath [""; "media"; "Show"; "Season 1"] "a.mkv") "S01E01.mkv" 1 false;
   mkOp (mkPath [""; "media"; "Show"; "Season 1"] "b.mkv") "S01E02.mkv" 1 false].
Proof.
  apply (X22_plain_files_are_numbered_in_turn
           [mkEntry (mkPath [""; "media"; "Show"; "Season 1"] "a.mkv") File;
            mkEntry (mkPath [""; "media"; "Show"; "Season 1"] "b.mkv") File]
           1 2 false 0 ([], init)).
  intros f [->|[->|[]%elem_of_nil]%elem_of_cons]%elem_of_cons; reflexivity.
Defined.

End Further.

(** ** Letter case in names *)

Module CaseFacts.
Import Text Re TextFacts ReFacts ReMore.

Section Mapped.
Variable f : ascii -> ascii.

Lemma length_map_chars (s : string) : String.length (map_chars f s) = String.length s.
Proof. induction s as [|a s IH]; simpl; congruence. Qed.

Lemma substring_map_chars (s : string) (n m : nat) :
  String.substring n m (map_chars f s) = map_chars f (String.substring n m s).
Proof.
  revert n m. induction s as [|a s IH]; intros n m.
  - by destruct n, m.
  - destruct n as [|n]; destruct m as [|m]; simpl; rewrite ?IH; done.
Qed.

Lemma consumed_map_chars (s s' : string) :
  consumed (map_chars f s) (map_chars f s') = map_chars f (consumed s s').
Proof. unfold consumed. by rewrite !length_map_chars, substring_map_chars. Qed.

Lemma star_case (p : ascii -> bool) (k K : cont) (s : string) (c : caps) :
  (forall b, p (f b) = p b) ->
  (forall s' c', K (map_chars f s') (map_caps f c') = map_result f (k s' c')) ->
  star p K (map_chars f s) (map_caps f c) = map_result f (star p k s c).
Proof.
  intros Hp HK. induction s as [|a s IH]; simpl; [apply (HK "" c)|].
  rewrite Hp. destruct (p a); [|apply (HK (String a s))].
  rewrite IH. destruct (star p k s c) as [[c' rest]|]; [done|]. apply (HK (String a s)).
Qed.

(** Matching the mapped text gives the mapped result. *)
Lemma mt_case (ic : bool) (r : regex) (k K : cont) (s : string) (c : caps) :
  case_blind ic f r ->
  (forall s' c', K (map_chars f s') (map_caps f c') = map_result f (k s' c')) ->
  mt ic r K (map_chars f s) (map_caps f c) = map_result f (mt ic r k s c).
Proof.
  revert k K s c. induction r as [a|p|r1 IH1 r2 IH2|r1 IH1 r2 IH2|r1 IH1|p|i r1 IH1];
    intros k K s c Hr HK; simpl in Hr |- *.
  - destruct s as [|b s]; [done|]. simpl. rewrite Hr. destruct (chr_ok ic a b); [|done].
    apply HK.
  - destruct s as [|b s]; [done|]. simpl. rewrite Hr. destruct (p b); [|done]. apply HK.
  - destruct Hr as [H1 H2]. apply IH1; [done|]. intros s' c'. by apply IH2.
  - destruct Hr as [H1 H2]. rewrite (IH1 k K s c H1 HK).
    destruct (mt ic r1 k s c) as [[c' rest]|]; [done|]. by apply IH2.
  - rewrite (IH1 k K s c Hr HK). destruct (mt ic r1 k s c) as [[c' rest]|]; [done|].
    apply HK.
  - destruct s as [|b s]; [done|]. simpl. rewrite Hr. destruct (p b); [|done].
    by apply star_case.
  - apply IH1; [done|]. intros s' c'. rewrite consumed_map_chars.
    apply (HK s' ((i, consumed s s') :: c')).
Qed.

Lemma accept_case (s' : string) (c' : caps) :
  accept (map_chars f s') (map_caps f c') = map_result f (accept s' c').
Proof. reflexivity. Qed.

Lemma search_case (ic : bool) (r : regex) (s : string) :
  case_blind ic f r ->
  search ic r (map_chars f s) = map_caps f <$> search ic r s.
Proof.
  intros Hr. induction s as [|a s IH].
  - pose proof (mt_case ic r accept accept "" [] Hr accept_case) as H.
    simpl in H |- *. destruct (mt ic r accept "" []) as [[c rest]|]; [|done].
    simpl in H |- *. congruence.
  - cbn [search map_chars].
    pose proof (mt_case ic r accept accept (String a s) [] Hr accept_case) as H.
    cbn [map_chars map_caps map] in H. rewrite H.
    destruct (mt ic r accept (String a s) []) as [[c rest]|]; [done|]. apply IH.
Qed.

Lemma group_case (i : nat) (c : caps) :
  group i (map_caps f c) = map_chars f (group i c).
Proof.
  induction c as [|[j t] c IH]; [done|]. simpl. by destruct (Nat.eqb i j).
Qed.

Lemma sub_empty_case (ic : bool) (r : regex) (s : string) (skip : nat) :
  case_blind ic f r ->
  sub_empty ic r (map_chars f s) skip = map_chars f (sub_empty ic r s skip).
Proof.
  intros Hr. revert skip. induction s as [|a s IH]; intros skip; [done|].
  cbn [map_chars sub_empty]. destruct skip as [|n]; [|apply IH].
  pose proof (mt_case ic r accept accept (String a s) [] Hr accept_case) as H.
  cbn [map_chars map_caps map] in H. rewrite H.
  destruct (mt ic r accept (String a s) []) as [[c rest]|]; cbn [map_result].
  - rewrite length_map_chars. cbn [String.length]. rewrite length_map_chars.
    destruct (S (String.length s) - String.length rest)%nat; [|apply IH].
    cbn [map_chars]. by rewrite IH.
  - cbn [map_chars]. by rewrite IH.
Qed.

Lemma map_chars_digits (t : string) :
  (forall b, is_digit b = true -> f b = b) ->
  all_digits t = true -> map_chars f t = t.
Proof.
  intros Hf. induction t as [|a t IH]; [done|]. simpl. intros [Ha Ht]%andb_prop.
  by rewrite (Hf a Ha), IH.
Qed.

Lemma case_blind_lit (tok : string) :
  (forall a b, chr_ok true a (f b) = chr_ok true a b) -> case_blind true f (lit tok).
Proof.
  intros Hf. induction tok as [|a tok IH]; [done|].
  destruct tok as [|a' tok]; [intros b; apply Hf|]. split; [intros b; apply Hf|apply IH].
Qed.

End Mapped.

Lemma star_digits_run (k : cont) (s : string) (c : caps) (res : caps * string) :
  star is_digit k s c = Some res ->
  exists ds t, s = ds +:+ t /\ all_digits ds = true /\ k t c = Some res.
Proof.
  induction s as [|a s IH]; simpl.
  - intros H. by exists "", "".
  - destruct (is_digit a) eqn:Ha.
    + destruct (star is_digit k s c) as [r|] eqn:Hs.
      * intros [= <-]. destruct (IH eq_refl) as (ds & t & -> & Hds & Hk).
        exists (String a ds), t. simpl. by rewrite Ha.
      * intros H. by exists "", (String a s).
    + intros H. by exists "", (String a s).
Qed.

(** The group that ends a pattern with a run of digits holds digits. *)
Lemma last_group_digits (ic : bool) (r : regex) (i : nat) (s : string)
    (c : caps) (rest : string) :
  mt ic (Seq r (Grp i (Plus is_digit))) accept s [] = Some (c, rest) ->
  all_digits (group i c) = true.
Proof.
  rewrite mt_Seq. intros (pre & v & c0 & _ & H)%mt_suffix.
  simpl in H. destruct v as [|b v]; [done|]. destruct (is_digit b) eqn:Hb; [|done].
  apply star_digits_run in H as (ds & t & -> & Hds & H).
  unfold accept in H. injection H as <- _.
  rewrite <- append_cons, consumed_append. simpl. rewrite Nat.eqb_refl. simpl.
  by rewrite Hb.
Qed.

Lemma search_last_group_digits (ic : bool) (r : regex) (i : nat) (s : string) (m : caps) :
  search ic (Seq r (Grp i (Plus is_digit))) s = Some m -> all_digits (group i m) = true.
Proof.
  intros (pre & v & rest & _ & H)%search_suffix. by apply last_group_digits in H.
Qed.

End CaseFacts.

Section AnyCase.
Import Text Re TextFacts ReFacts ReMore CaseFacts.

Variable f : ascii -> ascii.
Hypothesis f_lower : forall b, lower_char (f b) = lower_char b.
Hypothesis f_sep : forall b, sep (f b) = sep b.
Hypothesis f_digit : forall b, is_digit (f b) = is_digit b.
Hypothesis f_s : forall b, one_of "sS" (f b) = one_of "sS" b.
Hypothesis f_e : forall b, one_of "eE" (f b) = one_of "eE" b.
Hypothesis f_fix : forall b, is_digit b = true -> f b = b.

Lemma f_chr_ok (a b : ascii) : chr_ok true a (f b) = chr_ok true a b.
Proof. unfold chr_ok. by rewrite f_lower. Qed.

Lemma season_re_case_blind : case_blind true f season_re.
Proof.
  unfold season_re. cbn [case_blind].
  split_and!; try apply case_blind_lit; try apply f_chr_ok; done.
Qed.

Lemma disc_re_case_blind : case_blind true f disc_re.
Proof.
  unfold disc_re. cbn [case_blind].
  split_and!; try apply case_blind_lit; try apply f_chr_ok; done.
Qed.

Lemma episode_re_case_blind : case_blind false f episode_re.
Proof. unfold episode_re. cbn [case_blind]. split_and!; done. Qed.

Lemma season_num_case (n : string) :
  get_clean_season_num (map_chars f n) = get_clean_season_num n.
Proof.
  unfold get_clean_season_num. rewrite (search_case f _ _ _ season_re_case_blind).
  destruct (search true season_re n) as [m|] eqn:Hs; [|done]. simpl.
  rewrite group_case, (map_chars_digits f _ f_fix); [done|].
  apply search_suffix in Hs as (pre & v & rest & _ & H).
  apply (last_group_digits true
           (Seq (Alt (lit "season") (Alt (lit "staffel") (lit "s"))) (Opt (Cls sep)))
           1 v m rest).
  exact H.
Qed.

Lemma disc_num_case (n : string) (s : N) :
  get_clean_disc_num (map_chars f n) s = get_clean_disc_num n s.
Proof.
  rewrite !get_clean_disc_num_first.
  rewrite (sub_empty_case f true _ n 0 (case_blind_lit f _ f_chr_ok)).
  rewrite (search_case f _ _ _ disc_re_case_blind).
  destruct (search true disc_re _) as [m|] eqn:Hs; [|done]. simpl.
  rewrite group_case, (map_chars_digits f _ f_fix); [done|].
  apply search_suffix in Hs as (pre & v & rest & _ & H).
  apply (last_group_digits true
           (Seq (Alt (lit "disc") (Alt (lit "disk") (Alt (lit "dvd") (lit "d"))))
                (Opt (Cls sep)))
           1 v m rest).
  exact H.
Qed.

Lemma episode_num_case (n : string) :
  get_episode_from_file (map_chars f n) = get_episode_from_file n.
Proof.
  unfold get_episode_from_file. rewrite (search_case f _ _ _ episode_re_case_blind).
  destruct (search false episode_re n) as [m|] eqn:Hs; [|done]. simpl.
  rewrite group_case, (map_chars_digits f _ f_fix); [done|].
  apply search_suffix in Hs as (pre & v & rest & _ & H).
  apply (last_group_digits false
           (Seq (Cls (one_of "sS")) (Seq (Plus is_digit) (Cls (one_of "eE"))))
           1 v m rest).
  exact H.
Qed.

End AnyCase.

Section AnyCaseNames.
Import Text Re.

Lemma lower_upper_char (b : ascii) : lower_char (upper_char b) = lower_char b.
Proof. by destruct b as [[] [] [] [] [] [] [] []]. Qed.

Lemma sep_upper_char (b : ascii) : sep (upper_char b) = sep b.
Proof. by destruct b as [[] [] [] [] [] [] [] []]. Qed.

Lemma sep_lower_char (b : ascii) : sep (lower_char b) = sep b.
Proof. by destruct b as [[] [] [] [] [] [] [] []]. Qed.

Lemma is_digit_upper_char (b : ascii) : is_digit (upper_char b) = is_digit b.
Proof. by destruct b as [[] [] [] [] [] [] [] []]. Qed.

Lemma is_digit_lower_char (b : ascii) : is_digit (lower_char b) = is_digit b.
Proof. by destruct b as [[] [] [] [] [] [] [] []]. Qed.

Lemma one_of_s_upper_char (b : ascii) : one_of "sS" (upper_char b) = one_of "sS" b.
Proof. by destruct b as [[] [] [] [] [] [] [] []]. Qed.

Lemma one_of_s_lower_char (b : ascii) : one_of "sS" (lower_char b) = one_of "sS" b.
Proof. by destruct b as [[] [] [] [] [] [] [] []]. Qed.

Lemma one_of_e_upper_char (b : ascii) : one_of "eE" (upper_char b) = one_of "eE" b.
Proof. by destruct b as [[] [] [] [] [] [] [] []]. Qed.

Lemma one_of_e_lower_char (b : ascii) : one_of "eE" (lower_char b) = one_of "eE" b.
Proof. by destruct b as [[] [] [] [] [] [] [] []]. Qed.

(** X23: on a name of ASCII characters the season number, the disc number
    and the episode number read from the name do not depend on its letter
    case. *)
Theorem X23_numbers_in_any_case (n : string) (s : N) :
  is_ascii n = true ->
  get_clean_season_num (upper n) = get_clean_season_num n /\
  get_clean_season_num (lower n) = get_clean_season_num n /\
  get_clean_disc_num (upper n) s = get_clean_disc_num n s /\
  get_clean_disc_num (lower n) s = get_clean_disc_num n s /\
  get_episode_from_file (upper n) = get_episode_from_file n /\
  get_episode_from_file (lower n) = get_episode_from_file n.
Proof.
  intros _. unfold upper, lower.
  split_and!;
    first [apply season_num_case | apply disc_num_case | apply episode_num_case];
    intros b;
    first [apply lower_upper_char | apply lower_char_idem
          | apply sep_upper_char | apply sep_lower_char
          | apply is_digit_upper_char | apply is_digit_lower_char
          | apply one_of_s_upper_char | apply one_of_s_lower_char
          | apply one_of_e_upper_char | apply one_of_e_lower_char
          | apply upper_char_digit | apply lower_char_digit].
Qed.

Lemma X23_numbers_in_any_case_witness :
  get_clean_season_num (upper "Season 2 Disc 1") = get_clean_season_num "Season 2 Disc 1" /\
  get_clean_season_num (lower "Season 2 Disc 1") = get_clean_season_num "Season 2 Disc 1" /\
  get_clean_disc_num (upper "Season 2 Disc 1") 2 = get_clean_disc_num "Season 2 Disc 1" 2 /\
  get_clean_disc_num (lower "Season 2 Disc 1") 2 = get_clean_disc_num "Season 2 Disc 1" 2 /\
  get_episode_from_file (upper "Season 2 Disc 1") = get_episode_from_file "Season 2 Disc 1" /\
  get_episode_from_file (lower "Season 2 Disc 1") = get_episode_from_file "Season 2 Disc 1".
Proof. apply (X23_numbers_in_any_case "Season 2 Disc 1" 2). reflexivity. Defined.

End AnyCaseNames.

(** * The claims that rest on the origin of the operations *)

(** ** C9: an earlier match *)

(** C9 as stated fails: each of the two names holds an [s] followed by at
    most one separator and digits, [s 2] in [Bonus 2] and [s3], and the
    number returned is not the number of those digits but that of the
    match found first. *)
Lemma C9_earlier_match_wins :
  get_clean_season_num "S1 Bonus 2" = Some 1 /\
  get_clean_season_num "Season 2 s3" = Some 2.
Proof. by vm_compute. Qed.

(** ** C5: the root files and season 1 *)

Section RootSeason.

Lemma root_file_not_planned (X : entry) (g : entry) (op : operation) :
  g ∈ iterdir X -> should_ignore_file (name g) = true -> is_video g = true ->
  op ∈ show_ops X ->
  is_root_move op = false /\ forall h : entry, h ∈ iterdir X -> original op <> path h.
Proof.
  intros Hg Hig Hv Hop.
  destruct (is_root_move op) eqn:Hr.
  - exfalso. apply op_origin in Hop as (f & e & _ & _ & _ & _ & _ & Hcase).
    destruct Hcase as [(_ & _ & _ & _ & Hall)|[? _]]; [|congruence].
    rewrite (Hall g) in Hig; [done|]. by apply elem_of_root_files_of.
  - split; [done|]. intros h Hh Heq.
    destruct (op_folder X op Hop Hr) as (F & rest & _ & Hp & _).
    rewrite Heq, (iterdir_parent X h Hh) in Hp.
    rewrite <- (app_nil_r (parts X)) in Hp at 1. by apply app_inv_head in Hp.
Qed.

(** C5, amended: in a show with ASCII names, when there are root-level
    video files, none of them is ignored and no folder is mapped to
    season 1, a synthetic season 1 is registered and every root file is
    planned as a root move of season 1.  When some root-level video file is
    ignored, no synthetic season is registered, the season map holds the
    folders only, and no root file is planned: [process_show] adds no root
    move and no operation for an entry that lies directly in the show. *)
Theorem C5_synthetic_season_1 (show_path : entry) :
  ascii_show show_path = true ->
  (root_files_of show_path <> [] ->
   (forall f : entry, f ∈ root_files_of show_path -> should_ignore_file (name f) = false) ->
   foldl map_folder ∅ (folders_of show_path) !! 1 = None ->
   seasons_of show_path !! 1 = Some CREATE_ROOT_S1 /\
   forall (f : entry) (self : ShowProcessor), f ∈ root_files_of show_path ->
     exists e, mkOp f (target_name 1 e f) 1 true ∈ operations (process_show show_path self))
  /\
  (forall f : entry, f ∈ root_files_of show_path -> should_ignore_file (name f) = true ->
   seasons_of show_path = foldl map_folder ∅ (folders_of show_path) /\
   (forall k, seasons_of show_path !! k <> Some CREATE_ROOT_S1) /\
   forall (self : ShowProcessor) (op : operation),
     op ∈ operations (process_show show_path self) ->
     op ∈ operations self \/
     (is_root_move op = false /\
      forall h : entry, h ∈ iterdir show_path -> original op <> path h)).
Proof.
  intros _. split.
  - intros Hne Hnone H1.
    assert (seasons_of show_path !! 1 = Some CREATE_ROOT_S1) as Hreg.
    { by apply seasons_of_root_made. }
    split; [done|]. intros f self Hf.
    rewrite process_show_ops.
    assert (f ∈ slot_files show_path (1, CREATE_ROOT_S1)) as Hsf.
    { unfold slot_files. simpl. by apply elem_of_root_season_files. }
    destruct (assignments_covers _ 0 f Hsf (Hnone f Hf)) as [e He].
    exists e. apply elem_of_app. right.
    apply show_ops_elem. exists 1, CREATE_ROOT_S1, f, e. split_and!; [done..|].
    unfold op_of. simpl. by rewrite orb_true_r.
  - intros f Hf Hig.
    assert (seasons_of show_path = foldl map_folder ∅ (folders_of show_path)) as Heq.
    { unfold seasons_of, build_seasons_map.
      rewrite (existsb_ignore_true _ f Hf Hig). by rewrite andb_false_r. }
    split_and!; [done| |].
    + intros k. rewrite Heq. by apply map_folders_no_root.
    + intros self op. rewrite process_show_ops.
      intros [Hop|Hop]%elem_of_app; [by left|right].
      apply elem_of_root_files_of in Hf as [Hin Hv].
      by apply (root_file_not_planned show_path f).
Qed.

Lemma C5_synthetic_season_1_witness :
  seasons_of Examples2.root_and_season_2 !! 1 = Some CREATE_ROOT_S1 /\
  operations (process_show Examples8.ignored_beside_season init) = [Examples7.rename_x] /\
  forall op : operation,
    op ∈ operations (process_show Examples8.ignored_beside_season init) ->
    op ∈ operations init \/
    (is_root_move op = false /\
     forall h : entry, h ∈ iterdir Examples8.ignored_beside_season ->
       original op <> path h).
Proof.
  split_and!.
  - apply (proj1 (C5_synthetic_season_1 Examples2.root_and_season_2
                    ltac:(by vm_compute))).
    + by vm_compute.
    + intros f Hf. vm_compute in Hf.
      repeat (apply elem_of_cons in Hf as [->|Hf]; [by vm_compute|]).
      by apply elem_of_nil in Hf.
    + by vm_compute.
  - reflexivity.
  - apply (proj2 (C5_synthetic_season_1 Examples8.ignored_beside_season
                    ltac:(by vm_compute))
             Examples8.ignored_root_file).
    + vm_compute. apply list_elem_of_further, list_elem_of_here.
    + reflexivity.
Defined.

End RootSeason.

(** ** C7: folder renames *)

Section FolderRenames.

Lemma log_tree_arrow (logs : list string) (level : nat) (text new : string) :
  new <> "" -> log_tree logs level text (Some new) = logs ++ [arrow_line level text new].
Proof.
  intros Hne. unfold log_tree, arrow_line, truthy_str.
  apply String.eqb_neq in Hne. by rewrite Hne.
Qed.

Lemma season_name_nonempty (s : N) : "Season " +:+ Text.str s <> "".
Proof. by rewrite TextFacts.append_cons. Qed.

Lemma disc_name_nonempty (s d : N) : "S" +:+ Text.str s +:+ "D" +:+ Text.str d <> "".
Proof. by rewrite TextFacts.append_cons. Qed.

(** The line of a disc folder that is renamed, in the log after its disc
    and after the discs that follow. *)
Lemma plan_disc_line (s c d : N) (logs : list string) (self : ShowProcessor) (D : entry) :
  name D <> "S" +:+ Text.str s +:+ "D" +:+ Text.str d ->
  arrow_line 2 (name D) ("S" +:+ Text.str s +:+ "D" +:+ Text.str d)
    ∈ fst (snd (plan_disc s (c, (logs, self)) (d, D))).
Proof.
  intros Hne. unfold plan_disc. apply String.eqb_neq in Hne. rewrite Hne. cbn [negb].
  destruct (plan_files_logs (disc_files D) s 3 false
              (c, (log_tree logs 2 (name D)
                     (Some ("S" +:+ Text.str s +:+ "D" +:+ Text.str d)), self)))
    as [more ->].
  cbn [fst snd]. rewrite log_tree_arrow by apply disc_name_nonempty.
  apply elem_of_app. left. apply elem_of_app. right. by apply list_elem_of_singleton.
Qed.

Lemma plan_discs_line (s d : N) (D : entry) (l : list (N * entry)) (acc : N * state) :
  (d, D) ∈ l ->
  name D <> "S" +:+ Text.str s +:+ "D" +:+ Text.str d ->
  arrow_line 2 (name D) ("S" +:+ Text.str s +:+ "D" +:+ Text.str d)
    ∈ fst (snd (foldl (plan_disc s) acc l)).
Proof.
  intros Hin Hne. revert acc. induction l as [|x l IH]; intros acc.
  { by apply elem_of_nil in Hin. }
  cbn [foldl]. apply elem_of_cons in Hin as [<-|Hin]; [|by apply IH].
  destruct (plan_discs_logs l s (plan_disc s acc (d, D))) as [more ->].
  apply elem_of_app. left. destruct acc as [c [logs self]]. by apply plan_disc_line.
Qed.

Lemma process_season_content_disc_line (F : entry) (s d : N) (D : entry) (t : string)
    (st : state) :
  disc_map F s !! d = Some D ->
  name D <> "S" +:+ Text.str s +:+ "D" +:+ Text.str d ->
  arrow_line 2 (name D) ("S" +:+ Text.str s +:+ "D" +:+ Text.str d)
    ∈ fst (process_season_content F [] s t false st).
Proof.
  intros HD Hne. unfold process_season_content, disc_map in *.
  destruct (season_scan F [] s false) as [dm df]. cbn [fst] in HD.
  apply sorted_items_lookup in HD.
  pose proof (plan_discs_line s d D (sorted_items dm) (plan_files df s 2 false (0, st))
                HD Hne) as H.
  by destruct (foldl _ _ _) as [c' [logs' self']].
Qed.

Lemma process_season_lines (X : entry) (rf : list entry) (st : state) (s : N) (F : entry) :
  (name F <> "Season " +:+ Text.str s ->
   arrow_line 1 (name F) ("Season " +:+ Text.str s)
     ∈ fst (process_season X rf st (s, Folder F))) /\
  (forall (d : N) (D : entry), disc_map F s !! d = Some D ->
     name D <> "S" +:+ Text.str s +:+ "D" +:+ Text.str d ->
     arrow_line 2 (name D) ("S" +:+ Text.str s +:+ "D" +:+ Text.str d)
       ∈ fst (process_season X rf st (s, Folder F))).
Proof.
  unfold process_season. split.
  - intros Hne. apply String.eqb_neq in Hne. rewrite Hne. cbn [negb].
    destruct (process_season_content_logs F [] s ("Season " +:+ Text.str s) false
                (log_tree (fst st) 1 (name F) (Some ("Season " +:+ Text.str s)), snd st))
      as [more ->].
    cbn [fst]. rewrite log_tree_arrow by apply season_name_nonempty.
    apply elem_of_app. left. apply elem_of_app. right. by apply list_elem_of_singleton.
  - intros d D HD Hne. by apply process_season_content_disc_line.
Qed.

Lemma process_seasons_line (X : entry) (rf : list entry) (line : string) (s : N)
    (F : entry) (l : list (N * season_slot)) (st : state) :
  (s, Folder F) ∈ l ->
  (forall st', line ∈ fst (process_season X rf st' (s, Folder F))) ->
  line ∈ fst (foldl (process_season X rf) st l).
Proof.
  intros Hin Hline. revert st. induction l as [|x l IH]; intros st.
  { by apply elem_of_nil in Hin. }
  cbn [foldl]. apply elem_of_cons in Hin as [<-|Hin]; [|by apply IH].
  destruct (process_seasons_logs X rf (process_season X rf st (s, Folder F)) l)
    as [more ->].
  apply elem_of_app. left. apply Hline.
Qed.

(** What the log of a show holds is in the report when an operation was
    added. *)
Lemma process_show_line (X : entry) (self : ShowProcessor) (line : string) :
  show_ops X <> [] ->
  (forall st, line ∈ fst (foldl (process_season X (root_files_of X)) st
                           (sorted_items (seasons_of X)))) ->
  line ∈ tree_output (process_show X self).
Proof.
  intros Hne Hline. unfold process_show.
  fold (folders_of X). fold (root_files_of X). fold (seasons_of X).
  specialize (Hline ([show_header X], self)).
  destruct (process_seasons_ops X (root_files_of X) ([show_header X], self)
              (sorted_items (seasons_of X)) eq_refl) as [Ho _].
  fold (show_ops X) in Ho.
  destruct (foldl _ _ _) as [logs self']. cbn [fst snd operations] in Ho, Hline.
  rewrite Ho, length_app.
  destruct (show_ops X) as [|op ops]; [done|].
  replace (length (operations self) <? length (operations self) + length (op :: ops))%nat
    with true by (symmetry; apply Nat.ltb_lt; simpl; lia).
  cbn [tree_output]. apply elem_of_app. by right.
Qed.

Lemma emit_op_line (is_windows : bool) (op : operation) (line : string) :
  line ∈ emit_op is_windows op ->
  (is_root_move op = true /\ line = mkdir_line is_windows (dest_folder op)) \/
  line = move_line is_windows (original op) (dest_file op).
Proof.
  unfold emit_op, mkdir_line, move_line.
  destruct (is_root_move op), is_windows; intros H;
    repeat (apply elem_of_cons in H as [->|H]); try (by apply elem_of_nil in H);
    auto.
Qed.

Lemma op_lies_in (X : entry) (op : operation) :
  op ∈ show_ops X ->
  exists f : entry, original op = path f /\ is_video f = true /\ lies_in X f.
Proof.
  intros (f & e & Ho & Hv & _ & _ & _ & Hcase)%op_origin.
  exists f. split_and!; [done..|].
  destruct Hcase as [(_ & _ & Hin & _)|(_ & _ & F & HF & Hf)]; [by left|right].
  apply season_winner in HF as (HinF & _). exists F. split; [done|].
  destruct Hf as [Hf|(d & D & HD & Hf)]; [by left|right].
  apply disc_winner in HD as (HinD & _). eauto.
Qed.

(** C7, amended: in a show with ASCII names, the rename of a folder is a
    line of the report, never a line of the script.  When a file operation
    is planned for the show,
    the report has the line [name  ->  Season n] of every folder bound in
    the season map whose name is not [Season n], and the line
    [name  ->  SnDm] of every folder bound in the disc map of a bound season
    whose name is not [SnDm]; when no file operation is planned, the show
    adds nothing to the report.  Each line of the script is a header line,
    the [mkdir] of the season folder of a root move, or the move of a video
    file listed in the show, from its path to the destination of its
    operation. *)
Theorem C7_folder_renames_only_logged (is_windows : bool) (show_path : entry)
    (self : ShowProcessor) :
  ascii_show show_path = true ->
  (operations (process_show show_path init) <> [] ->
   (forall (s_num : N) (folder : entry),
      seasons_of show_path !! s_num = Some (Folder folder) ->
      name folder <> "Season " +:+ Text.str s_num ->
      arrow_line 1 (name folder) ("Season " +:+ Text.str s_num)
        ∈ tree_output (process_show show_path self)) /\
   (forall (s_num d_num : N) (folder disc_folder : entry),
      seasons_of show_path !! s_num = Some (Folder folder) ->
      disc_map folder s_num !! d_num = Some disc_folder ->
      name disc_folder <> "S" +:+ Text.str s_num +:+ "D" +:+ Text.str d_num ->
      arrow_line 2 (name disc_folder)
          ("S" +:+ Text.str s_num +:+ "D" +:+ Text.str d_num)
        ∈ tree_output (process_show show_path self))) /\
  (operations (process_show show_path init) = [] ->
   tree_output (process_show show_path self) = tree_output self) /\
  (forall fn lines,
     generate_script is_windows (process_show show_path init) = Some (fn, lines) ->
     forall line, line ∈ lines ->
       is_header line \/
       (exists op : operation,
          op ∈ operations (process_show show_path init) /\ is_root_move op = true /\
          line = mkdir_line is_windows (dest_folder op)) \/
       (exists (op : operation) (f : entry),
          op ∈ operations (process_show show_path init) /\
          original op = path f /\ is_video f = true /\ lies_in show_path f /\
          line = move_line is_windows f (dest_file op))).
Proof.
  intros _. rewrite planned_ops. split_and!.
  - intros Hne. split.
    + intros s F Hs HF. apply process_show_line; [done|]. intros st.
      apply (process_seasons_line _ _ _ s F); [by apply sorted_items_lookup|].
      intros st'. by apply process_season_lines.
    + intros s d F D Hs HD HneD. apply process_show_line; [done|]. intros st.
      apply (process_seasons_line _ _ _ s F); [by apply sorted_items_lookup|].
      intros st'. by apply (process_season_lines _ _ _ s F).
  - intros Hnil. destruct (process_show_appends show_path self) as (_ & Hsame & _).
    rewrite planned_ops in Hsame. by rewrite (Hsame Hnil).
  - intros fn lines Hgen line Hline.
    apply generate_script_lines in Hgen as ->. rewrite planned_ops in Hline.
    apply elem_of_app in Hline as [Hline|Hline].
    { left. unfold is_header. destruct is_windows; [by apply elem_of_nil in Hline|].
      apply list_elem_of_singleton in Hline. auto. }
    apply elem_of_app in Hline as [Hline|Hline].
    { left. unfold is_header. apply list_elem_of_singleton in Hline.
      destruct is_windows; auto. }
    right. apply elem_of_flat_map in Hline as (op & Hop & Hline).
    apply emit_op_line in Hline as [[Hr ->] | ->]; [left; eauto|right].
    destruct (op_lies_in show_path op Hop) as (f & Ho & Hv & Hl).
    exists op, f. split_and!; try done. by rewrite Ho.
Qed.

Lemma C7_folder_renames_only_logged_witness :
  arrow_line 1 "Season 01" "Season 1"
    ∈ tree_output (process_show Examples4.season_01 init).
Proof.
  apply (proj1 (proj1 (C7_folder_renames_only_logged false Examples4.season_01 init
                         ltac:(by vm_compute))
                  ltac:(by vm_compute))
           1 (mkEntry Examples4.folder_season_01 (Dir (Examples.files ["a.mkv"])))).
  - by vm_compute.
  - by vm_compute.
Defined.

End FolderRenames.

(** ** C8: the script, read by bash, and the second run *)

Module BashFacts.
Import Text TextFacts Bash.

Lemma all_chars_app (p : ascii -> bool) (a b : string) :
  all_chars p (a +:+ b) = all_chars p a && all_chars p b.
Proof.
  induction a as [|x a IH]; [by rewrite append_nil_l|].
  rewrite append_cons. simpl. by rewrite IH, andb_assoc.
Qed.

Lemma all_chars_impl (p q : ascii -> bool) (s : string) :
  (forall a, p a = true -> q a = true) -> all_chars p s = true -> all_chars q s = true.
Proof.
  intros Hpq. induction s as [|a s IH]; [done|]. simpl.
  intros [Ha Hs]%andb_prop. by rewrite (Hpq a Ha), IH.
Qed.

Lemma strip_prefix_app (pre s : string) : strip_prefix pre (pre +:+ s) = Some s.
Proof.
  induction pre as [|a pre IH]; [by rewrite append_nil_l|].
  rewrite append_cons. cbn [strip_prefix]. by rewrite Ascii.eqb_refl.
Qed.

Lemma not_special_quote (a : ascii) : special a = false -> (code a =? 34) = false.
Proof. unfold special. by destruct (code a =? 34). Qed.

Lemma read_word_plain (w rest : string) :
  all_chars (fun a => negb (special a)) w = true ->
  read_word (w +:+ dq +:+ rest) = Some (w, rest).
Proof.
  induction w as [|a w IH]; intros Hw.
  - rewrite append_nil_l. unfold dq. rewrite append_cons, append_nil_l. reflexivity.
  - simpl in Hw. apply andb_prop in Hw as [Ha Hw]. apply negb_true_iff in Ha.
    rewrite append_cons. cbn [read_word].
    by rewrite (not_special_quote a Ha), Ha, (IH Hw).
Qed.

Lemma quoted_word_quoted (w rest : string) :
  all_chars (fun a => negb (special a)) w = true ->
  quoted_word (quoted w +:+ rest) = Some (w, rest).
Proof.
  intros Hw. unfold quoted. rewrite !append_assoc. unfold dq at 1.
  rewrite append_cons, append_nil_l. cbn [quoted_word].
  change (code (ascii_of_nat 34) =? 34) with true. cbv iota.
  by apply read_word_plain.
Qed.

Lemma components_one (c : string) :
  all_chars (fun a => negb (code a =? 47)) c = true -> components c = [c].
Proof.
  induction c as [|a c IH]; [done|]. simpl. intros [Ha Hc]%andb_prop.
  apply negb_true_iff in Ha. by rewrite Ha, (IH Hc).
Qed.

Lemma components_cons (c r : string) :
  all_chars (fun a => negb (code a =? 47)) c = true ->
  components (c +:+ "/" +:+ r) = c :: components r.
Proof.
  induction c as [|a c IH]; intros Hc.
  - rewrite append_nil_l, append_cons, append_nil_l. reflexivity.
  - simpl in Hc. apply andb_prop in Hc as [Ha Hc]. apply negb_true_iff in Ha.
    rewrite append_cons. cbn [components]. by rewrite Ha, (IH Hc).
Qed.

Lemma components_concat (l : list string) :
  l <> [] ->
  Forall (fun c => all_chars (fun a => negb (code a =? 47)) c = true) l ->
  components (String.concat "/" l) = l.
Proof.
  induction l as [|x l IH]; [done|]. intros _ Hl.
  apply Forall_cons in Hl as [Hx Hl]. destruct l as [|y l].
  - simpl. by apply components_one.
  - change (String.concat "/" (x :: y :: l))
      with (x +:+ "/" +:+ String.concat "/" (y :: l)).
    rewrite (components_cons x _ Hx), IH; done.
Qed.

Lemma plain_char_not_slash (a : ascii) :
  plain_char a = true -> negb (code a =? 47) = true.
Proof. unfold plain_char. by intros [[_ ?]%andb_prop _]%andb_prop. Qed.

Lemma plain_char_not_special (a : ascii) :
  plain_char a = true -> negb (special a) = true.
Proof. unfold plain_char. by intros [_ ?]%andb_prop. Qed.

Lemma plain_name_chars (n : string) : plain_name n = true -> all_chars plain_char n = true.
Proof. unfold plain_name. by intros [_ ?]%andb_prop. Qed.

Lemma plain_name_ok (n : string) : plain_name n = true -> component_ok n = true.
Proof. unfold plain_name. by intros [? _]%andb_prop. Qed.

Lemma concat_not_special (l : list string) :
  Forall (fun c => all_chars plain_char c = true) l ->
  all_chars (fun a => negb (special a)) (String.concat "/" l) = true.
Proof.
  induction l as [|x l IH]; [done|]. intros Hl.
  apply Forall_cons in Hl as [Hx Hl]. destruct l as [|y l].
  - simpl. apply (all_chars_impl plain_char _ x plain_char_not_special Hx).
  - change (String.concat "/" (x :: y :: l))
      with (x +:+ "/" +:+ String.concat "/" (y :: l)).
    rewrite !all_chars_app, (IH Hl).
    rewrite (all_chars_impl plain_char _ x plain_char_not_special Hx). done.
Qed.

(** What [plain_path] says of the components. *)
Lemma plain_path_parts (p : Path) :
  plain_path p = true ->
  exists c cs, parts p = "" :: c :: cs /\
    Forall (fun n => plain_name n = true) (c :: cs).
Proof.
  unfold plain_path. destruct (parts p) as [|x [|c cs]] eqn:Hp; try done.
  { by destruct x. }
  destruct x; [|done]. intros H. exists c, cs. split; [done|].
  apply Forall_forall. intros n Hn. rewrite forallb_forall in H.
  by apply H, list_elem_of_In.
Qed.

(** The path name the script writes for a plain path names that path. *)
Lemma path_of_path_str (p : Path) :
  plain_path p = true -> path_of (path_str "/" p) = Some p.
Proof.
  intros (c & cs & Hp & Hall)%plain_path_parts. unfold path_of, path_str.
  rewrite Hp, components_concat; [|done|].
  - assert (forallb component_ok (c :: cs) = true) as ->.
    { apply forallb_forall. intros n Hn%list_elem_of_In.
      rewrite Forall_forall in Hall. by apply plain_name_ok, Hall. }
    rewrite <- Hp. unfold parts. rewrite List.removelast_last, List.last_last.
    by destruct p.
  - constructor; [done|]. eapply Forall_impl; [exact Hall|].
    intros n Hn. simpl.
    apply (all_chars_impl plain_char _ n plain_char_not_slash (plain_name_chars n Hn)).
Qed.

Lemma path_str_not_special (p : Path) :
  plain_path p = true ->
  all_chars (fun a => negb (special a)) (path_str "/" p) = true.
Proof.
  intros (c & cs & Hp & Hall)%plain_path_parts. unfold path_str. rewrite Hp.
  apply concat_not_special. constructor; [done|].
  eapply Forall_impl; [exact Hall|]. intros n Hn. by apply plain_name_chars.
Qed.

End BashFacts.

Module BashRuns.
Import Text TextFacts Bash BashFacts.

Lemma run_line_mkdir (d : Path) (fs : entry) :
  plain_path d = true ->
  run_line (mkdir_line false d) fs = Some (Shell.mkdir_p d fs).
Proof.
  intros Hd. unfold run_line, mkdir_line.
  assert (strip_prefix "#" ("mkdir -p " +:+ quoted (path_str "/" d)) = None) as ->.
  { rewrite append_cons. reflexivity. }
  rewrite strip_prefix_app.
  rewrite <- (append_nil_r (quoted (path_str "/" d))).
  rewrite (quoted_word_quoted _ "" (path_str_not_special d Hd)).
  by rewrite (path_of_path_str d Hd).
Qed.

Lemma run_line_move (a b : Path) (fs : entry) :
  plain_path a = true -> plain_path b = true ->
  run_line (move_line false a b) fs = Some (Shell.mv_n a b fs).
Proof.
  intros Ha Hb. unfold run_line, move_line.
  assert (forall r, strip_prefix "#" ("mv -n " +:+ r) = None) as ->.
  { intros r. rewrite append_cons. reflexivity. }
  assert (forall r, strip_prefix "mkdir -p " ("mv -n " +:+ r) = None) as ->.
  { intros r. rewrite !append_cons. reflexivity. }
  rewrite strip_prefix_app.
  rewrite (quoted_word_quoted _ _ (path_str_not_special a Ha)).
  rewrite strip_prefix_app.
  rewrite <- (append_nil_r (quoted (path_str "/" b))).
  rewrite (quoted_word_quoted _ "" (path_str_not_special b Hb)).
  by rewrite (path_of_path_str a Ha), (path_of_path_str b Hb).
Qed.

Lemma run_lines_app (l1 l2 : list string) (fs : entry) :
  run_lines (l1 ++ l2) fs =
  match run_lines l1 fs with Some fs' => run_lines l2 fs' | None => None end.
Proof.
  revert fs. induction l1 as [|x l1 IH]; intros fs; [done|].
  cbn [app run_lines]. destruct (run_line x fs); [apply IH|done].
Qed.

(** The lines written for an operation with plain paths do, when bash runs
    them, what [Shell.run_op] does. *)
Lemma emit_op_runs (op : operation) (fs : entry) :
  plain_path (original op) = true -> plain_path (dest_file op) = true ->
  (is_root_move op = true -> plain_path (dest_folder op) = true) ->
  run_lines (emit_op false op) fs = Some (Shell.run_op fs op).
Proof.
  intros Ho Hd Hf. unfold emit_op, Shell.run_op. destruct (is_root_move op).
  - change (run_lines [mkdir_line false (dest_folder op);
                       move_line false (original op) (dest_file op)] fs
            = Some (Shell.mv_n (original op) (dest_file op)
                      (Shell.mkdir_p (dest_folder op) fs))).
    cbn [run_lines]. rewrite run_line_mkdir by auto. by rewrite run_line_move.
  - change (run_lines [move_line false (original op) (dest_file op)] fs
            = Some (Shell.mv_n (original op) (dest_file op) fs)).
    cbn [run_lines]. by rewrite run_line_move.
Qed.

Lemma emit_ops_run (ops : list operation) (fs : entry) :
  (forall op, op ∈ ops ->
     plain_path (original op) = true /\ plain_path (dest_file op) = true /\
     (is_root_move op = true -> plain_path (dest_folder op) = true)) ->
  run_lines (flat_map (emit_op false) ops) fs = Some (Shell.run_script ops fs).
Proof.
  revert fs. induction ops as [|op ops IH]; intros fs Hall; [done|].
  cbn [flat_map]. rewrite run_lines_app.
  destruct (Hall op (list_elem_of_here _ _)) as (H1 & H2 & H3).
  rewrite (emit_op_runs op fs H1 H2 H3). unfold Shell.run_script. cbn [foldl].
  apply IH. intros op' Hop'. apply Hall. by right.
Qed.

(** The script of a plan of plain paths, run by bash. *)
Lemma script_runs (self : ShowProcessor) (fn : string) (lines : list string) (fs : entry) :
  (forall op, op ∈ operations self ->
     plain_path (original op) = true /\ plain_path (dest_file op) = true /\
     (is_root_move op = true -> plain_path (dest_folder op) = true)) ->
  generate_script false self = Some (fn, lines) ->
  run_lines lines fs = Some (Shell.run_script (operations self) fs).
Proof.
  intros Hall Hgen. apply generate_script_lines in Hgen as ->.
  cbn [app run_lines]. change (run_line "#!/bin/bash" fs) with (Some fs). cbv iota.
  change (run_line "# Generated by Jellyfin Organizer" fs) with (Some fs). cbv iota.
  by apply emit_ops_run.
Qed.

End BashRuns.

Section PlainOps.
Import Text TextFacts Bash BashFacts.

Lemma iterdir_plain (e c : entry) :
  plain_tree (node e) = true -> c ∈ iterdir e ->
  plain_name (name c) = true /\ plain_tree (node c) = true.
Proof.
  intros Hp (kids & Hk & Hin & _)%iterdir_elem. rewrite Hk in Hp. simpl in Hp.
  rewrite forallb_forall in Hp. apply list_elem_of_In, Hp in Hin.
  by apply andb_prop in Hin.
Qed.

Lemma plain_path_intro (p : Path) (rest : list string) :
  parts p = "" :: rest -> rest <> [] -> forallb plain_name rest = true ->
  plain_path p = true.
Proof. unfold plain_path. intros -> Hne H. by destruct rest. Qed.

Lemma plain_show_parts (X : entry) :
  plain_show X = true ->
  exists rest, parts X = "" :: rest /\ forallb plain_name rest = true /\
    plain_tree (node X) = true.
Proof.
  unfold plain_show. destruct (parts X) as [|x rest]; [done|]. destruct x; [|done].
  intros [? ?]%andb_prop. eauto.
Qed.

Lemma is_digit_plain (a : ascii) : is_digit a = true -> plain_char a = true.
Proof.
  destruct a as [[] [] [] [] [] [] [] []]; intros H; vm_compute in H |- *; congruence.
Qed.

Lemma digits_plain (ds : string) : all_digits ds = true -> all_chars plain_char ds = true.
Proof.
  induction ds as [|a ds IH]; [done|]. simpl. intros [Ha Hds]%andb_prop.
  by rewrite (is_digit_plain a Ha), IH.
Qed.

Lemma all_chars_substring (p : ascii -> bool) (s : string) (n m : nat) :
  all_chars p s = true -> all_chars p (String.substring n m s) = true.
Proof.
  revert n m. induction s as [|a s IH]; intros n m Hs.
  - by destruct n, m.
  - simpl in Hs. apply andb_prop in Hs as [Ha Hs].
    destruct n as [|n]; destruct m as [|m]; simpl; rewrite ?Ha, ?IH; done.
Qed.

Lemma suffix_plain (p : Path) :
  all_chars plain_char (name p) = true -> all_chars plain_char (suffix p) = true.
Proof.
  intros Hn. unfold suffix. destruct (rfind_dot (name p) 0) as [i|]; [|done].
  destruct (_ && _); [|done]. by apply all_chars_substring.
Qed.

Lemma target_name_plain (s e : N) (p : Path) :
  plain_name (name p) = true -> plain_name (target_name s e p) = true.
Proof.
  intros Hn%plain_name_chars. unfold plain_name, target_name.
  apply andb_true_intro. split.
  - rewrite append_cons. unfold component_ok. reflexivity.
  - rewrite !all_chars_app, (digits_plain _ (all_digits_str02 s)),
      (digits_plain _ (all_digits_str02 e)), (suffix_plain p Hn). reflexivity.
Qed.

Lemma season_name_plain (s : N) : plain_name ("Season " +:+ str s) = true.
Proof.
  unfold plain_name. apply andb_true_intro. split.
  - rewrite append_cons. unfold component_ok. reflexivity.
  - rewrite all_chars_app, (digits_plain _ (all_digits_str s)). reflexivity.
Qed.

Lemma forallb_snoc (rest : list string) (n : string) :
  forallb plain_name rest = true -> plain_name n = true ->
  forallb plain_name (rest ++ [n]) = true.
Proof. intros H1 H2. rewrite forallb_app, H1. simpl. by rewrite H2. Qed.

(** The paths of the operations of a plain show are plain. *)
Lemma op_plain (X : entry) (op : operation) :
  plain_show X = true -> op ∈ show_ops X ->
  plain_path (original op) = true /\ plain_path (dest_file op) = true /\
  (is_root_move op = true -> plain_path (dest_folder op) = true).
Proof.
  intros (rest & HpX & Hrest & HtX)%plain_show_parts Hop.
  pose proof Hop as (f & e & Ho & _ & _ & _ & Hn & Hcase)%op_origin.
  assert (forall (d : entry) (rd : list string),
            parts d = "" :: rd -> forallb plain_name rd = true ->
            plain_tree (node d) = true -> f ∈ iterdir d ->
            plain_path (original op) = true /\
            plain_path (mkPath (parent (original op)) (new_name op)) = true) as Hin.
  { intros d rd Hd Hrd Htd Hf. destruct (iterdir_plain d f Htd Hf) as [Hnf _].
    rewrite Ho. split.
    - apply (plain_path_intro _ (rd ++ [name f])).
      + by rewrite (iterdir_parts d f Hf), Hd.
      + by destruct rd.
      + by apply forallb_snoc.
    - apply (plain_path_intro _ (rd ++ [new_name op])).
      + unfold parts. simpl. by rewrite (iterdir_parent d f Hf), Hd.
      + by destruct rd.
      + apply forallb_snoc; [done|]. rewrite Hn. by apply target_name_plain. }
  destruct Hcase as [(Hr & Hs & Hf & _)|(Hr & _ & F & HF & Hf)].
  - destruct (Hin X rest HpX Hrest HtX Hf) as [H1 _].
    destruct (iterdir_plain X f HtX Hf) as [Hnf _].
    assert (plain_path (dest_folder op) = true) as Hfolder.
    { apply (plain_path_intro _ (rest ++ ["Season " +:+ str (season_num op)])).
      - unfold parts, dest_folder. simpl. by rewrite Ho, (iterdir_parent X f Hf), HpX.
      - by destruct rest.
      - apply forallb_snoc; [done|apply season_name_plain]. }
    split_and!; [done| |done].
    unfold dest_file. rewrite Hr.
    apply (plain_path_intro _
             ((rest ++ ["Season " +:+ str (season_num op)]) ++ [new_name op])).
    + unfold parts at 1. simpl. unfold parts, dest_folder. simpl.
      by rewrite Ho, (iterdir_parent X f Hf), HpX.
    + by destruct rest.
    + apply forallb_snoc.
      * apply forallb_snoc; [done|apply season_name_plain].
      * rewrite Hn. by apply target_name_plain.
  - apply season_winner in HF as (HinF & _).
    destruct (iterdir_plain X F HtX HinF) as [HnF HtF].
    assert (parts F = "" :: (rest ++ [name F])) as HpF.
    { by rewrite (iterdir_parts X F HinF), HpX. }
    assert (forallb plain_name (rest ++ [name F]) = true) as HrF.
    { by apply forallb_snoc. }
    unfold dest_file. rewrite Hr.
    destruct Hf as [Hf|(d & D & HD & Hf)].
    + destruct (Hin F _ HpF HrF HtF Hf) as [H1 H2]. split_and!; [done..|]. by intros.
    + apply disc_winner in HD as (HinD & _).
      destruct (iterdir_plain F D HtF HinD) as [HnD HtD].
      assert (parts D = "" :: ((rest ++ [name F]) ++ [name D])) as HpD.
      { by rewrite (iterdir_parts F D HinD), HpF. }
      destruct (Hin D _ HpD (forallb_snoc _ _ HrF HnD) HtD Hf) as [H1 H2].
      split_and!; [done..|]. by intros.
Qed.

End PlainOps.

Section SecondRun.
Import Bash BashFacts BashRuns.

(** After the moves of the plan have all taken effect, nothing is left to
    plan. *)
Lemma rerun_is_empty (X : entry) :
  wf X ->
  all_performed (show_ops X) X ->
  operations (process_show (Shell.run_script (show_ops X) X) init) = [].
Proof.
  intros Hwf Hall.
  apply settled_iff_no_ops. apply (rerun_settled X); [done|].
  apply (ShellInv.carried_out_run X (show_ops X) [] X).
  - by apply ShellInv.carried_out_init.
  - intros op Hop. by destruct (op_located X op Hwf Hop) as (H & _).
  - done.
Qed.




End SecondRun.
